(** * Leaf-and-spine fabric: topology builder, flow-rule synthesizers and
      topology exporter of [extras/leafandspine.py], embedded and verified.

    Python integers are [Z]; [range] is Python's [range]; strings are
    [String.string]; the commands handed to [subprocess.call] are the
    argument vectors themselves ([list string]); the dictionaries of the
    exported snapshot are [gmap string _]. *)

From Stdlib Require Import ZArith Ascii String List.
From Stdlib Require Import DecimalString DecimalZ HexadecimalString HexadecimalZ HexadecimalPos.
From stdpp Require Import base list strings gmap.

Local Open Scope string_scope.
Local Open Scope list_scope.
Local Open Scope Z_scope.

(* ===================================================================== *)
(** ** Python string formatting *)
(* ===================================================================== *)

Module Fmt.

(** ['%s' % n] and [str(n)] for an integer [n]: the decimal numeral, with a
    leading minus sign when negative. *)
Definition str (n : Z) : string :=
  DecimalString.NilEmpty.string_of_int (Z.to_int n).

(** The unpadded lower-case hexadecimal numeral of ['{:x}'.format(n)]. *)
Definition hex (n : Z) : string :=
  HexadecimalString.NilEmpty.string_of_int (Z.to_hex_int n).

(** ['{:02x}'.format(n)]: lower-case hexadecimal, zero-filled on the left to a
    minimum width of two characters (wider numerals are not truncated). *)
Definition format_02x (n : Z) : string :=
  let s := hex n in
  if (String.length s <? 2)%nat then "0" +:+ s else s.

(** [c] does not occur in [s]. *)
Fixpoint lacks (c : ascii) (s : string) : bool :=
  match s with
  | EmptyString => true
  | String a s' => negb (Ascii.eqb a c) && lacks c s'
  end.

(** Python's [sep.join(items)]. *)
Definition join (sep : string) (items : list string) : string :=
  String.concat sep items.

(** [s.startswith(p)]. *)
Fixpoint startswith (p s : string) : bool :=
  match p with
  | EmptyString => true
  | String a p' =>
      match s with
      | EmptyString => false
      | String b s' => Ascii.eqb a b && startswith p' s'
      end
  end.

End Fmt.

(** Python's [range(n)] and [range(a, b)]. *)
Definition range (n : Z) : list Z :=
  map Z.of_nat (seq 0 (Z.to_nat n)).

Definition range2 (a b : Z) : list Z :=
  map (fun i => a + Z.of_nat i) (seq 0 (Z.to_nat (b - a))).

(* ===================================================================== *)
(** ** Exceptions and stateful computations *)
(* ===================================================================== *)

(** The exceptions the program can raise: a dictionary lookup on a missing
    key, and a file that cannot be opened. *)
Inductive exn : Type :=
  | KeyError (key : string)
  | IOError (path : string).

Inductive result (A : Type) : Type :=
  | Ok (a : A)
  | Raise (e : exn).
Arguments Ok {A} a.
Arguments Raise {A} e.

(** A computation over a mutable state [S] that returns an [A] or raises. *)
Definition M (S A : Type) : Type := S → result (A * S).

Definition raise {S A} (e : exn) : M S A := fun _ => Raise e.
Definition modify {S} (f : S → S) : M S unit := fun st => Ok (tt, f st).

#[global] Instance M_ret {S} : MRet (M S) := fun A a st => Ok (a, st).

#[global] Instance M_bind {S} : MBind (M S) := fun A B k m st =>
  match m st with
  | Ok (a, st') => k a st'
  | Raise e => Raise e
  end.

(** [for x in xs: body(x)]. *)
Fixpoint for_ {S X} (xs : list X) (body : X → M S unit) : M S unit :=
  match xs with
  | [] => mret tt
  | x :: xs' => body x ;; for_ xs' body
  end.

(* ===================================================================== *)
(** ** The topology under construction ([mininet.topo.Topo]) *)
(* ===================================================================== *)

(** Modelled from the spec: a node of the emulator library's topology
    (section 3, Switch and Host): its name, whether it is a switch, and the
    options it was created with. *)
Record NodeInfo : Type := {
  node_name : string;
  node_isSwitch : bool;
  node_opts : list (string * string)
}.

(** Modelled from the spec: a link (section 3, Link): the two nodes it
    joins, the port on each, and its attributes (the bandwidth). *)
Record LinkInfo : Type := {
  node1 : string;
  node2 : string;
  port1 : Z;
  port2 : Z;
  link_opts : list (string * Z)
}.

(** Modelled from the spec: the topology object (section 3, Fabric), nodes
    and links in creation order. *)
Record Topo : Type := {
  nodes : list NodeInfo;
  links : list LinkInfo
}.

(** The ports in use on node [n], in allocation order, each with the node at
    the other end of its link. *)
Definition ports_of (n : string) (ls : list LinkInfo) : list (Z * string) :=
  flat_map (fun l =>
      (if String.eqb (node1 l) n then [(port1 l, node2 l)] else []) ++
      (if String.eqb (node2 l) n then [(port2 l, node1 l)] else [])) ls.

(** Modelled from the spec: whether the node named [n] was created as a
    switch. *)
Definition isSwitch (t : Topo) (n : string) : bool :=
  match find (fun nd => String.eqb (node_name nd) n) (nodes t) with
  | Some nd => node_isSwitch nd
  | None => false
  end.

(** The names of the switches, and of the hosts, of a topology. *)
Definition switches (t : Topo) : list string :=
  map node_name (filter (fun nd => node_isSwitch nd = true) (nodes t)).

Definition hosts (t : Topo) : list string :=
  map node_name (filter (fun nd => node_isSwitch nd = false) (nodes t)).

Module TopoOps.

(** Modelled from the spec: the base class [Topo] of the emulator library is
    imported by the source, not defined in it.  Section 3 of the
    specification gives what the builder relies on: a switch or host is
    created once under its name; a link joins a port on each of its two
    endpoints and carries a bandwidth attribute; a port is "an integer index
    scoped to its owning switch", never renumbered, handed out in creation
    order so that the links created first on a switch get ports 1, 2, ...
    (the source relies on the same at its flood-control loop, where a
    comment reads: the uplinks are added first so numbered from 1).  The
    specification does not say where the ports of a host start; they are
    counted from 0 here, and nothing below depends on it. *)
Definition Topo_init : Topo := {| nodes := []; links := [] |}.

(** Modelled from the spec: a node is created once under its name and the
    name is handed back. *)
Definition addNode (name : string) (sw : bool) (opts : list (string * string))
  : M Topo string :=
  modify (fun t => {| nodes := nodes t ++ [{| node_name := name;
                                              node_isSwitch := sw;
                                              node_opts := opts |}];
                      links := links t |}) ;;
  mret name.

(** Modelled from the spec: [addSwitch] and [addHost] create a node of the
    respective kind. *)
Definition addSwitch (name : string) (opts : list (string * string)) : M Topo string :=
  addNode name true opts.

Definition addHost (name : string) (opts : list (string * string)) : M Topo string :=
  addNode name false opts.

(** Modelled from the spec: the next free port of a node, the number of
    ports it has in use, counted from 1 on a switch. *)
Definition nextPort (t : Topo) (n : string) : Z :=
  Z.of_nat (length (ports_of n (links t))) + (if isSwitch t n then 1 else 0).

(** Modelled from the spec: a new link takes the next free port on each of
    its two endpoints. *)
Definition addLink (n1 n2 : string) (opts : list (string * Z)) : M Topo unit :=
  modify (fun t => {| nodes := nodes t;
                      links := links t ++ [{| node1 := n1; node2 := n2;
                                              port1 := nextPort t n1;
                                              port2 := nextPort t n2;
                                              link_opts := opts |}] |}).

End TopoOps.

(** [d[k]] on a dictionary with integer keys. *)
Definition getitem {S V} (d : gmap Z V) (k : Z) : M S V :=
  match d !! k with
  | Some v => mret v
  | None => raise (KeyError (Fmt.str k))
  end.

(* ===================================================================== *)
(** ** [class LeafAndSpine(Topo)] *)
(* ===================================================================== *)

Module LeafAndSpine.
Import Fmt TopoOps.

(** The first loop of [__init__]: it creates the spine switches and fills
    the local dictionary [spines]. *)
Fixpoint init_spines (ss : list Z) (spines : gmap Z string) : M Topo (gmap Z string) :=
  match ss with
  | [] => mret spines
  | s :: ss' =>
      sw ← addSwitch ("s" +:+ str (s + 1)) [("protocols", "OpenFlow13")];
      init_spines ss' (<[s := sw]> spines)
  end.

Definition init (spine leaf fanout : Z) : M Topo unit :=
  spines ← init_spines (range spine) ∅;
  let linkopts := [("bw", 10)] in
  for_ (range leaf) (fun ls =>
    leafSwitch ← addSwitch ("s" +:+ str (spine + ls + 1)) [("protocols", "OpenFlow13")];
    for_ (range spine) (fun s =>
      switch ← getitem spines s;
      addLink leafSwitch switch linkopts) ;;
    for_ (range fanout) (fun f =>
      host ← addHost ("h" +:+ str (ls * fanout + f + 1))
                [("ip", "10.0." +:+ str ls +:+ "." +:+ str (f + 1) +:+ "/16")];
      addLink host leafSwitch linkopts)).

(** [LeafAndSpine(spine=..., leaf=..., fanout=...)]: the object after
    [__init__] has run on a fresh [Topo], or the exception it raised. *)
Definition new (spine leaf fanout : Z) : result Topo :=
  match init spine leaf fanout Topo_init with
  | Ok (_, t) => Ok t
  | Raise e => Raise e
  end.

End LeafAndSpine.

(* ===================================================================== *)
(** ** The addressing scheme, as the source spells it *)
(* ===================================================================== *)

Module Addr.
Import Fmt.

(** ['s%s' % (s+1)], ['s%s' % (spine+ls+1)], ['h%s' % (ls*fanout+f+1)]. *)
Definition spine_name (s : Z) : string := "s" +:+ str (s + 1).
Definition leaf_name (spine ls : Z) : string := "s" +:+ str (spine + ls + 1).
Definition host_name (fanout ls f : Z) : string := "h" +:+ str (ls * fanout + f + 1).

(** ['10.0.%s.%s/16' % (ls, f+1)]. *)
Definition host_ip (ls f : Z) : string :=
  "10.0." +:+ str ls +:+ "." +:+ str (f + 1) +:+ "/16".

(** ['00:04:00:00:{:02x}:{:02x}'.format(ls, f+1)]. *)
Definition host_mac (ls f : Z) : string :=
  "00:04:00:00:" +:+ format_02x ls +:+ ":" +:+ format_02x (f + 1).

End Addr.

(* ===================================================================== *)
(** ** The running network ([mininet.net.Mininet]) and the command log *)
(* ===================================================================== *)

(** Modelled from the spec: a host or switch object of the running network
    (section 3: name, datapath identifier, assigned IP and MAC address).
    [dpid] is meaningful for switches only. *)
Record Node : Type := {
  name : string;
  dpid : string;
  IP : string;
  MAC : string
}.

(** Modelled from the spec: a realized link (section 4.4: both endpoints'
    names and port names): the two nodes it joins and the interface name at
    each end. *)
Record NetLink : Type := {
  lnode1 : string;
  lintf1 : string;
  lnode2 : string;
  lintf2 : string
}.

(** Modelled from the spec: the network object, [net.hosts],
    [net.switches] and the links between them. *)
Record Net : Type := {
  net_hosts : list Node;
  net_switches : list Node;
  net_links : list NetLink
}.

(** What the synthesizers act on: the network object and the log of the
    argument vectors passed to [subprocess.call], oldest first. *)
Record World : Type := {
  net : Net;
  calls : list (list string)
}.

Module NetOps.

(** Whether the node is the one named [n]. *)
Definition has_name (n : string) (nd : Node) : bool := String.eqb (name nd) n.

(** Modelled from the spec: the network object is the emulator library's.
    Section 3 of the specification names what the program uses of it: hosts
    and switches are looked up by their unique name, a host carries an
    "assigned MAC address" that is set "at configuration time", and a link
    "connects two ports on two switches, or a port on a switch to a host".
    [get] fails with [KeyError] on an unknown name, as a dictionary lookup
    does; [setMAC] overwrites the MAC of the named node and nothing else;
    [connectionsTo a b] lists, for every link joining [a] and [b], the
    interface on [a]'s side paired with the interface on [b]'s side. *)
Definition lookup_node (n : string) (nt : Net) : option Node :=
  find (has_name n) (net_hosts nt ++ net_switches nt).

(** Modelled from the spec: [net.get(n)], the node named [n], by reference
    (its name); [KeyError] when there is none. *)
Definition get (n : string) : M World string :=
  fun w => match lookup_node n (net w) with
           | Some nd => Ok (name nd, w)
           | None => Raise (KeyError n)
           end.

(** Modelled from the spec: the node with its MAC replaced, every other
    field kept. *)
Definition with_MAC (mac : string) (nd : Node) : Node :=
  {| name := name nd; dpid := dpid nd; IP := IP nd; MAC := mac |}.

(** Modelled from the spec: the node objects after the node named [n] has
    been given the MAC [mac]. *)
Definition set_mac_in (n mac : string) (nds : list Node) : list Node :=
  map (fun nd => if has_name n nd then with_MAC mac nd else nd) nds.

(** Modelled from the spec: the network after the node named [n] has been
    given the MAC [mac]; the object is the same one in [net.hosts] and in
    what [net.get] returns. *)
Definition set_mac (n mac : string) (nt : Net) : Net :=
  {| net_hosts := set_mac_in n mac (net_hosts nt);
     net_switches := set_mac_in n mac (net_switches nt);
     net_links := net_links nt |}.

(** Modelled from the spec: [node.setMAC(mac)] on the node named [n]. *)
Definition setMAC (n mac : string) : M World unit :=
  modify (fun w => {| net := set_mac n mac (net w); calls := calls w |}).

(** Modelled from the spec: [a.connectionsTo(b)], one pair of interfaces
    ([a]'s side first) for every link that joins [a] and [b]. *)
Definition connectionsTo (nt : Net) (a b : string) : list (string * string) :=
  flat_map (fun l =>
      if String.eqb (lnode1 l) a && String.eqb (lnode2 l) b
      then [(lintf1 l, lintf2 l)]
      else if String.eqb (lnode1 l) b && String.eqb (lnode2 l) a
      then [(lintf2 l, lintf1 l)]
      else []) (net_links nt).

End NetOps.

(** [subprocess.call(argv)]: the command is run; its exit status is returned
    to the caller, which the source discards at every call site. *)
Definition call (argv : list string) : M World unit :=
  modify (fun w => {| net := net w; calls := calls w ++ [argv] |}).

(* ===================================================================== *)
(** ** [configMulticast] *)
(* ===================================================================== *)

Definition flood_flow : string :=
  "dl_dst=01:00:00:00:00:00/01:00:00:00:00:00 priority=400 actions=flood".

Definition configMulticast (spine leaf fanout : Z) : M World unit :=
  for_ (range leaf) (fun ls =>
    let switch := "s" +:+ Fmt.str (spine + ls + 1) in
    for_ (range2 2 (spine + 1)) (fun p =>
      call ["ovs-ofctl"; "mod-port"; switch; Fmt.str p; "noflood"]) ;;
    call ["ovs-ofctl"; "add-flow"; switch; flood_flow]) ;;
  for_ (range spine) (fun s =>
    let switch := "s" +:+ Fmt.str (s + 1) in
    call ["ovs-ofctl"; "add-flow"; switch; flood_flow]).

(* ===================================================================== *)
(** ** [configUnicast] *)
(* ===================================================================== *)

(** The member list of the multipath rule: ['1'], extended by [',' + str(x)]
    for [x] in [range(2, spine+1)] when [spine > 1]. *)
Definition slaves (spine : Z) : string :=
  if (1 <? spine)%Z
  then fold_left (fun acc x => acc +:+ "," +:+ Fmt.str x) (range2 2 (spine + 1)) "1"
  else "1".

Definition configUnicast (spine leaf fanout : Z) : M World unit :=
  for_ (range leaf) (fun ls =>
    let lsname := "s" +:+ Fmt.str (spine + ls + 1) in
    for_ (range fanout) (fun f =>
      let mac := "00:04:00:00:" +:+ Fmt.format_02x ls +:+ ":" +:+ Fmt.format_02x (f + 1) in
      host ← NetOps.get ("h" +:+ Fmt.str (ls * fanout + f + 1));
      NetOps.setMAC host mac ;;
      call ["ovs-ofctl"; "add-flow"; lsname;
            "dl_dst=" +:+ mac +:+ " priority=500 actions=output:" +:+ Fmt.str (f + 1 + spine)] ;;
      call ["ovs-ofctl"; "add-flow"; lsname;
            "priority=300 actions=bundle(symmetric_l4," +:+ Fmt.str (ls + 1)
              +:+ ",hrw,ofport,slaves:" +:+ slaves spine] ;;
      for_ (range spine) (fun s =>
        let sname := "s" +:+ Fmt.str (s + 1) in
        call ["ovs-ofctl"; "add-flow"; sname;
              "dl_dst=" +:+ mac +:+ " priority=500 actions=output:" +:+ Fmt.str (ls + 1)]))).

(* ===================================================================== *)
(** ** [dumpTopology] *)
(* ===================================================================== *)

(** The snapshot [topoData]: [{'nodes': {...}, 'links': {...}}]. *)
Record PortRec : Type := {
  port_name : string;
  port_ifindex : string
}.

Record NodeRec : Type := {
  rec_name : string;
  rec_dpid : string;
  rec_ports : gmap string PortRec;
  rec_agent : string;
  rec_tag : option string
}.

Record LinkRec : Type := {
  rec_node1 : string;
  rec_port1 : string;
  rec_ifindex1 : string;
  rec_node2 : string;
  rec_port2 : string;
  rec_ifindex2 : string
}.

Record TopoData : Type := {
  td_nodes : gmap string NodeRec;
  td_links : gmap string LinkRec
}.

Module Dump.

Definition is_digit (c : ascii) : bool :=
  ((48 <=? nat_of_ascii c) && (nat_of_ascii c <=? 57))%nat.

(** The longest prefix of digits, and what follows it. *)
Fixpoint span_digits (s : string) : string * string :=
  match s with
  | EmptyString => (EmptyString, EmptyString)
  | String c s' =>
      if is_digit c
      then let '(ds, r) := span_digits s' in (String c ds, r)
      else (EmptyString, s)
  end.

(** [re.match] of [child] against the source's pattern: at the start of the
    text the letter [s] and one or more digits [0-9] (group 1), then a dash,
    then the rest of the line (group 2, unused).  [None] when there is no
    match, otherwise [group(1)]. *)
Definition match_switch_intf (child : string) : option string :=
  match child with
  | String "s" rest =>
      match span_digits rest with
      | (String d ds, String "-" _) => Some (String "s" (String d ds))
      | _ => None
      end
  | _ => None
  end.

(** [text.split('\n', 1)[0]]. *)
Fixpoint first_line (text : string) : string :=
  match text with
  | EmptyString => EmptyString
  | String c rest => if Ascii.eqb c "010" then EmptyString else String c (first_line rest)
  end.

(** [topoData['nodes'][k]]. *)
Definition node_rec (k : string) : M TopoData NodeRec :=
  fun td => match td_nodes td !! k with
            | Some r => Ok (r, td)
            | None => Raise (KeyError k)
            end.

(** [topoData['nodes'][k] = r]; also the write-back of an inner dictionary of
    the record that was updated in place. *)
Definition set_node_rec (k : string) (r : NodeRec) : M TopoData unit :=
  modify (fun td => {| td_nodes := <[k := r]> (td_nodes td); td_links := td_links td |}).

Definition set_link_rec (k : string) (r : LinkRec) : M TopoData unit :=
  modify (fun td => {| td_nodes := td_nodes td; td_links := <[k := r]> (td_links td) |}).

(** [topoData['nodes'][sw]['ports'][child] = {'name': child, 'ifindex': ifindex}]. *)
Definition set_port (sw child ifindex : string) : M TopoData unit :=
  r ← node_rec sw;
  set_node_rec sw {| rec_name := rec_name r; rec_dpid := rec_dpid r;
                     rec_ports := <[child := {| port_name := child; port_ifindex := ifindex |}]> (rec_ports r);
                     rec_agent := rec_agent r; rec_tag := rec_tag r |}.

(** [topoData['nodes'][sw]['ports'][intf]['ifindex']]. *)
Definition ifindex_of (sw intf : string) : M TopoData string :=
  r ← node_rec sw;
  match rec_ports r !! intf with
  | Some p => mret (port_ifindex p)
  | None => raise (KeyError intf)
  end.

(** [topoData['nodes'][sw]['tag'] = tag]. *)
Definition set_tag (sw tag : string) : M TopoData unit :=
  r ← node_rec sw;
  set_node_rec sw {| rec_name := rec_name r; rec_dpid := rec_dpid r;
                     rec_ports := rec_ports r;
                     rec_agent := rec_agent r; rec_tag := Some tag |}.

(** [open(path).read()] on a file whose content is [file], or that cannot be
    opened when [file] is [None]. *)
Definition read_file {S} (path : string) (file : option string) : M S string :=
  match file with
  | Some text => mret text
  | None => raise (IOError path)
  end.

(** The list with the loop counters [i] and [j] the source keeps by hand. *)
Definition enumerate {A} (l : list A) : list (nat * A) :=
  combine (seq 0 (length l)) l.

(** The four loops of [dumpTopology] on the dictionary [topoData], in the
    order of the source.  First loop: one record per switch. *)
Definition init_nodes (nt : Net) (agent : string) : M TopoData unit :=
  for_ (net_switches nt) (fun s =>
    set_node_rec (name s) {| rec_name := name s; rec_dpid := dpid s;
                             rec_ports := ∅; rec_agent := agent; rec_tag := None |}).

(** Second loop.  [sysfs] is the directory [/sys/devices/virtual/net/]: the
    children as [os.listdir] returns them, each with the content of its
    [ifindex] file. *)
Definition scan_ports (sysfs : list (string * option string)) : M TopoData unit :=
  let path := "/sys/devices/virtual/net/" in
  for_ sysfs (fun entry =>
    let child := entry.1 in
    match match_switch_intf child with
    | None => mret tt
    | Some group1 =>
        text ← read_file (path +:+ child +:+ "/ifindex") entry.2;
        let ifindex := first_line text in
        set_port group1 child ifindex
    end).

(** Third loop: the links between every pair of switches [s1], [s2] with
    [s2] later than [s1] in [net.switches]. *)
Definition scan_links (nt : Net) : M TopoData unit :=
  for_ (enumerate (net_switches nt)) (fun is1 =>
    let i := is1.1 in let s1 := is1.2 in
    for_ (enumerate (net_switches nt)) (fun js2 =>
      let j := js2.1 in let s2 := js2.2 in
      if (i <? j)%nat
      then
        let intfs := NetOps.connectionsTo nt (name s1) (name s2) in
        for_ intfs (fun intf =>
          s1ifIdx ← ifindex_of (name s1) intf.1;
          s2ifIdx ← ifindex_of (name s2) intf.2;
          let linkName := name s1 +:+ "-" +:+ name s2 in
          set_link_rec linkName
            {| rec_node1 := name s1; rec_port1 := intf.1; rec_ifindex1 := s1ifIdx;
               rec_node2 := name s2; rec_port2 := intf.2; rec_ifindex2 := s2ifIdx |})
      else mret tt)).

(** Fourth loop: the edge tag. *)
Definition tag_edges (nt : Net) : M TopoData unit :=
  for_ (net_hosts nt) (fun h =>
    for_ (net_switches nt) (fun s =>
      let intfs := NetOps.connectionsTo nt (name h) (name s) in
      match intfs with
      | [] => mret tt
      | _ :: _ => set_tag (name s) "edge"
      end)).

Definition fill (nt : Net) (sysfs : list (string * option string)) (agent : string)
  : M TopoData unit :=
  init_nodes nt agent ;;
  scan_ports sysfs ;;
  scan_links nt ;;
  tag_edges nt.

(** [dumpTopology(net, agent, topofile)]: [Ok td] when the function reaches
    the end and has written the serialization of [td] to [topofile];
    [Raise e] when it stopped with the exception [e], nothing written. *)
Definition dumpTopology (nt : Net) (sysfs : list (string * option string)) (agent : string)
  : result TopoData :=
  match fill nt sysfs agent {| td_nodes := ∅; td_links := ∅ |} with
  | Ok (_, td) => Ok td
  | Raise e => Raise e
  end.

(** Properties of the dictionary that the loops establish and keep. *)

(** Every name of [names] has a node record. *)
Definition covers (names : list string) (td : TopoData) : Prop :=
  ∀ k, k ∈ names → is_Some (td_nodes td !! k).

(** No record is tagged, and (with [fresh]) no record has a port yet. *)
Definition untagged (td : TopoData) : Prop :=
  ∀ k r, td_nodes td !! k = Some r → rec_tag r = None.

Definition portless (td : TopoData) : Prop :=
  ∀ k r, td_nodes td !! k = Some r → rec_ports r = ∅.

(** Every recorded port of a node was listed in the directory under a name
    whose prefix is that node. *)
Definition ports_listed (sysfs : list (string * option string)) (td : TopoData) : Prop :=
  ∀ k r p, td_nodes td !! k = Some r → is_Some (rec_ports r !! p) →
    ∃ e, e ∈ sysfs ∧ e.1 = p ∧ match_switch_intf p = Some k.

(** What holds of the dictionary once the directory has been scanned. *)
Definition scanned (names : list string) (sysfs : list (string * option string))
    (td : TopoData) : Prop :=
  covers names td ∧ untagged td ∧ ports_listed sysfs td.

(** The records tagged edge are those of the switches that occur, together
    with a host connected to them, among [pairs]. *)
Definition tagged_by (nt : Net) (pairs : list (Node * Node)) (td : TopoData) : Prop :=
  ∀ k r, td_nodes td !! k = Some r →
    (rec_tag r = None ∨ rec_tag r = Some "edge")
    ∧ (rec_tag r = Some "edge"
       ↔ ∃ pr, pr ∈ pairs ∧ name pr.2 = k ∧ NetOps.connectionsTo nt (name pr.1) k ≠ []).

(** The interface [intf] was not discovered for switch [sw]: no child of the
    directory has that name with the switch as its prefix. *)
Definition undiscovered (sysfs : list (string * option string)) (sw intf : string) : Prop :=
  ∀ e, e ∈ sysfs → e.1 = intf → match_switch_intf intf ≠ Some sw.

End Dump.

(** A deployed one-spine, one-leaf, one-host fabric, for running the
    synthesizers and the exporter on. *)
Definition small_net : Net :=
  {| net_hosts := [ {| name := "h1"; dpid := ""; IP := "10.0.0.1"; MAC := "7a:31:9c:00:5e:01" |} ];
     net_switches := [ {| name := "s1"; dpid := "0000000000000001"; IP := ""; MAC := "" |};
                       {| name := "s2"; dpid := "0000000000000002"; IP := ""; MAC := "" |} ];
     net_links := [ {| lnode1 := "s2"; lintf1 := "s2-eth1"; lnode2 := "s1"; lintf2 := "s1-eth1" |};
                    {| lnode1 := "h1"; lintf1 := "h1-eth0"; lnode2 := "s2"; lintf2 := "s2-eth2" |} ] |}.

Definition small_sysfs : list (string * option string) :=
  [ ("lo", None); ("s1", Some "4"); ("s1-eth1", Some "7
"); ("s2", Some "5"); ("s2-eth1", Some "8
"); ("s2-eth2", Some "10
") ].

(* ===================================================================== *)
(** ** The fabric in closed form *)
(* ===================================================================== *)

(** What the loops of [LeafAndSpine.init] leave behind, written out as
    lists: used to state and prove what the builder returns. *)
Module Fabric.
Import Addr.

Section Shape.
Variables spine fanout : Z.

Definition spine_node (s : Z) : NodeInfo :=
  {| node_name := spine_name s; node_isSwitch := true;
     node_opts := [("protocols", "OpenFlow13")] |}.

Definition leaf_node (ls : Z) : NodeInfo :=
  {| node_name := leaf_name spine ls; node_isSwitch := true;
     node_opts := [("protocols", "OpenFlow13")] |}.

Definition host_node (ls f : Z) : NodeInfo :=
  {| node_name := host_name fanout ls f; node_isSwitch := false;
     node_opts := [("ip", host_ip ls f)] |}.

Definition uplink (ls s : Z) : LinkInfo :=
  {| node1 := leaf_name spine ls; node2 := spine_name s;
     port1 := s + 1; port2 := ls + 1; link_opts := [("bw", 10)] |}.

Definition hostlink (ls f : Z) : LinkInfo :=
  {| node1 := host_name fanout ls f; node2 := leaf_name spine ls;
     port1 := 0; port2 := Z.max 0 spine + f + 1; link_opts := [("bw", 10)] |}.

Definition leaf_nodes (ls : Z) : list NodeInfo :=
  leaf_node ls :: map (host_node ls) (range fanout).

Definition leaf_links (ls : Z) : list LinkInfo :=
  map (uplink ls) (range spine) ++ map (hostlink ls) (range fanout).

(** The topology once the first [k] leaves have been added. *)
Definition upto (k : Z) : Topo :=
  {| nodes := map spine_node (range spine) ++ flat_map leaf_nodes (range k);
     links := flat_map leaf_links (range k) |}.

(** The ports of leaf [ls] and of a spine, in allocation order. *)
Definition leaf_ports (ls : Z) : list (Z * string) :=
  map (fun s => (s + 1, spine_name s)) (range spine) ++
  map (fun f => (Z.max 0 spine + f + 1, host_name fanout ls f)) (range fanout).

Definition spine_ports (k : Z) : list (Z * string) :=
  map (fun ls => (ls + 1, leaf_name spine ls)) (range k).

(** The topology while leaf [k] is being added: its switch, its first [s]
    uplinks and its first [f] hosts are in place. *)
Definition mid (k s f : Z) : Topo :=
  {| nodes := nodes (upto k) ++ [leaf_node k] ++ map (host_node k) (range f);
     links := links (upto k) ++ map (uplink k) (range s) ++ map (hostlink k) (range f) |}.

(** A node is a switch exactly when its name starts with the letter s. *)
Definition wellnamed (nd : NodeInfo) : Prop :=
  node_isSwitch nd = Fmt.startswith "s" (node_name nd).

End Shape.

Definition fabric (spine leaf fanout : Z) : Topo := upto spine fanout leaf.

End Fabric.

(* ===================================================================== *)
(** ** The commands in closed form *)
(* ===================================================================== *)

(** The argument vectors the synthesizers hand to [call], written out as
    lists: used to state and prove what the synthesizers emit. *)
Module Rules.
Import Fmt Addr.

Definition noflood_cmd (sw : string) (p : Z) : list string :=
  ["ovs-ofctl"; "mod-port"; sw; str p; "noflood"].

Definition flood_cmd (sw : string) : list string :=
  ["ovs-ofctl"; "add-flow"; sw; flood_flow].

Definition leaf_flood_calls (spine ls : Z) : list (list string) :=
  map (noflood_cmd (leaf_name spine ls)) (range2 2 (spine + 1)) ++
  [flood_cmd (leaf_name spine ls)].

Definition multicast_calls (spine leaf : Z) : list (list string) :=
  flat_map (leaf_flood_calls spine) (range leaf) ++
  map (fun s => flood_cmd (spine_name s)) (range spine).

Definition local_flow (spine ls f : Z) : string :=
  "dl_dst=" +:+ host_mac ls f +:+ " priority=500 actions=output:" +:+ str (f + 1 + spine).

Definition multipath_flow (spine ls : Z) : string :=
  "priority=300 actions=bundle(symmetric_l4," +:+ str (ls + 1)
    +:+ ",hrw,ofport,slaves:" +:+ slaves spine.

Definition spine_flow (ls f : Z) : string :=
  "dl_dst=" +:+ host_mac ls f +:+ " priority=500 actions=output:" +:+ str (ls + 1).

Definition local_rule (spine ls f : Z) : list string :=
  ["ovs-ofctl"; "add-flow"; leaf_name spine ls; local_flow spine ls f].

Definition multipath_rule (spine ls : Z) : list string :=
  ["ovs-ofctl"; "add-flow"; leaf_name spine ls; multipath_flow spine ls].

Definition spine_rule (ls f s : Z) : list string :=
  ["ovs-ofctl"; "add-flow"; spine_name s; spine_flow ls f].

Definition host_calls (spine ls f : Z) : list (list string) :=
  [local_rule spine ls f; multipath_rule spine ls] ++ map (spine_rule ls f) (range spine).

Definition unicast_calls (spine leaf fanout : Z) : list (list string) :=
  flat_map (fun ls => flat_map (host_calls spine ls) (range fanout)) (range leaf).

(** The MAC addresses [configUnicast] hands out, in the order it does. *)
Definition mac_table (leaf fanout : Z) : list (string * string) :=
  flat_map (fun ls => map (fun f => (host_name fanout ls f, host_mac ls f)) (range fanout))
           (range leaf).

Definition assign_macs (tbl : list (string * string)) (nt : Net) : Net :=
  fold_left (fun nt e => NetOps.set_mac e.1 e.2 nt) tbl nt.

(** Every host of the fabric is a node of the network. *)
Definition hosts_present (leaf fanout : Z) (nt : Net) : Prop :=
  ∀ ls f, 0 <= ls < leaf → 0 <= f < fanout →
    is_Some (NetOps.lookup_node (host_name fanout ls f) nt).

(** A node after the MAC addresses of a table have been handed out. *)
Definition retag (tbl : list (string * string)) (nd : Node) : Node :=
  fold_left (fun nd e => if NetOps.has_name e.1 nd then NetOps.with_MAC e.2 nd else nd) tbl nd.

(** Two states of one node that differ at most in the MAC address. *)
Definition same_but_MAC (nd nd' : Node) : Prop :=
  name nd' = name nd ∧ dpid nd' = dpid nd ∧ IP nd' = IP nd.

(** The commands of the log that address switch [sw] with sub-command
    [sub], reduced to what follows the switch name. *)
Definition sent_to (sub sw : string) (log : list (list string)) : list (list string) :=
  flat_map (fun argv =>
    match argv with
    | prog :: sub' :: sw' :: rest =>
        if String.eqb prog "ovs-ofctl" && String.eqb sub' sub && String.eqb sw' sw
        then [rest] else []
    | _ => []
    end) log.

(** The flows added on [sw] whose text starts with [prefix]. *)
Definition flows_with (prefix sw : string) (log : list (list string)) : list (list string) :=
  List.filter (fun rest => match rest with
                           | [flow] => startswith prefix flow
                           | _ => false
                           end) (sent_to "add-flow" sw log).

End Rules.

(** The directory of the one-host fabric when the interface [s2-eth1] is
    missing from it. *)
Definition small_sysfs_incomplete : list (string * option string) :=
  [ ("lo", None); ("s1", Some "4"); ("s1-eth1", Some "7
"); ("s2", Some "5"); ("s2-eth2", Some "10
") ].

(** The deployed fabric of the scenario spine = 2, leaf = 2, fanout = 2. *)
Definition scenario_net : Net :=
  {| net_hosts :=
       [ {| name := "h1"; dpid := ""; IP := "10.0.0.1"; MAC := "7a:31:9c:00:5e:01" |};
         {| name := "h2"; dpid := ""; IP := "10.0.0.2"; MAC := "7a:31:9c:00:5e:02" |};
         {| name := "h3"; dpid := ""; IP := "10.0.1.1"; MAC := "7a:31:9c:00:5e:03" |};
         {| name := "h4"; dpid := ""; IP := "10.0.1.2"; MAC := "7a:31:9c:00:5e:04" |} ];
     net_switches :=
       [ {| name := "s1"; dpid := "0000000000000001"; IP := ""; MAC := "" |};
         {| name := "s2"; dpid := "0000000000000002"; IP := ""; MAC := "" |};
         {| name := "s3"; dpid := "0000000000000003"; IP := ""; MAC := "" |};
         {| name := "s4"; dpid := "0000000000000004"; IP := ""; MAC := "" |} ];
     net_links :=
       [ {| lnode1 := "s3"; lintf1 := "s3-eth1"; lnode2 := "s1"; lintf2 := "s1-eth1" |};
         {| lnode1 := "s3"; lintf1 := "s3-eth2"; lnode2 := "s2"; lintf2 := "s2-eth1" |};
         {| lnode1 := "h1"; lintf1 := "h1-eth0"; lnode2 := "s3"; lintf2 := "s3-eth3" |};
         {| lnode1 := "h2"; lintf1 := "h2-eth0"; lnode2 := "s3"; lintf2 := "s3-eth4" |};
         {| lnode1 := "s4"; lintf1 := "s4-eth1"; lnode2 := "s1"; lintf2 := "s1-eth2" |};
         {| lnode1 := "s4"; lintf1 := "s4-eth2"; lnode2 := "s2"; lintf2 := "s2-eth2" |};
         {| lnode1 := "h3"; lintf1 := "h3-eth0"; lnode2 := "s4"; lintf2 := "s4-eth3" |};
         {| lnode1 := "h4"; lintf1 := "h4-eth0"; lnode2 := "s4"; lintf2 := "s4-eth4" |} ] |}.

(* ===================================================================== *)
(** ** [configSFlow] *)
(* ===================================================================== *)

(** The command line [configSFlow] builds in its local variable [sflow] and
    hands to [quietRun]: the header, then one clause per spine switch
    ([for s in range(1, spine+1)]), then one per leaf switch
    ([for ls in range(1, leaf+1)]). *)
Definition configSFlow (spine leaf : Z) (collector ifname : string) : string :=
  let sflow := "ovs-vsctl -- --id=@sflow create sflow agent=" +:+ ifname
                 +:+ " target=" +:+ collector +:+ " sampling=10 polling=20 --" in
  let sflow := fold_left (fun sflow s =>
                 sflow +:+ (" -- set bridge s" +:+ Fmt.str s +:+ " sflow=@sflow"))
               (range2 1 (spine + 1)) sflow in
  let sflow := fold_left (fun sflow ls =>
                 sflow +:+ (" -- set bridge s" +:+ Fmt.str (spine + ls) +:+ " sflow=@sflow"))
               (range2 1 (leaf + 1)) sflow in
  sflow.

(* ===================================================================== *)
(** ** Reading the log by switch *)
(* ===================================================================== *)

Module Log.

(** The commands of the log whose switch argument is [sw], in the order they
    were issued. *)
Definition addressed_to (sw : string) (log : list (list string)) : list (list string) :=
  List.filter (fun argv => match argv with
                           | _ :: _ :: sw' :: _ => String.eqb sw' sw
                           | _ => false
                           end) log.

(** The nodes that can be looked up in [nt'] are those of [nt]. *)
Definition same_names (nt nt' : Net) : Prop :=
  ∀ n, is_Some (NetOps.lookup_node n nt') ↔ is_Some (NetOps.lookup_node n nt).

(** Host [(ls', f')] is handled before host [(ls, f)] by [configUnicast]. *)
Definition earlier (ls' f' ls f : Z) : Prop :=
  ls' < ls ∨ (ls' = ls ∧ f' < f).

End Log.

(** Every character is one of [0-9]. *)
Fixpoint all_digits (s : string) : bool :=
  match s with
  | EmptyString => true
  | String c s' => Dump.is_digit c && all_digits s'
  end.

(** Properties of the snapshot used to state what the exporter records. *)
Module Snapshot.
Import Dump.

(** The interface [intf] was discovered for switch [sw]: a child of the
    scanned directory has that name, with the switch as its prefix. *)
Definition discovered (sysfs : list (string * option string)) (sw intf : string) : Prop :=
  ∃ e, e ∈ sysfs ∧ e.1 = intf ∧ match_switch_intf intf = Some sw.

(** Every entry of [entries] that matches the pattern has its port recorded
    under the node of its prefix. *)
Definition ports_found (entries : list (string * option string)) (td : TopoData) : Prop :=
  ∀ e g, e ∈ entries → match_switch_intf e.1 = Some g →
    ∃ r, td_nodes td !! g = Some r ∧ is_Some (rec_ports r !! e.1).

(** Only names of [names] have a node record. *)
Definition within (names : list string) (td : TopoData) : Prop :=
  ∀ k, is_Some (td_nodes td !! k) → k ∈ names.

(** Every node record is filed under its own name, carries the agent and the
    dpid of a switch of that name, and every port in it is filed under its
    own name, belongs to the node by its prefix and carries the first line
    of the ifindex file of a listed child of that name. *)
Definition faithful (nt : Net) (sysfs : list (string * option string)) (agent : string)
    (td : TopoData) : Prop :=
  ∀ k r, td_nodes td !! k = Some r →
    rec_name r = k ∧ rec_agent r = agent
    ∧ (∃ s, s ∈ net_switches nt ∧ name s = k ∧ rec_dpid r = dpid s)
    ∧ ∀ p pr, rec_ports r !! p = Some pr →
        port_name pr = p ∧ match_switch_intf p = Some k
        ∧ ∃ text, (p, Some text) ∈ sysfs ∧ port_ifindex pr = first_line text.

(** Every link record is filed under the names of two switches, the first
    earlier than the second in [net.switches], joined by a dash, and
    describes a connection between them. *)
Definition links_sound (nt : Net) (td : TopoData) : Prop :=
  ∀ k r, td_links td !! k = Some r →
    ∃ (i j : nat) s1 s2,
      net_switches nt !! i = Some s1 ∧ net_switches nt !! j = Some s2 ∧ (i < j)%nat
    ∧ k = name s1 +:+ "-" +:+ name s2
    ∧ rec_node1 r = name s1 ∧ rec_node2 r = name s2
    ∧ (rec_port1 r, rec_port2 r) ∈ NetOps.connectionsTo nt (name s1) (name s2).

End Snapshot.

(* ===================================================================== *)
(** ** Hosts and their interfaces *)
(* ===================================================================== *)

(** Modelled from the spec: the interfaces of the node named [n], one for
    every end of a realized link at that node (section 3: a link connects
    two ports on two switches, or a port on a switch to a host), in the
    order of the links. *)
Definition interfaces_of (n : string) (nt : Net) : list string :=
  flat_map (fun l =>
      (if String.eqb (lnode1 l) n then [lintf1 l] else [])
      ++ (if String.eqb (lnode2 l) n then [lintf2 l] else [])) (net_links nt).

(** Whether the node named [n] has an interface.  [host.setMAC(mac)] of the
    emulator library sets the address on the default interface of the host
    and fails on a host that has none; [NetOps.setMAC] describes it for the
    hosts that have an interface. *)
Definition attached (n : string) (nt : Net) : bool :=
  match interfaces_of n nt with
  | [] => false
  | _ :: _ => true
  end.

(** Every host of the fabric that is a node of the network has an
    interface. *)
Definition hosts_attached (leaf fanout : Z) (nt : Net) : Prop :=
  ∀ ls f, 0 <= ls < leaf → 0 <= f < fanout →
    is_Some (NetOps.lookup_node (Addr.host_name fanout ls f) nt) →
    attached (Addr.host_name fanout ls f) nt = true.

(** The scenario's network without its second host and that host's link. *)
Definition scenario_net_without_h2 : Net :=
  {| net_hosts := List.filter (fun nd => negb (String.eqb (name nd) "h2"))
                              (net_hosts scenario_net);
     net_switches := net_switches scenario_net;
     net_links := List.filter (fun l => negb (String.eqb (lnode1 l) "h2"))
                              (net_links scenario_net) |}.

(* ===================================================================== *)
(** ** Interfaces the exporter looks up and does not find *)
(* ===================================================================== *)

(** The interface named [p] is at one end of a link between two switches of
    the network, the one earlier in [net.switches] taken first as the third
    loop of [dumpTopology] does, and it was not discovered for the switch at
    that end. *)
Definition missing_port (nt : Net) (sysfs : list (string * option string)) (p : string)
  : Prop :=
  ∃ (i j : nat) s1 s2 a b,
    net_switches nt !! i = Some s1 ∧ net_switches nt !! j = Some s2 ∧ (i < j)%nat
  ∧ (a, b) ∈ NetOps.connectionsTo nt (name s1) (name s2)
  ∧ ((p = a ∧ Dump.undiscovered sysfs (name s1) a)
     ∨ (p = b ∧ Dump.undiscovered sysfs (name s2) b)).

(* ===================================================================== *)
(** * Verification *)
(* ===================================================================== *)

(* ===================================================================== *)
(** ** The definitions at work *)
(* ===================================================================== *)

Example str_values :
  Fmt.str 0 = "0" ∧ Fmt.str 12 = "12" ∧ Fmt.str (-3) = "-3".
Proof. by repeat split. Qed.

Example format_02x_values :
  Fmt.format_02x 0 = "00" ∧ Fmt.format_02x 10 = "0a" ∧ Fmt.format_02x 254 = "fe"
  ∧ Fmt.format_02x 255 = "ff" ∧ Fmt.format_02x 256 = "100".
Proof. by repeat split. Qed.

Example range_values :
  range 3 = [0; 1; 2] ∧ range 0 = [] ∧ range (-2) = []
  ∧ range2 2 4 = [2; 3] ∧ range2 2 2 = [].
Proof. by repeat split. Qed.

Example slaves_values :
  slaves 1 = "1" ∧ slaves 2 = "1,2" ∧ slaves 4 = "1,2,3,4" ∧ slaves 0 = "1".
Proof. by repeat split. Qed.

Example match_switch_intf_values :
  Dump.match_switch_intf "s1-eth1" = Some "s1"
  ∧ Dump.match_switch_intf "s12-eth3" = Some "s12"
  ∧ Dump.match_switch_intf "s1-" = Some "s1"
  ∧ Dump.match_switch_intf "s1" = None
  ∧ Dump.match_switch_intf "s-eth1" = None
  ∧ Dump.match_switch_intf "s1x-eth1" = None
  ∧ Dump.match_switch_intf "lo" = None
  ∧ Dump.match_switch_intf "h1-eth0" = None.
Proof. by repeat split. Qed.

Example scenario_hosts :
  ∃ t, LeafAndSpine.new 2 2 2 = Ok t
  ∧ switches t = ["s1"; "s2"; "s3"; "s4"]
  ∧ hosts t = ["h1"; "h2"; "h3"; "h4"]
  ∧ ports_of "s3" (links t) = [(1, "s1"); (2, "s2"); (3, "h1"); (4, "h2")]
  ∧ ports_of "s1" (links t) = [(1, "s3"); (2, "s4")].
Proof. eexists. split; [vm_compute; reflexivity|]. vm_compute. by repeat split. Qed.

Example scenario_leaf_log :
  ∃ w', configUnicast 2 2 2 {| net := scenario_net; calls := [] |} = Ok (tt, w')
  ∧ Rules.sent_to "add-flow" "s3" (calls w')
    = [ ["dl_dst=00:04:00:00:00:01 priority=500 actions=output:3"];
        ["priority=300 actions=bundle(symmetric_l4,1,hrw,ofport,slaves:1,2"];
        ["dl_dst=00:04:00:00:00:02 priority=500 actions=output:4"];
        ["priority=300 actions=bundle(symmetric_l4,1,hrw,ofport,slaves:1,2"] ].
Proof. eexists. split; [vm_compute; reflexivity|]. vm_compute. reflexivity. Qed.

(* ===================================================================== *)
(** ** Facts about formatting *)
(* ===================================================================== *)

Section FmtFacts.
Import Fmt.

Lemma str_inj (a b : Z) : str a = str b → a = b.
Proof.
  unfold str. intros E.
  apply DecimalZ.to_int_inj.
  pose proof (DecimalString.NilEmpty.isi (Z.to_int a)) as Ha.
  pose proof (DecimalString.NilEmpty.isi (Z.to_int b)) as Hb.
  rewrite E in Ha. congruence.
Qed.

Lemma hex_inj (a b : Z) : hex a = hex b → a = b.
Proof.
  unfold hex. intros E.
  apply HexadecimalZ.to_int_inj.
  pose proof (HexadecimalString.NilEmpty.isi (Z.to_hex_int a)) as Ha.
  pose proof (HexadecimalString.NilEmpty.isi (Z.to_hex_int b)) as Hb.
  rewrite E in Ha. congruence.
Qed.

(** Characters that occur in no numeral produced by [str] or [format_02x]. *)
Definition separator (c : ascii) : Prop :=
  lacks c "-0123456789abcdef" = true.

Lemma lacks_app c s t : lacks c (s +:+ t) = lacks c s && lacks c t.
Proof. induction s as [|a s IH]; simpl; [done|]. by rewrite IH, andb_assoc. Qed.

Lemma lacks_dec_uint c d :
  separator c → lacks c (DecimalString.NilEmpty.string_of_uint d) = true.
Proof.
  unfold separator. simpl. intros H.
  repeat (apply andb_prop in H; destruct H as [? H]).
  induction d; simpl; rewrite ?IHd, ?andb_true_r; done.
Qed.

Lemma lacks_hex_uint c d :
  separator c → lacks c (HexadecimalString.NilEmpty.string_of_uint d) = true.
Proof.
  unfold separator. simpl. intros H.
  repeat (apply andb_prop in H; destruct H as [? H]).
  induction d; simpl; rewrite ?IHd, ?andb_true_r; done.
Qed.

Lemma lacks_str c n : separator c → lacks c (str n) = true.
Proof.
  intros H. unfold str.
  destruct (Z.to_int n) as [d|d]; simpl.
  - by apply lacks_dec_uint.
  - rewrite lacks_dec_uint by done.
    unfold separator in H. simpl in H. apply andb_prop in H as [-> _]. done.
Qed.

Lemma lacks_hex c n : separator c → lacks c (hex n) = true.
Proof.
  intros H. unfold hex.
  destruct (Z.to_hex_int n) as [d|d]; simpl.
  - by apply lacks_hex_uint.
  - rewrite lacks_hex_uint by done.
    unfold separator in H. simpl in H. apply andb_prop in H as [-> _]. done.
Qed.

Lemma lacks_format_02x c n : separator c → lacks c (format_02x n) = true.
Proof.
  intros H. unfold format_02x.
  destruct (_ <? _)%nat; [|by apply lacks_hex].
  rewrite lacks_app, lacks_hex by done.
  unfold separator in H. simpl in H |- *.
  apply andb_prop in H as [_ H]. apply andb_prop in H as [-> _]. done.
Qed.

(** Two texts that agree and are cut at the first occurrence of [c] agree on
    both sides of the cut. *)
Lemma cut_at_separator c s1 s2 t1 t2 :
  lacks c s1 = true → lacks c s2 = true →
  s1 +:+ String c t1 = s2 +:+ String c t2 → s1 = s2 ∧ t1 = t2.
Proof.
  revert s2. induction s1 as [|a s1 IH]; intros [|b s2]; simpl; intros H1 H2 E.
  - by injection E.
  - injection E as -> _. by rewrite Ascii.eqb_refl in H2.
  - injection E as -> _. by rewrite Ascii.eqb_refl in H1.
  - injection E as -> E.
    apply andb_prop in H1 as [_ H1]. apply andb_prop in H2 as [_ H2].
    destruct (IH _ H1 H2 E) as [-> ->]. done.
Qed.

Lemma app_inv_tail_str (s1 s2 t : string) : s1 +:+ t = s2 +:+ t → s1 = s2.
Proof.
  intros E.
  assert (forall x y : string, String.length (x +:+ y) = (String.length x + String.length y)%nat) as L.
  { induction x; simpl; intros; [done|]. by rewrite IHx. }
  assert (String.length s1 = String.length s2) as Hlen.
  { apply (f_equal String.length) in E. rewrite !L in E. lia. }
  clear L. revert s2 E Hlen.
  induction s1 as [|a s1 IH]; intros [|b s2]; simpl; intros E Hlen; try done.
  injection E as -> E. f_equal. apply IH; [done|lia].
Qed.

(** The zero-filled form is the numeral of some digit sequence denoting the
    same number, so it can be read back. *)
Lemma format_02x_numeral n :
  ∃ d, format_02x n = HexadecimalString.NilEmpty.string_of_int d
       ∧ Z.of_hex_int d = n.
Proof.
  unfold format_02x, hex.
  destruct (_ <? _)%nat eqn:Hlen.
  - destruct n as [|p|p].
    + exists (Hexadecimal.Pos (Hexadecimal.D0 (Hexadecimal.D0 Hexadecimal.Nil))). done.
    + exists (Hexadecimal.Pos (Hexadecimal.D0 (Pos.to_hex_uint p))). split; [done|].
      pose proof (HexadecimalZ.of_to (Z.pos p)) as E. simpl in E.
      simpl. exact E.
    + exfalso. simpl in Hlen.
      pose proof (HexadecimalPos.Unsigned.to_uint_nonnil p) as Hn.
      destruct (Pos.to_hex_uint p); simpl in Hlen; done.
  - exists (Z.to_hex_int n). split; [done|]. apply HexadecimalZ.of_to.
Qed.

Lemma format_02x_inj (a b : Z) : format_02x a = format_02x b → a = b.
Proof.
  destruct (format_02x_numeral a) as (da & -> & <-).
  destruct (format_02x_numeral b) as (db & -> & <-).
  intros E.
  pose proof (HexadecimalString.NilEmpty.isi da) as Ha.
  pose proof (HexadecimalString.NilEmpty.isi db) as Hb.
  rewrite E in Ha. congruence.
Qed.

(** Within one octet the zero-filled form is exactly two characters. *)
Lemma format_02x_octet n : 0 <= n < 256 → String.length (format_02x n) = 2%nat.
Proof.
  intros H.
  assert (In n (range 256)) as Hin.
  { unfold range. apply in_map_iff. exists (Z.to_nat n). split; [lia|].
    apply in_seq. lia. }
  clear H. revert n Hin. apply List.Forall_forall.
  vm_compute. repeat constructor.
Qed.

Lemma range_spec n i : i ∈ range n ↔ 0 <= i < n.
Proof.
  unfold range. rewrite list_elem_of_In, in_map_iff. split.
  - intros (k & <- & Hk). apply in_seq in Hk. lia.
  - intros H. exists (Z.to_nat i). split; [lia|]. apply in_seq. lia.
Qed.

Lemma range2_spec a b i : i ∈ range2 a b ↔ a <= i < b.
Proof.
  unfold range2. rewrite list_elem_of_In, in_map_iff. split.
  - intros (k & <- & Hk). apply in_seq in Hk. lia.
  - intros H. exists (Z.to_nat (i - a)). split; [lia|]. apply in_seq. lia.
Qed.

Lemma range_succ n : 0 <= n → range (n + 1) = range n ++ [n].
Proof.
  intros H. unfold range.
  replace (Z.to_nat (n + 1)) with (S (Z.to_nat n)) by lia.
  rewrite seq_S, map_app. simpl. by rewrite Z2Nat.id.
Qed.

Lemma range_nonpos n : n <= 0 → range n = [].
Proof. intros H. unfold range. by replace (Z.to_nat n) with 0%nat by lia. Qed.

Lemma range_NoDup n : NoDup (range n).
Proof.
  unfold range. apply NoDup_fmap_2; [intros ???; lia|]. apply NoDup_seq.
Qed.

Lemma range_length n : Z.of_nat (length (range n)) = Z.max 0 n.
Proof. unfold range. rewrite length_map, length_seq. lia. Qed.

End FmtFacts.

(* ===================================================================== *)
(** ** Running loops *)
(* ===================================================================== *)

Section Loops.
Context {St : Type}.

Lemma bind_ok {A B} (m : M St A) (k : A → M St B) st a st' :
  m st = Ok (a, st') → (m ≫= k) st = k a st'.
Proof. intros E. unfold mbind, M_bind. by rewrite E. Qed.

Lemma for_app {X} (xs ys : list X) (body : X → M St unit) st st' :
  for_ xs body st = Ok (tt, st') →
  for_ (xs ++ ys) body st = for_ ys body st'.
Proof.
  revert st. induction xs as [|x xs IH]; simpl; intros st E.
  - by injection E as ->.
  - unfold mbind, M_bind in *. destruct (body x st) as [[[] st1]|]; [|done].
    by apply IH.
Qed.

(** Invariant rule for a loop over [range n]. *)
Lemma for_range_inv (I : Z → St → Prop) (n : Z) (body : Z → M St unit) st :
  I 0 st →
  (∀ i st1, 0 <= i < n → I i st1 → ∃ st2, body i st1 = Ok (tt, st2) ∧ I (i + 1) st2) →
  ∃ st', for_ (range n) body st = Ok (tt, st') ∧ I (Z.max 0 n) st'.
Proof.
  intros H0 Hstep.
  assert (∀ m : nat, Z.of_nat m <= Z.max 0 n →
            ∃ st', for_ (range (Z.of_nat m)) body st = Ok (tt, st') ∧ I (Z.of_nat m) st') as G.
  { induction m as [|m IH]; intros Hm.
    - exists st. by split.
    - destruct IH as (st1 & E1 & I1); [lia|].
      destruct (Hstep (Z.of_nat m) st1) as (st2 & E2 & I2); [lia|done|].
      exists st2. replace (Z.of_nat (S m)) with (Z.of_nat m + 1) by lia.
      split; [|done].
      rewrite range_succ by lia. rewrite (for_app _ _ _ _ _ E1). simpl.
      unfold mbind, M_bind. by rewrite E2. }
  destruct (G (Z.to_nat n)) as (st' & E & HI); [lia|].
  exists st'. replace (Z.of_nat (Z.to_nat n)) with (Z.max 0 n) in * by lia.
  split; [|done]. rewrite <- E. unfold range.
  by replace (Z.to_nat (Z.max 0 n)) with (Z.to_nat n) by lia.
Qed.

End Loops.

(* ===================================================================== *)
(** ** Names *)
(* ===================================================================== *)

Section Names.
Import Fmt Addr.

Lemma eqb_sw (a b : Z) : String.eqb ("s" +:+ str a) ("s" +:+ str b) = Z.eqb a b.
Proof.
  destruct (Z.eqb_spec a b) as [->|Hne]; [apply String.eqb_refl|].
  apply String.eqb_neq. intros E. injection E as E. by apply str_inj in E.
Qed.

Lemma eqb_h (a b : Z) : String.eqb ("h" +:+ str a) ("h" +:+ str b) = Z.eqb a b.
Proof.
  destruct (Z.eqb_spec a b) as [->|Hne]; [apply String.eqb_refl|].
  apply String.eqb_neq. intros E. injection E as E. by apply str_inj in E.
Qed.

Lemma eqb_sh (a b : Z) : String.eqb ("s" +:+ str a) ("h" +:+ str b) = false.
Proof. by apply String.eqb_neq. Qed.

Lemma eqb_hs (a b : Z) : String.eqb ("h" +:+ str a) ("s" +:+ str b) = false.
Proof. by apply String.eqb_neq. Qed.

Lemma host_index_inj fanout a f b g :
  0 <= f < fanout → 0 <= g < fanout →
  a * fanout + f = b * fanout + g → a = b ∧ f = g.
Proof. intros Hf Hg E. assert (a = b) by nia. subst. lia. Qed.

Lemma host_name_inj fanout a f b g :
  0 <= f < fanout → 0 <= g < fanout →
  host_name fanout a f = host_name fanout b g → a = b ∧ f = g.
Proof.
  intros Hf Hg E. injection E as E. apply str_inj in E.
  apply (host_index_inj fanout); [done|done|lia].
Qed.

End Names.

Create Rewrite HintDb names.
#[local] Hint Rewrite eqb_sw eqb_h eqb_sh eqb_hs : names.

Ltac names :=
  unfold Addr.spine_name, Addr.leaf_name, Addr.host_name in *;
  autorewrite with names in *.

(* ===================================================================== *)
(** ** Ports of a list of links *)
(* ===================================================================== *)

Section Ports.

Lemma flat_map_ext_in {A B} (f g : A → list B) (l : list A) :
  (∀ x, x ∈ l → f x = g x) → flat_map f l = flat_map g l.
Proof.
  induction l as [|x l IH]; intros H; simpl; [done|].
  rewrite (H x) by left. f_equal. apply IH. intros y Hy. apply H. by right.
Qed.

Lemma flat_map_single {A B} (g : A → B) (l : list A) :
  flat_map (fun x => [g x]) l = map g l.
Proof. induction l; simpl; congruence. Qed.

Lemma flat_map_nil {A B} (l : list A) :
  flat_map (fun _ => @nil B) l = [].
Proof. by induction l. Qed.

(** Only the index [a] contributes. *)
Lemma flat_map_hit {B} (g : Z → list B) (a n : Z) :
  flat_map (fun x => if x =? a then g x else []) (range n)
  = if (0 <=? a) && (a <? n) then g a else [].
Proof.
  assert (∀ m : nat,
    flat_map (fun x => if x =? a then g x else []) (range (Z.of_nat m))
    = if (0 <=? a) && (a <? Z.of_nat m) then g a else []) as G.
  { induction m as [|m IH].
    - change (range (Z.of_nat 0)) with (@nil Z). simpl flat_map.
      destruct (Z.leb_spec 0 a), (Z.ltb_spec a (Z.of_nat 0)); simpl; try done; lia.
    - replace (Z.of_nat (S m)) with (Z.of_nat m + 1) by lia.
      rewrite range_succ, flat_map_app, IH by lia.
      cbn [flat_map]. rewrite app_nil_r.
      destruct (Z.eqb_spec (Z.of_nat m) a) as [E|Hne];
        destruct (Z.leb_spec 0 a);
        destruct (Z.ltb_spec a (Z.of_nat m));
        destruct (Z.ltb_spec a (Z.of_nat m + 1));
        simpl; rewrite ?app_nil_r; try done; try lia; by subst. }
  destruct (Z.le_gt_cases n 0) as [Hn|Hn].
  - rewrite range_nonpos by done.
    destruct (Z.leb_spec 0 a), (Z.ltb_spec a n); simpl; try done; lia.
  - specialize (G (Z.to_nat n)). by rewrite Z2Nat.id in G by lia.
Qed.

Lemma ports_of_app n l1 l2 :
  ports_of n (l1 ++ l2) = ports_of n l1 ++ ports_of n l2.
Proof. unfold ports_of. apply flat_map_app. Qed.

Lemma ports_of_map {X} n (g : X → LinkInfo) (l : list X) :
  ports_of n (map g l) = flat_map (fun x => ports_of n [g x]) l.
Proof.
  unfold ports_of. induction l as [|x l IH]; simpl; [done|].
  by rewrite IH, app_nil_r.
Qed.

Lemma ports_of_flat_map {X} n (g : X → list LinkInfo) (l : list X) :
  ports_of n (flat_map g l) = flat_map (fun x => ports_of n (g x)) l.
Proof.
  induction l as [|x l IH]; simpl; [done|]. by rewrite ports_of_app, IH.
Qed.

End Ports.

Section FabricPorts.
Import Fmt Addr Fabric.
Variables spine fanout : Z.

Lemma ports_leaf_uplink a b s :
  0 <= a → 0 <= s < spine →
  ports_of (leaf_name spine a) [uplink spine b s]
  = if b =? a then [(s + 1, spine_name s)] else [].
Proof.
  intros Ha Hs. unfold ports_of, uplink. cbn [flat_map node1 node2 port1 port2]. names.
  rewrite app_nil_r.
  replace (s + 1 =? spine + a + 1) with false by lia.
  replace (spine + b + 1 =? spine + a + 1) with (b =? a) by lia.
  by destruct (b =? a).
Qed.

Lemma ports_leaf_hostlink a b f :
  ports_of (leaf_name spine a) [hostlink spine fanout b f]
  = if b =? a then [(Z.max 0 spine + f + 1, host_name fanout b f)] else [].
Proof.
  unfold ports_of, hostlink. cbn [flat_map node1 node2 port1 port2]. names.
  rewrite app_nil_r.
  replace (spine + b + 1 =? spine + a + 1) with (b =? a) by lia.
  by destruct (b =? a).
Qed.

Lemma ports_spine_uplink s' b s :
  0 <= b → 0 <= s' < spine →
  ports_of (spine_name s') [uplink spine b s]
  = if s =? s' then [(b + 1, leaf_name spine b)] else [].
Proof.
  intros Hb Hs. unfold ports_of, uplink. cbn [flat_map node1 node2 port1 port2]. names.
  rewrite app_nil_r.
  replace (spine + b + 1 =? s' + 1) with false by lia.
  replace (s + 1 =? s' + 1) with (s =? s') by lia.
  by destruct (s =? s').
Qed.

Lemma ports_spine_hostlink s' b f :
  0 <= b → 0 <= s' < spine →
  ports_of (spine_name s') [hostlink spine fanout b f] = [].
Proof.
  intros Hb Hs. unfold ports_of, hostlink. cbn [flat_map node1 node2 port1 port2]. names.
  rewrite app_nil_r.
  by replace (spine + b + 1 =? s' + 1) with false by lia.
Qed.

Lemma ports_host_uplink a f' b s :
  ports_of (host_name fanout a f') [uplink spine b s] = [].
Proof. unfold ports_of, uplink. cbn [flat_map node1 node2 port1 port2]. by names. Qed.

Lemma ports_host_hostlink a f' b f :
  ports_of (host_name fanout a f') [hostlink spine fanout b f]
  = if b * fanout + f =? a * fanout + f' then [(0, leaf_name spine b)] else [].
Proof.
  unfold ports_of, hostlink. cbn [flat_map node1 node2 port1 port2]. names.
  rewrite app_nil_r.
  replace (b * fanout + f + 1 =? a * fanout + f' + 1)
    with (b * fanout + f =? a * fanout + f') by lia.
  by destruct (_ =? _).
Qed.

(** The ports of leaf [a] among the links of leaf [b]. *)
Lemma ports_leaf_block a b :
  0 <= a →
  ports_of (leaf_name spine a) (leaf_links spine fanout b)
  = if b =? a then leaf_ports spine fanout b else [].
Proof.
  intros Ha. unfold leaf_links, leaf_ports.
  rewrite ports_of_app, !ports_of_map.
  rewrite (flat_map_ext_in _ (fun s => if b =? a then [(s + 1, spine_name s)] else [])
             (range spine)).
  2:{ intros s Hs. apply range_spec in Hs. by apply ports_leaf_uplink. }
  rewrite (flat_map_ext_in _
     (fun f => if b =? a then [(Z.max 0 spine + f + 1, host_name fanout b f)] else [])
     (range fanout)).
  2:{ intros f _. apply ports_leaf_hostlink. }
  destruct (b =? a).
  - by rewrite !flat_map_single.
  - by rewrite !flat_map_nil.
Qed.

Lemma ports_leaf_upto a k :
  0 <= a →
  ports_of (leaf_name spine a) (links (upto spine fanout k))
  = if a <? k then leaf_ports spine fanout a else [].
Proof.
  intros Ha. unfold upto. simpl. rewrite ports_of_flat_map.
  rewrite (flat_map_ext_in _
     (fun b => if b =? a then leaf_ports spine fanout b else [])).
  2:{ intros b _. by apply ports_leaf_block. }
  rewrite (flat_map_hit (leaf_ports spine fanout)).
  by destruct (Z.leb_spec 0 a); [|lia].
Qed.

Lemma ports_spine_block s' b :
  0 <= b → 0 <= s' < spine →
  ports_of (spine_name s') (leaf_links spine fanout b) = [(b + 1, leaf_name spine b)].
Proof.
  intros Hb Hs. unfold leaf_links.
  rewrite ports_of_app, !ports_of_map.
  rewrite (flat_map_ext_in _ (fun s => if s =? s' then [(b + 1, leaf_name spine b)] else [])
             (range spine)).
  2:{ intros s _. by apply ports_spine_uplink. }
  rewrite (flat_map_ext_in _ (fun _ => []) (range fanout)).
  2:{ intros f _. by apply ports_spine_hostlink. }
  rewrite flat_map_nil, app_nil_r.
  rewrite (flat_map_hit (fun _ => [(b + 1, leaf_name spine b)])).
  destruct (Z.leb_spec 0 s'), (Z.ltb_spec s' spine); simpl; try done; lia.
Qed.

Lemma ports_spine_upto s' k :
  0 <= s' < spine →
  ports_of (spine_name s') (links (upto spine fanout k)) = spine_ports spine k.
Proof.
  intros Hs. unfold upto, spine_ports. simpl. rewrite ports_of_flat_map.
  rewrite (flat_map_ext_in _ (fun b => [(b + 1, leaf_name spine b)])).
  2:{ intros b Hb. apply range_spec in Hb. apply ports_spine_block; lia. }
  apply flat_map_single.
Qed.

(** A host that has not been created yet has no port. *)
Lemma ports_host_block_other a f' b :
  0 <= f' < fanout → a ≠ b →
  ports_of (host_name fanout a f') (leaf_links spine fanout b) = [].
Proof.
  intros Hf Hab. unfold leaf_links.
  rewrite ports_of_app, !ports_of_map.
  rewrite (flat_map_ext_in _ (fun _ => []) (range spine)).
  2:{ intros s _. apply ports_host_uplink. }
  rewrite (flat_map_ext_in _ (fun _ => []) (range fanout)).
  2:{ intros f Hr. apply range_spec in Hr. rewrite ports_host_hostlink.
      destruct (Z.eqb_spec (b * fanout + f) (a * fanout + f')) as [E|]; [|done].
      apply host_index_inj in E as [-> _]; done. }
  by rewrite !flat_map_nil.
Qed.

Lemma ports_host_upto_fresh a f' k :
  0 <= f' < fanout → k <= a →
  ports_of (host_name fanout a f') (links (upto spine fanout k)) = [].
Proof.
  intros Hf Hk. unfold upto. simpl. rewrite ports_of_flat_map.
  rewrite (flat_map_ext_in _ (fun _ => [])); [apply flat_map_nil|].
  intros b Hb. apply range_spec in Hb. apply ports_host_block_other; [done|lia].
Qed.

End FabricPorts.

(* ===================================================================== *)
(** ** The builder computes the closed form *)
(* ===================================================================== *)

Section Build.
Import Fmt Addr Fabric TopoOps.
Variables spine fanout : Z.

Lemma range_max n : range (Z.max 0 n) = range n.
Proof. unfold range. by replace (Z.to_nat (Z.max 0 n)) with (Z.to_nat n) by lia. Qed.

Lemma upto_succ k : 0 <= k → upto spine fanout (k + 1) = mid spine fanout k spine fanout.
Proof.
  intros Hk. unfold Fabric.mid, Fabric.upto. cbn [nodes links].
  rewrite range_succ, !flat_map_app by done. cbn [flat_map].
  rewrite !app_nil_r. unfold leaf_nodes, leaf_links.
  f_equal; by rewrite <- ?app_assoc.
Qed.

Lemma mid_0 k : mid spine fanout k 0 0 = {| nodes := nodes (upto spine fanout k) ++ [leaf_node spine k]; links := links (upto spine fanout k) |}.
Proof. unfold Fabric.mid. change (range 0) with (@nil Z). simpl. by rewrite app_nil_r. Qed.

Lemma wellnamed_mid k s f nd : In nd (nodes (mid spine fanout k s f)) → wellnamed nd.
Proof.
  unfold Fabric.mid, Fabric.upto. cbn [nodes].
  rewrite !in_app_iff, in_flat_map, !in_map_iff.
  intros [[(x & <- & _)|(x & _ & Hx)]|[Hx|(x & <- & _)]].
  - reflexivity.
  - destruct Hx as [<-|Hx]; [reflexivity|].
    apply in_map_iff in Hx as (y & <- & _). reflexivity.
  - destruct Hx as [<-|[]]. reflexivity.
  - reflexivity.
Qed.

Lemma isSwitch_wellnamed t n :
  (∀ nd, In nd (nodes t) → wellnamed nd) →
  In n (map node_name (nodes t)) →
  isSwitch t n = Fmt.startswith "s" n.
Proof.
  unfold isSwitch. induction (nodes t) as [|nd l IH]; intros Hw Hin; [done|].
  cbn [find]. destruct (String.eqb_spec (node_name nd) n) as [<-|Hne].
  - apply Hw. by left.
  - apply IH; [intros; apply Hw; by right|].
    destruct Hin as [E|Hin]; [done|done].
Qed.

(** The spine loop. *)
Lemma init_spines_spec (m a : nat) (d : gmap Z string) (t : Topo) :
  ∃ d', LeafAndSpine.init_spines (map Z.of_nat (seq a m)) d t
        = Ok (d', {| nodes := nodes t ++ map spine_node (map Z.of_nat (seq a m));
                     links := links t |})
      ∧ (∀ s, Z.of_nat a <= s < Z.of_nat a + Z.of_nat m → d' !! s = Some (spine_name s))
      ∧ (∀ s, s < Z.of_nat a → d' !! s = d !! s).
Proof.
  revert a d t. induction m as [|m IH]; intros a d t.
  - exists d. simpl. rewrite app_nil_r. destruct t. split; [done|]. split; [lia|done].
  - cbn [seq map LeafAndSpine.init_spines].
    destruct (IH (S a) (<[Z.of_nat a := spine_name (Z.of_nat a)]> d)
                {| nodes := nodes t ++ [spine_node (Z.of_nat a)]; links := links t |})
      as (d' & E & Hin & Hout).
    exists d'. split; [|split].
    + cbn [nodes links] in E. rewrite <- app_assoc in E. exact E.
    + intros s Hs. destruct (decide (s = Z.of_nat a)) as [->|Hne].
      * rewrite Hout by lia. apply lookup_insert_eq.
      * apply Hin. lia.
    + intros s Hs. rewrite Hout by lia. apply lookup_insert_ne. lia.
Qed.

Lemma length_range n : length (range n) = Z.to_nat n.
Proof. unfold range. by rewrite length_map, length_seq. Qed.

(** Ports in use while leaf [k] is being added. *)
Lemma ports_leaf_mid k s f :
  0 <= k → s <= Z.max 0 spine →
  length (ports_of (leaf_name spine k) (links (mid spine fanout k s f))) = (Z.to_nat s + Z.to_nat f)%nat.
Proof.
  intros Hk Hs. unfold Fabric.mid. cbn [links].
  rewrite !ports_of_app, ports_leaf_upto by done.
  rewrite Z.ltb_irrefl, !ports_of_map, app_nil_l.
  rewrite (flat_map_ext_in _ (fun x => [(x + 1, spine_name x)]) (range s)).
  2:{ intros x Hx. apply range_spec in Hx.
      rewrite ports_leaf_uplink by lia. by rewrite Z.eqb_refl. }
  rewrite (flat_map_ext_in _
     (fun x => [(Z.max 0 spine + x + 1, host_name fanout k x)]) (range f)).
  2:{ intros x _. rewrite ports_leaf_hostlink. by rewrite Z.eqb_refl. }
  by rewrite !flat_map_single, length_app, !length_map, !length_range.
Qed.

Lemma ports_spine_mid k s :
  0 <= k → 0 <= s < spine →
  length (ports_of (spine_name s) (links (mid spine fanout k s 0))) = Z.to_nat k.
Proof.
  intros Hk Hs. unfold Fabric.mid. cbn [links].
  rewrite !ports_of_app, ports_spine_upto by done.
  change (range 0) with (@nil Z). cbn [map]. rewrite ports_of_map.
  rewrite (flat_map_ext_in _
     (fun x => if x =? s then [(k + 1, leaf_name spine k)] else []) (range s)).
  2:{ intros x _. by apply ports_spine_uplink. }
  rewrite (flat_map_hit (fun _ => [(k + 1, leaf_name spine k)])).
  rewrite Z.ltb_irrefl, andb_false_r. unfold spine_ports, ports_of. simpl.
  by rewrite !app_nil_r, length_map, length_range.
Qed.

Lemma ports_host_mid k s f :
  0 <= k → 0 <= f < fanout →
  ports_of (host_name fanout k f) (links (mid spine fanout k s f)) = [].
Proof.
  intros Hk Hf. unfold Fabric.mid. cbn [links].
  rewrite !ports_of_app, ports_host_upto_fresh by lia.
  rewrite !ports_of_map.
  rewrite (flat_map_ext_in _ (fun _ => []) (range s)).
  2:{ intros x _. apply ports_host_uplink. }
  rewrite (flat_map_ext_in _ (fun _ => []) (range f)).
  2:{ intros x Hx. apply range_spec in Hx. rewrite ports_host_hostlink.
      destruct (Z.eqb_spec (k * fanout + x) (k * fanout + f)); [lia|done]. }
  by rewrite !flat_map_nil.
Qed.

Lemma mid_max k s f :
  mid spine fanout k (Z.max 0 s) (Z.max 0 f) = mid spine fanout k s f.
Proof. unfold Fabric.mid. by rewrite !range_max. Qed.

Lemma upto_max k : upto spine fanout (Z.max 0 k) = upto spine fanout k.
Proof. unfold Fabric.upto. by rewrite !range_max. Qed.

Lemma leaf_in_mid k s f :
  In (leaf_name spine k) (map node_name (nodes (mid spine fanout k s f))).
Proof.
  unfold Fabric.mid. cbn [nodes]. rewrite !map_app, !in_app_iff.
  right. left. by left.
Qed.

Lemma spine_in_mid k s f x :
  0 <= x < spine →
  In (spine_name x) (map node_name (nodes (mid spine fanout k s f))).
Proof.
  intros Hx. unfold Fabric.mid, Fabric.upto. cbn [nodes].
  rewrite !map_app, !in_app_iff. left. left.
  apply in_map_iff. exists (spine_node x). split; [done|].
  apply in_map. apply list_elem_of_In, range_spec. done.
Qed.

(** One uplink of leaf [k]. *)
Lemma addLink_uplink k s :
  0 <= k → 0 <= s < spine →
  addLink (leaf_name spine k) (spine_name s) [("bw", 10)] (mid spine fanout k s 0)
  = Ok (tt, mid spine fanout k (s + 1) 0).
Proof.
  intros Hk Hs. unfold addLink, modify. f_equal. f_equal.
  unfold nextPort.
  rewrite ports_leaf_mid, ports_spine_mid by lia.
  rewrite !(isSwitch_wellnamed (mid spine fanout k s 0));
    [|apply wellnamed_mid|by apply spine_in_mid|apply wellnamed_mid|apply leaf_in_mid].
  unfold Fabric.mid. cbn [nodes links]. f_equal.
  rewrite (range_succ s) by lia. change (range 0) with (@nil Z).
  cbn [map]. rewrite !app_nil_r, map_app, <- app_assoc. cbn [map].
  do 2 f_equal. unfold uplink.
  change (startswith "s" (leaf_name spine k)) with true.
  change (startswith "s" (spine_name s)) with true.
  cbv iota.
  replace (Z.of_nat (Z.to_nat s + Z.to_nat 0) + 1) with (s + 1) by lia.
  by replace (Z.of_nat (Z.to_nat k) + 1) with (k + 1) by lia.
Qed.

(** One host of leaf [k] and its link. *)
Lemma addHost_addLink k f :
  0 <= k → 0 <= f < fanout →
  (host ← addHost (host_name fanout k f) [("ip", host_ip k f)];
   addLink host (leaf_name spine k) [("bw", 10)]) (mid spine fanout k (Z.max 0 spine) f)
  = Ok (tt, mid spine fanout k (Z.max 0 spine) (f + 1)).
Proof.
  intros Hk Hf.
  set (t1 := {| nodes := nodes (mid spine fanout k (Z.max 0 spine) f) ++ [host_node fanout k f];
                links := links (mid spine fanout k (Z.max 0 spine) f) |}).
  change (Ok (tt, {| nodes := nodes t1;
                     links := links t1 ++ [{| node1 := host_name fanout k f;
                                              node2 := leaf_name spine k;
                                              port1 := nextPort t1 (host_name fanout k f);
                                              port2 := nextPort t1 (leaf_name spine k);
                                              link_opts := [("bw", 10)] |}] |})
          = Ok (tt, mid spine fanout k (Z.max 0 spine) (f + 1))).
  assert (∀ nd, In nd (nodes t1) → wellnamed nd) as Hw.
  { intros nd Hnd. apply in_app_iff in Hnd as [Hnd|[<-|[]]]; [|done].
    by apply wellnamed_mid in Hnd. }
  unfold nextPort. rewrite !(isSwitch_wellnamed t1); try done.
  2:{ unfold t1. cbn [nodes]. rewrite map_app, in_app_iff. left. apply leaf_in_mid. }
  2:{ unfold t1. cbn [nodes]. rewrite map_app, in_app_iff. right. by left. }
  unfold t1. cbn [nodes links].
  rewrite ports_host_mid, ports_leaf_mid by lia.
  do 2 f_equal. unfold Fabric.mid. cbn [nodes links].
  rewrite (range_succ f), !map_app by lia. cbn [map].
  rewrite <- !app_assoc. f_equal. f_equal. f_equal. f_equal. f_equal.
  unfold hostlink.
  change (startswith "s" (leaf_name spine k)) with true.
  change (startswith "s" (host_name fanout k f)) with false.
  cbv iota. cbn [length].
  replace (Z.of_nat (Z.to_nat (Z.max 0 spine) + Z.to_nat f) + 1)
    with (Z.max 0 spine + f + 1) by lia.
  done.
Qed.

(** Adding leaf [k] to the first [k] leaves. *)
Lemma leaf_step (spines : gmap Z string) k :
  (∀ s, 0 <= s < spine → spines !! s = Some (spine_name s)) →
  0 <= k →
  (leafSwitch ← addSwitch ("s" +:+ str (spine + k + 1)) [("protocols", "OpenFlow13")];
   for_ (range spine) (fun s =>
     switch ← getitem spines s;
     addLink leafSwitch switch [("bw", 10)]) ;;
   for_ (range fanout) (fun f =>
     host ← addHost ("h" +:+ str (k * fanout + f + 1))
               [("ip", "10.0." +:+ str k +:+ "." +:+ str (f + 1) +:+ "/16")];
     addLink host leafSwitch [("bw", 10)])) (upto spine fanout k)
  = Ok (tt, upto spine fanout (k + 1)).
Proof.
  intros Hsp Hk.
  destruct (for_range_inv (fun s st => st = mid spine fanout k s 0) spine
              (fun s => switch ← getitem spines s;
                        addLink (leaf_name spine k) switch [("bw", 10)])
              (mid spine fanout k 0 0)) as (st1 & E1 & ->); [done|..].
  { intros s st Hs ->. exists (mid spine fanout k (s + 1) 0). split; [|done].
    unfold getitem. rewrite Hsp by done. by apply addLink_uplink. }
  destruct (for_range_inv (fun f st => st = mid spine fanout k (Z.max 0 spine) f) fanout
              (fun f => host ← addHost (host_name fanout k f) [("ip", host_ip k f)];
                        addLink host (leaf_name spine k) [("bw", 10)])
              (mid spine fanout k (Z.max 0 spine) 0)) as (st2 & E2 & ->); [done|..].
  { intros f st Hf ->. exists (mid spine fanout k (Z.max 0 spine) (f + 1)).
    split; [|done]. by apply addHost_addLink. }
  rewrite mid_max in E2. rewrite <- upto_succ in E2 by done.
  rewrite mid_0 in E1.
  change ((for_ (range spine) (fun s => switch ← getitem spines s;
                        addLink (leaf_name spine k) switch [("bw", 10)]) ;;
           for_ (range fanout) (fun f =>
                        host ← addHost (host_name fanout k f) [("ip", host_ip k f)];
                        addLink host (leaf_name spine k) [("bw", 10)]))
            {| nodes := nodes (upto spine fanout k) ++ [leaf_node spine k];
               links := links (upto spine fanout k) |}
          = Ok (tt, upto spine fanout (k + 1))).
  rewrite (bind_ok _ _ _ _ _ E1). exact E2.
Qed.

(** What [__init__] builds. *)
Lemma init_fabric leaf :
  LeafAndSpine.init spine leaf fanout Topo_init = Ok (tt, fabric spine leaf fanout).
Proof.
  unfold LeafAndSpine.init.
  destruct (init_spines_spec (Z.to_nat spine) 0 ∅ Topo_init) as (d & E & Hin & _).
  fold (range spine) in E.
  rewrite (bind_ok _ _ _ _ _ E).
  destruct (for_range_inv (fun k st => st = upto spine fanout k) leaf
    (fun ls =>
      leafSwitch ← addSwitch ("s" +:+ str (spine + ls + 1)) [("protocols", "OpenFlow13")];
      for_ (range spine) (fun s =>
        switch ← getitem d s;
        addLink leafSwitch switch [("bw", 10)]) ;;
      for_ (range fanout) (fun f =>
        host ← addHost ("h" +:+ str (ls * fanout + f + 1))
                  [("ip", "10.0." +:+ str ls +:+ "." +:+ str (f + 1) +:+ "/16")];
        addLink host leafSwitch [("bw", 10)]))
    (upto spine fanout 0)) as (st & Efor & ->); [done|..].
  { intros k st Hk ->. exists (upto spine fanout (k + 1)). split; [|done].
    apply leaf_step; [|lia]. intros s Hs. apply Hin. lia. }
  rewrite upto_max in Efor.
  replace (upto spine fanout 0)
    with {| nodes := map spine_node (range spine); links := [] |} in Efor.
  - exact Efor.
  - unfold Fabric.upto. change (range 0) with (@nil Z). cbn [flat_map].
    by rewrite app_nil_r.
Qed.

Lemma new_fabric leaf :
  LeafAndSpine.new spine leaf fanout = Ok (fabric spine leaf fanout).
Proof. unfold LeafAndSpine.new. by rewrite init_fabric. Qed.

End Build.

(* ===================================================================== *)
(** ** Switches, hosts and ports of the built fabric *)
(* ===================================================================== *)

Section FabricCensus.
Import Fmt Addr Fabric.
Variables spine fanout : Z.

Lemma filter_map_all {A B} (P : B → Prop) `{∀ x, Decision (P x)} (g : A → B) l :
  (∀ x, P (g x)) → filter P (map g l) = map g l.
Proof.
  intros HP. induction l as [|x l IH]; [done|].
  cbn [map]. rewrite filter_cons_True by done. by rewrite IH.
Qed.

Lemma filter_map_none {A B} (P : B → Prop) `{∀ x, Decision (P x)} (g : A → B) l :
  (∀ x, ¬ P (g x)) → filter P (map g l) = [].
Proof.
  intros HP. induction l as [|x l IH]; [done|].
  cbn [map]. by rewrite filter_cons_False.
Qed.

Lemma range_app a b :
  0 <= a → 0 <= b → range (a + b) = range a ++ map (Z.add a) (range b).
Proof.
  intros Ha Hb. rewrite <- (Z2Nat.id b) by done.
  induction (Z.to_nat b) as [|m IH].
  - change (range (Z.of_nat 0)) with (@nil Z). by rewrite Z.add_0_r, app_nil_r.
  - replace (Z.of_nat (S m)) with (Z.of_nat m + 1) by lia.
    rewrite Z.add_assoc, !range_succ, IH, map_app by lia.
    by rewrite app_assoc.
Qed.

(** Host numbers run through [0 .. k*fanout - 1] leaf by leaf. *)
Lemma host_numbers k :
  0 <= fanout → 0 <= k →
  flat_map (fun ls => map (fun f => ls * fanout + f) (range fanout)) (range k)
  = range (k * fanout).
Proof.
  intros Hf Hk. rewrite <- (Z2Nat.id k) by done.
  induction (Z.to_nat k) as [|m IH]; [done|].
  replace (Z.of_nat (S m)) with (Z.of_nat m + 1) by lia.
  rewrite range_succ, flat_map_app, IH by lia. cbn [flat_map].
  rewrite app_nil_r.
  replace ((Z.of_nat m + 1) * fanout) with (Z.of_nat m * fanout + fanout) by lia.
  rewrite range_app by nia. done.
Qed.

Lemma switches_fabric leaf :
  switches (fabric spine leaf fanout)
  = map spine_name (range spine) ++ map (leaf_name spine) (range leaf).
Proof.
  unfold switches, fabric, upto. cbn [nodes].
  rewrite filter_app, map_app, filter_map_all, map_map by done.
  f_equal. induction (range leaf) as [|ls l IH]; [done|].
  cbn [flat_map map]. unfold leaf_nodes at 1.
  rewrite filter_app, filter_cons_True, filter_map_none, map_app by done.
  cbn [app map]. by rewrite IH.
Qed.

Lemma hosts_fabric leaf :
  hosts (fabric spine leaf fanout)
  = flat_map (fun ls => map (host_name fanout ls) (range fanout)) (range leaf).
Proof.
  unfold hosts, fabric, upto. cbn [nodes].
  rewrite filter_app, map_app, filter_map_none by done.
  cbn [map app]. induction (range leaf) as [|ls l IH]; [done|].
  cbn [flat_map]. unfold leaf_nodes at 1.
  rewrite filter_app, filter_cons_False, filter_map_all, map_app, map_map by done.
  by rewrite IH.
Qed.

Lemma hosts_fabric_numbered leaf :
  0 <= fanout → 0 <= leaf →
  hosts (fabric spine leaf fanout)
  = map (fun i => "h" +:+ str (i + 1)) (range (leaf * fanout)).
Proof.
  intros Hf Hl. rewrite hosts_fabric, <- host_numbers by done.
  induction (range leaf) as [|ls l IH]; [done|].
  cbn [flat_map]. rewrite map_app, <- IH, map_map. done.
Qed.

Lemma sw_name_inj a b : "s" +:+ str a = "s" +:+ str b → a = b.
Proof. intros E. injection E as E. by apply str_inj. Qed.

Lemma NoDup_switches leaf : NoDup (switches (fabric spine leaf fanout)).
Proof.
  rewrite switches_fabric. apply NoDup_app. split; [|split].
  - apply NoDup_fmap_2; [|apply range_NoDup].
    intros a b E. apply sw_name_inj in E. lia.
  - intros x Hx Hy.
    apply list_elem_of_fmap in Hx as (a & -> & Ha).
    apply list_elem_of_fmap in Hy as (b & E & Hb).
    apply sw_name_inj in E. apply range_spec in Ha, Hb. lia.
  - apply NoDup_fmap_2; [|apply range_NoDup].
    intros a b E. apply sw_name_inj in E. lia.
Qed.

Lemma NoDup_hosts leaf :
  0 <= fanout → 0 <= leaf → NoDup (hosts (fabric spine leaf fanout)).
Proof.
  intros Hf Hl. rewrite hosts_fabric_numbered by done.
  apply NoDup_fmap_2; [|apply range_NoDup].
  intros a b E. injection E as E. apply str_inj in E. lia.
Qed.

End FabricCensus.

(* ===================================================================== *)
(** ** What the synthesizers emit and change *)
(* ===================================================================== *)

Section Emit.
Import Fmt Addr Rules NetOps.

Lemma for_effect {X} (xs : list X) (body : X → M World unit)
    (out : X → list (list string)) (eff : X → Net → Net) (Inv : Net → Prop) :
  (∀ x nt, Inv nt → Inv (eff x nt)) →
  (∀ x w, In x xs → Inv (net w) →
     body x w = Ok (tt, {| net := eff x (net w); calls := calls w ++ out x |})) →
  ∀ w, Inv (net w) →
    for_ xs body w
    = Ok (tt, {| net := fold_left (fun nt x => eff x nt) xs (net w);
                 calls := calls w ++ flat_map out xs |}).
Proof.
  intros Hpres. induction xs as [|x xs IH]; intros Hbody w Hw.
  - destruct w. simpl. by rewrite app_nil_r.
  - cbn [for_ fold_left flat_map].
    rewrite (bind_ok _ _ _ _ _ (Hbody x w (or_introl eq_refl) Hw)).
    rewrite IH; [|intros; apply Hbody; [by right|done]|by apply Hpres].
    cbn [net calls]. by rewrite <- app_assoc.
Qed.

Lemma for_emit {X} (xs : list X) (body : X → M World unit)
    (out : X → list (list string)) :
  (∀ x w, In x xs →
     body x w = Ok (tt, {| net := net w; calls := calls w ++ out x |})) →
  ∀ w, for_ xs body w
       = Ok (tt, {| net := net w; calls := calls w ++ flat_map out xs |}).
Proof.
  intros Hbody w.
  assert (∀ nt : Net, fold_left (fun nt (_ : X) => nt) xs nt = nt) as Hid.
  { clear. induction xs as [|x xs IH]; intros nt; [done|]. apply IH. }
  rewrite (for_effect xs body out (fun _ nt => nt) (fun _ => True)).
  - by rewrite Hid.
  - done.
  - intros. by apply Hbody.
  - done.
Qed.

Lemma for_call {X} (xs : list X) (cmd : X → list string) w :
  for_ xs (fun x => call (cmd x)) w
  = Ok (tt, {| net := net w; calls := calls w ++ map cmd xs |}).
Proof. rewrite (for_emit xs _ (fun x => [cmd x])); [|done]. by rewrite flat_map_single. Qed.

(** [configMulticast] always succeeds, leaves the network alone and appends
    its commands to the log. *)
Lemma configMulticast_run spine leaf fanout w :
  configMulticast spine leaf fanout w
  = Ok (tt, {| net := net w; calls := calls w ++ multicast_calls spine leaf |}).
Proof.
  unfold configMulticast.
  erewrite bind_ok.
  2:{ apply (for_emit _ _ (leaf_flood_calls spine)). intros ls w1 _.
      erewrite bind_ok; [|apply for_call].
      unfold call, modify. cbn [net calls]. unfold leaf_flood_calls.
      by rewrite <- app_assoc. }
  rewrite for_call. cbn [net calls]. unfold multicast_calls.
  by rewrite <- app_assoc.
Qed.

Lemma lookup_node_name n nt nd : lookup_node n nt = Some nd → name nd = n.
Proof.
  unfold lookup_node. intros H. apply find_some in H as [_ H].
  by apply String.eqb_eq in H.
Qed.

Lemma find_set_mac_in n m mac l :
  find (has_name n) (set_mac_in m mac l)
  = (fun nd => if has_name m nd then with_MAC mac nd else nd) <$> find (has_name n) l.
Proof.
  induction l as [|nd l IH]; [done|].
  cbn [set_mac_in map find]. fold (set_mac_in m mac l).
  replace (has_name n (if has_name m nd then with_MAC mac nd else nd))
    with (has_name n nd) by (by destruct (has_name m nd)).
  destruct (has_name n nd); [done|]. apply IH.
Qed.

Lemma lookup_set_mac n m mac nt :
  lookup_node n (set_mac m mac nt)
  = (fun nd => if has_name m nd then with_MAC mac nd else nd) <$> lookup_node n nt.
Proof.
  unfold lookup_node, set_mac. cbn [net_hosts net_switches].
  replace (set_mac_in m mac (net_hosts nt) ++ set_mac_in m mac (net_switches nt))
    with (set_mac_in m mac (net_hosts nt ++ net_switches nt))
    by apply map_app.
  apply find_set_mac_in.
Qed.

Section Unicast.
Variables spine leaf fanout : Z.

Lemma hosts_present_set_mac m mac nt :
  hosts_present leaf fanout nt → hosts_present leaf fanout (set_mac m mac nt).
Proof.
  intros H ls f Hls Hf. rewrite lookup_set_mac.
  destruct (H ls f Hls Hf) as [nd ->]. by eexists.
Qed.

Lemma hosts_present_fold {X} (g : X → string * string) (xs : list X) nt :
  hosts_present leaf fanout nt →
  hosts_present leaf fanout (fold_left (fun nt x => set_mac (g x).1 (g x).2 nt) xs nt).
Proof.
  revert nt. induction xs as [|x xs IH]; intros nt H; [done|].
  cbn [fold_left]. apply IH. by apply hosts_present_set_mac.
Qed.

(** One pass of the inner loop body, for host [f] of leaf [ls]. *)
Lemma unicast_host_step ls f w :
  0 <= ls < leaf → 0 <= f < fanout → hosts_present leaf fanout (net w) →
  (host ← NetOps.get ("h" +:+ str (ls * fanout + f + 1));
   NetOps.setMAC host
     ("00:04:00:00:" +:+ format_02x ls +:+ ":" +:+ format_02x (f + 1)) ;;
   call ["ovs-ofctl"; "add-flow"; "s" +:+ str (spine + ls + 1);
         "dl_dst=" +:+ ("00:04:00:00:" +:+ format_02x ls +:+ ":" +:+ format_02x (f + 1))
           +:+ " priority=500 actions=output:" +:+ str (f + 1 + spine)] ;;
   call ["ovs-ofctl"; "add-flow"; "s" +:+ str (spine + ls + 1);
         "priority=300 actions=bundle(symmetric_l4," +:+ str (ls + 1)
           +:+ ",hrw,ofport,slaves:" +:+ slaves spine] ;;
   for_ (range spine) (fun s =>
     call ["ovs-ofctl"; "add-flow"; "s" +:+ str (s + 1);
           "dl_dst=" +:+ ("00:04:00:00:" +:+ format_02x ls +:+ ":" +:+ format_02x (f + 1))
             +:+ " priority=500 actions=output:" +:+ str (ls + 1)])) w
  = Ok (tt, {| net := set_mac (host_name fanout ls f) (host_mac ls f) (net w);
               calls := calls w ++ host_calls spine ls f |}).
Proof.
  intros Hls Hf Hp.
  destruct (Hp ls f Hls Hf) as [nd Hnd].
  erewrite bind_ok.
  2:{ unfold NetOps.get. fold (host_name fanout ls f). rewrite Hnd. reflexivity. }
  rewrite (lookup_node_name _ _ _ Hnd).
  erewrite bind_ok; [|reflexivity].
  erewrite bind_ok; [|reflexivity].
  erewrite bind_ok; [|reflexivity].
  rewrite for_call. cbn [net calls]. unfold host_calls.
  rewrite <- !app_assoc. reflexivity.
Qed.

Lemma fold_left_flat_map {A X Y} (g : A → Y → A) (h : X → list Y) (l : list X) a :
  fold_left g (flat_map h l) a = fold_left (fun a x => fold_left g (h x) a) l a.
Proof.
  revert a. induction l as [|x l IH]; intros a; [done|].
  cbn [flat_map fold_left]. by rewrite fold_left_app, IH.
Qed.

Lemma fold_left_map {A X Y} (g : A → Y → A) (h : X → Y) (l : list X) a :
  fold_left g (map h l) a = fold_left (fun a x => g a (h x)) l a.
Proof. revert a. induction l as [|x l IH]; intros a; [done|]. cbn. apply IH. Qed.

(** [configUnicast] on a network that has every host of the fabric: it
    succeeds, hands out the MAC addresses and appends its commands. *)
Lemma configUnicast_run w :
  hosts_present leaf fanout (net w) →
  configUnicast spine leaf fanout w
  = Ok (tt, {| net := assign_macs (mac_table leaf fanout) (net w);
               calls := calls w ++ unicast_calls spine leaf fanout |}).
Proof.
  intros Hp. unfold configUnicast.
  rewrite (for_effect (range leaf) _
             (fun ls => flat_map (host_calls spine ls) (range fanout))
             (fun ls nt => fold_left (fun nt f =>
                 set_mac (host_name fanout ls f) (host_mac ls f) nt) (range fanout) nt)
             (hosts_present leaf fanout)); [| |  |done].
  - unfold assign_macs, mac_table, unicast_calls.
    rewrite fold_left_flat_map. do 3 f_equal.
    clear. generalize (net w). induction (range leaf) as [|ls l IH]; intros nt; [done|].
    cbn [fold_left]. rewrite IH. by rewrite fold_left_map.
  - intros ls nt H.
    apply (hosts_present_fold (fun f => (host_name fanout ls f, host_mac ls f))). done.
  - intros ls w1 Hls Hw1. apply list_elem_of_In, range_spec in Hls.
    rewrite (for_effect (range fanout) _ (host_calls spine ls)
               (fun f nt => set_mac (host_name fanout ls f) (host_mac ls f) nt)
               (hosts_present leaf fanout)); [done| |  |done].
    + intros. by apply hosts_present_set_mac.
    + intros f w2 Hf Hw2. apply list_elem_of_In, range_spec in Hf.
      by apply unicast_host_step.
Qed.

End Unicast.

Lemma retag_cons e tbl nd :
  retag (e :: tbl) nd = retag tbl (if has_name e.1 nd then with_MAC e.2 nd else nd).
Proof. reflexivity. Qed.

Lemma retag_fields tbl nd :
  name (retag tbl nd) = name nd ∧ dpid (retag tbl nd) = dpid nd ∧ IP (retag tbl nd) = IP nd.
Proof.
  revert nd. induction tbl as [|e tbl IH]; intros nd; [done|].
  rewrite retag_cons.
  destruct (IH (if has_name e.1 nd then with_MAC e.2 nd else nd)) as (-> & -> & ->).
  by destruct (has_name e.1 nd).
Qed.

Lemma retag_other tbl nd :
  name nd ∉ map fst tbl → retag tbl nd = nd.
Proof.
  revert nd. induction tbl as [|e tbl IH]; intros nd Hn; [done|].
  rewrite retag_cons.
  cbn [map] in Hn. apply not_elem_of_cons in Hn as [Hne Hn].
  unfold has_name. destruct (String.eqb_spec (name nd) e.1) as [E|_]; [done|].
  by apply IH.
Qed.

Lemma retag_hit tbl nd mac :
  NoDup (map fst tbl) → (name nd, mac) ∈ tbl → retag tbl nd = with_MAC mac nd.
Proof.
  revert nd. induction tbl as [|e tbl IH]; intros nd Hnd Hin.
  { by apply elem_of_nil in Hin. }
  cbn [map] in Hnd. apply NoDup_cons in Hnd as [Hfresh Hnd].
  rewrite retag_cons. unfold has_name.
  apply elem_of_cons in Hin as [<-|Hin].
  - cbn [fst snd]. rewrite String.eqb_refl. by apply retag_other.
  - destruct (String.eqb_spec (name nd) e.1) as [E|_]; [|by apply IH].
    exfalso. apply Hfresh. rewrite <- E.
    apply list_elem_of_fmap. by exists (name nd, mac).
Qed.

Lemma assign_macs_retag tbl nt :
  assign_macs tbl nt
  = {| net_hosts := map (retag tbl) (net_hosts nt);
       net_switches := map (retag tbl) (net_switches nt);
       net_links := net_links nt |}.
Proof.
  revert nt. induction tbl as [|e tbl IH]; intros nt.
  - destruct nt. cbn. by rewrite !map_id.
  - cbn [assign_macs fold_left]. fold (assign_macs tbl). rewrite IH.
    unfold set_mac, set_mac_in. cbn [net_hosts net_switches net_links].
    by rewrite !map_map.
Qed.

Lemma lookup_assign_macs n tbl nt :
  lookup_node n (assign_macs tbl nt) = retag tbl <$> lookup_node n nt.
Proof.
  rewrite assign_macs_retag. unfold lookup_node. cbn [net_hosts net_switches].
  rewrite <- map_app. induction (net_hosts nt ++ net_switches nt) as [|nd l IH]; [done|].
  cbn [map find]. unfold has_name at 1.
  destruct (retag_fields tbl nd) as (-> & _). fold (has_name n nd).
  destruct (has_name n nd); [done|]. apply IH.
Qed.

Lemma mac_table_names leaf fanout :
  map fst (mac_table leaf fanout)
  = flat_map (fun ls => map (host_name fanout ls) (range fanout)) (range leaf).
Proof.
  unfold mac_table. induction (range leaf) as [|ls l IH]; [done|].
  cbn [flat_map]. by rewrite map_app, IH, map_map.
Qed.

Lemma mac_table_NoDup leaf fanout :
  0 <= leaf → 0 <= fanout → NoDup (map fst (mac_table leaf fanout)).
Proof.
  intros Hl Hf. rewrite mac_table_names, <- (hosts_fabric 0 fanout leaf).
  by apply NoDup_hosts.
Qed.

Lemma mac_table_elem leaf fanout ls f :
  0 <= ls < leaf → 0 <= f < fanout →
  (host_name fanout ls f, host_mac ls f) ∈ mac_table leaf fanout.
Proof.
  intros Hls Hf. unfold mac_table. apply list_elem_of_In, in_flat_map.
  exists ls. split; [by apply list_elem_of_In, range_spec|].
  apply in_map_iff. exists f. split; [done|]. by apply list_elem_of_In, range_spec.
Qed.

(** Addresses determine the host. *)
Lemma host_ip_inj a f b g : host_ip a f = host_ip b g → a = b ∧ f = g.
Proof.
  unfold host_ip. intros E. injection E as E.
  apply cut_at_separator in E as [Ea E]; [|by apply lacks_str..].
  apply str_inj in Ea. apply app_inv_tail_str, str_inj in E. lia.
Qed.

Lemma host_mac_inj a f b g : host_mac a f = host_mac b g → a = b ∧ f = g.
Proof.
  unfold host_mac. intros E. injection E as E.
  apply cut_at_separator in E as [Ea E]; [|by apply lacks_format_02x..].
  apply format_02x_inj in Ea, E. lia.
Qed.

End Emit.

(* ===================================================================== *)
(** ** Reading the command log *)
(* ===================================================================== *)

Section Log.
Import Fmt Addr Rules.

Lemma sent_to_app sub sw l1 l2 :
  sent_to sub sw (l1 ++ l2) = sent_to sub sw l1 ++ sent_to sub sw l2.
Proof. unfold sent_to. apply flat_map_app. Qed.

Lemma sent_to_map {X} sub sw (g : X → list string) (l : list X) :
  sent_to sub sw (map g l) = flat_map (fun x => sent_to sub sw [g x]) l.
Proof.
  unfold sent_to. induction l as [|x l IH]; [done|].
  cbn [map flat_map]. by rewrite IH, app_nil_r.
Qed.

Lemma sent_to_flat_map {X} sub sw (g : X → list (list string)) (l : list X) :
  sent_to sub sw (flat_map g l) = flat_map (fun x => sent_to sub sw (g x)) l.
Proof.
  induction l as [|x l IH]; [done|]. cbn [flat_map]. by rewrite sent_to_app, IH.
Qed.

Lemma sent_modport_noflood sw sw' p :
  sent_to "mod-port" sw [noflood_cmd sw' p]
  = if String.eqb sw' sw then [[str p; "noflood"]] else [].
Proof. unfold sent_to, noflood_cmd. cbn [flat_map]. rewrite app_nil_r. done. Qed.

Lemma sent_modport_addflow sw sw' flow :
  sent_to "mod-port" sw [["ovs-ofctl"; "add-flow"; sw'; flow]] = [].
Proof. done. Qed.

Lemma sent_addflow_noflood sw sw' p :
  sent_to "add-flow" sw [noflood_cmd sw' p] = [].
Proof. done. Qed.

Lemma sent_addflow_addflow sw sw' flow :
  sent_to "add-flow" sw [["ovs-ofctl"; "add-flow"; sw'; flow]]
  = if String.eqb sw' sw then [[flow]] else [].
Proof. unfold sent_to. cbn [flat_map]. rewrite app_nil_r. done. Qed.

Lemma flat_map_if_nil {X Y} (b : bool) (g : X → list Y) (l : list X) :
  flat_map (fun x => if b then g x else []) l = if b then flat_map g l else [].
Proof. destruct b; [done|apply flat_map_nil]. Qed.

(** *** The flood-control log *)

Lemma modport_leaf_block spine a b :
  sent_to "mod-port" (leaf_name spine a) (leaf_flood_calls spine b)
  = if b =? a then map (fun p => [str p; "noflood"]) (range2 2 (spine + 1)) else [].
Proof.
  unfold leaf_flood_calls. rewrite sent_to_app, sent_to_map.
  unfold flood_cmd. rewrite sent_modport_addflow, app_nil_r.
  rewrite (flat_map_ext_in _
     (fun p => if b =? a then [[str p; "noflood"]] else [])).
  2:{ intros p _. rewrite sent_modport_noflood. names.
      by replace (spine + b + 1 =? spine + a + 1) with (b =? a) by lia. }
  rewrite flat_map_if_nil. by rewrite flat_map_single.
Qed.

Lemma modport_leaf spine leaf a :
  0 <= a < leaf →
  sent_to "mod-port" (leaf_name spine a) (multicast_calls spine leaf)
  = map (fun p => [str p; "noflood"]) (range2 2 (spine + 1)).
Proof.
  intros Ha. unfold multicast_calls. rewrite sent_to_app, sent_to_flat_map.
  rewrite (flat_map_ext_in _
     (fun b => if b =? a then map (fun p => [str p; "noflood"]) (range2 2 (spine + 1))
               else [])).
  2:{ intros b _. apply modport_leaf_block. }
  rewrite (flat_map_hit (fun _ => map (fun p => [str p; "noflood"]) (range2 2 (spine + 1)))).
  destruct (Z.leb_spec 0 a), (Z.ltb_spec a leaf); try lia. cbn [andb].
  rewrite sent_to_map, (flat_map_ext_in _ (fun _ => [])), flat_map_nil, app_nil_r; done.
Qed.

Lemma modport_spine spine leaf s :
  0 <= s < spine →
  sent_to "mod-port" (spine_name s) (multicast_calls spine leaf) = [].
Proof.
  intros Hs. unfold multicast_calls. rewrite sent_to_app, sent_to_flat_map.
  rewrite (flat_map_ext_in _ (fun _ => [])).
  2:{ intros b Hb. apply range_spec in Hb. unfold leaf_flood_calls.
      rewrite sent_to_app, sent_to_map.
      rewrite (flat_map_ext_in _ (fun _ => [])), flat_map_nil; [done|].
      intros p _. rewrite sent_modport_noflood. names.
      by replace (spine + b + 1 =? s + 1) with false by lia. }
  rewrite flat_map_nil, sent_to_map.
  by rewrite (flat_map_ext_in _ (fun _ => [])), flat_map_nil.
Qed.

Lemma addflow_leaf_block spine a b :
  sent_to "add-flow" (leaf_name spine a) (leaf_flood_calls spine b)
  = if b =? a then [[flood_flow]] else [].
Proof.
  unfold leaf_flood_calls. rewrite sent_to_app, sent_to_map.
  rewrite (flat_map_ext_in _ (fun _ => [])), flat_map_nil by done.
  unfold flood_cmd. rewrite sent_addflow_addflow. names.
  by replace (spine + b + 1 =? spine + a + 1) with (b =? a) by lia.
Qed.

Lemma addflow_leaf spine leaf a :
  0 <= a < leaf →
  sent_to "add-flow" (leaf_name spine a) (multicast_calls spine leaf) = [[flood_flow]].
Proof.
  intros Ha. unfold multicast_calls. rewrite sent_to_app, sent_to_flat_map.
  rewrite (flat_map_ext_in _ (fun b => if b =? a then [[flood_flow]] else [])).
  2:{ intros b _. apply addflow_leaf_block. }
  rewrite (flat_map_hit (fun _ => [[flood_flow]])).
  destruct (Z.leb_spec 0 a), (Z.ltb_spec a leaf); try lia. cbn [andb].
  rewrite sent_to_map, (flat_map_ext_in _ (fun _ => [])), flat_map_nil; [done|].
  intros s Hs. apply range_spec in Hs. unfold flood_cmd.
  rewrite sent_addflow_addflow. names.
  by replace (s + 1 =? spine + a + 1) with false by lia.
Qed.

Lemma addflow_spine spine leaf s :
  0 <= s < spine →
  sent_to "add-flow" (spine_name s) (multicast_calls spine leaf) = [[flood_flow]].
Proof.
  intros Hs. unfold multicast_calls. rewrite sent_to_app, sent_to_flat_map.
  rewrite (flat_map_ext_in _ (fun _ => [])).
  2:{ intros b Hb. apply range_spec in Hb. unfold leaf_flood_calls.
      rewrite sent_to_app, sent_to_map.
      rewrite (flat_map_ext_in _ (fun _ => [])), flat_map_nil by done.
      unfold flood_cmd. rewrite sent_addflow_addflow. names.
      by replace (spine + b + 1 =? s + 1) with false by lia. }
  rewrite flat_map_nil, sent_to_map.
  rewrite (flat_map_ext_in _ (fun x => if x =? s then [[flood_flow]] else [])).
  2:{ intros x _. unfold flood_cmd. rewrite sent_addflow_addflow. names.
      by replace (x + 1 =? s + 1) with (x =? s) by lia. }
  rewrite (flat_map_hit (fun _ => [[flood_flow]])).
  by destruct (Z.leb_spec 0 s), (Z.ltb_spec s spine); try lia.
Qed.

(** *** The unicast log *)

Lemma addflow_leaf_host_calls spine a b f :
  0 <= a → 0 <= b →
  sent_to "add-flow" (leaf_name spine a) (host_calls spine b f)
  = if b =? a then [[local_flow spine b f]; [multipath_flow spine b]] else [].
Proof.
  intros Ha Hb. unfold host_calls.
  change [local_rule spine b f; multipath_rule spine b]
    with ([local_rule spine b f] ++ [multipath_rule spine b]).
  rewrite !sent_to_app, sent_to_map.
  rewrite (flat_map_ext_in _ (fun _ => [])), flat_map_nil, app_nil_r.
  2:{ intros s Hs. apply range_spec in Hs. unfold spine_rule.
      rewrite sent_addflow_addflow. names.
      by replace (s + 1 =? spine + a + 1) with false by lia. }
  unfold local_rule, multipath_rule. rewrite !sent_addflow_addflow. names.
  replace (spine + b + 1 =? spine + a + 1) with (b =? a) by lia.
  by destruct (b =? a).
Qed.

Lemma addflow_leaf_unicast spine leaf fanout a :
  0 <= a < leaf →
  sent_to "add-flow" (leaf_name spine a) (unicast_calls spine leaf fanout)
  = flat_map (fun f => [[local_flow spine a f]; [multipath_flow spine a]]) (range fanout).
Proof.
  intros Ha. unfold unicast_calls. rewrite sent_to_flat_map.
  rewrite (flat_map_ext_in _
    (fun b => if b =? a
              then flat_map (fun f => [[local_flow spine b f]; [multipath_flow spine b]])
                            (range fanout)
              else [])).
  2:{ intros b Hb. apply range_spec in Hb. rewrite sent_to_flat_map.
      rewrite <- flat_map_if_nil. apply flat_map_ext_in. intros f _.
      apply addflow_leaf_host_calls; lia. }
  rewrite (flat_map_hit (fun b =>
    flat_map (fun f => [[local_flow spine b f]; [multipath_flow spine b]]) (range fanout))).
  by destruct (Z.leb_spec 0 a), (Z.ltb_spec a leaf); try lia.
Qed.

Lemma addflow_spine_host_calls spine s b f :
  0 <= s < spine → 0 <= b →
  sent_to "add-flow" (spine_name s) (host_calls spine b f) = [[spine_flow b f]].
Proof.
  intros Hs Hb. unfold host_calls.
  change [local_rule spine b f; multipath_rule spine b]
    with ([local_rule spine b f] ++ [multipath_rule spine b]).
  rewrite !sent_to_app, sent_to_map.
  unfold local_rule, multipath_rule. rewrite !sent_addflow_addflow. names.
  replace (spine + b + 1 =? s + 1) with false by lia. cbn [app].
  rewrite (flat_map_ext_in _ (fun x => if x =? s then [[spine_flow b f]] else [])).
  2:{ intros x _. unfold spine_rule. rewrite sent_addflow_addflow. names.
      by replace (x + 1 =? s + 1) with (x =? s) by lia. }
  rewrite (flat_map_hit (fun _ => [[spine_flow b f]])).
  by destruct (Z.leb_spec 0 s), (Z.ltb_spec s spine); try lia.
Qed.

Lemma addflow_spine_unicast spine leaf fanout s :
  0 <= s < spine →
  sent_to "add-flow" (spine_name s) (unicast_calls spine leaf fanout)
  = flat_map (fun ls => map (fun f => [spine_flow ls f]) (range fanout)) (range leaf).
Proof.
  intros Hs. unfold unicast_calls. rewrite sent_to_flat_map.
  apply flat_map_ext_in. intros b Hb. apply range_spec in Hb.
  rewrite sent_to_flat_map, <- flat_map_single.
  apply flat_map_ext_in. intros f _. apply addflow_spine_host_calls; lia.
Qed.

Lemma multipath_flows spine fanout a :
  List.filter (fun rest => match rest with
                           | [flow] => startswith "priority=300" flow
                           | _ => false
                           end)
    (flat_map (fun f => [[local_flow spine a f]; [multipath_flow spine a]]) (range fanout))
  = repeat [multipath_flow spine a] (Z.to_nat fanout).
Proof.
  unfold range. induction (Z.to_nat fanout) as [|m IH]; [done|].
  rewrite seq_S, map_app, flat_map_app, List.filter_app, IH.
  cbn. rewrite <- repeat_cons. done.
Qed.

Lemma local_flows spine fanout a :
  List.filter (fun rest => match rest with
                           | [flow] => startswith "dl_dst=" flow
                           | _ => false
                           end)
    (flat_map (fun f => [[local_flow spine a f]; [multipath_flow spine a]]) (range fanout))
  = map (fun f => [local_flow spine a f]) (range fanout).
Proof.
  induction (range fanout) as [|f l IH]; [done|].
  cbn [flat_map map]. rewrite List.filter_app, IH. done.
Qed.

(** The member list of the multipath rule names the uplinks 1..spine. *)
Lemma append_assoc_str (a b c : string) : (a +:+ b) +:+ c = a +:+ (b +:+ c).
Proof.
  induction a as [|x a IH]; [done|].
  change (String x ((a +:+ b) +:+ c) = String x (a +:+ (b +:+ c))). by rewrite IH.
Qed.

Lemma append_empty_r (a : string) : a +:+ "" = a.
Proof.
  induction a as [|x a IH]; [done|].
  change (String x (a +:+ "") = String x a). by rewrite IH.
Qed.

Lemma fold_slaves (l : list Z) (acc : string) :
  fold_left (fun acc x => acc +:+ "," +:+ str x) l acc
  = acc +:+ fold_right (fun x r => "," +:+ str x +:+ r) "" l.
Proof.
  revert acc. induction l as [|x l IH]; intros acc.
  - cbn [fold_left fold_right]. by rewrite append_empty_r.
  - cbn [fold_left fold_right]. rewrite IH.
    by rewrite !append_assoc_str.
Qed.

Lemma join_cons sep (a : string) (l : list string) :
  join sep (a :: l) = a +:+ fold_right (fun x r => sep +:+ x +:+ r) "" l.
Proof.
  unfold join. revert a. induction l as [|b l IH]; intros a.
  - cbn [String.concat fold_right]. by rewrite append_empty_r.
  - change (String.concat sep (a :: b :: l))
      with (a +:+ sep +:+ String.concat sep (b :: l)).
    by rewrite IH.
Qed.

Lemma range2_cons a b : a < b → range2 a b = a :: range2 (a + 1) b.
Proof.
  intros H. unfold range2.
  replace (Z.to_nat (b - a)) with (S (Z.to_nat (b - (a + 1)))) by lia.
  cbn [seq map]. f_equal; [lia|].
  rewrite <- seq_shift, map_map. apply map_ext. intros; lia.
Qed.

Lemma slaves_join spine :
  1 <= spine → slaves spine = join "," (map str (range2 1 (spine + 1))).
Proof.
  intros H. rewrite range2_cons by lia. cbn [map]. rewrite join_cons.
  change (1 + 1) with 2. unfold slaves.
  destruct (Z.ltb_spec 1 spine).
  - rewrite fold_slaves. change (str 1) with "1". f_equal.
    induction (range2 2 (spine + 1)) as [|x l IH]; [done|].
    cbn [map fold_right]. by rewrite IH.
  - replace spine with 1 by lia. done.
Qed.

End Log.

(* ===================================================================== *)
(** ** The builder *)
(* ===================================================================== *)

(** C1. For every spine >= 1, leaf >= 1 and fanout >= 1 the constructor
    returns a topology with exactly spine + leaf switches (pairwise
    distinct names) and leaf * fanout hosts (pairwise distinct names); every
    leaf switch is one of its switches, and the ports of a leaf switch, in
    the order they were allocated, are 1..spine towards the spines in
    spine-index order followed by spine+1..spine+fanout towards its hosts in
    host-index order. *)
Theorem builder_census_and_leaf_ports (spine leaf fanout : Z) :
  1 <= spine → 1 <= leaf → 1 <= fanout →
  ∃ t, LeafAndSpine.new spine leaf fanout = Ok t
     ∧ Z.of_nat (length (switches t)) = spine + leaf
     ∧ NoDup (switches t)
     ∧ Z.of_nat (length (hosts t)) = leaf * fanout
     ∧ NoDup (hosts t)
     ∧ ∀ ls, 0 <= ls < leaf →
         Addr.leaf_name spine ls ∈ switches t
       ∧ ports_of (Addr.leaf_name spine ls) (links t)
         = map (fun s => (s + 1, Addr.spine_name s)) (range spine) ++
           map (fun f => (spine + f + 1, Addr.host_name fanout ls f)) (range fanout).
Proof.
  intros Hs Hl Hf. exists (Fabric.fabric spine leaf fanout).
  split; [apply new_fabric|].
  split. { rewrite switches_fabric, length_app, !length_map, !length_range. lia. }
  split. { apply NoDup_switches. }
  split. { rewrite hosts_fabric_numbered, length_map, length_range by lia. nia. }
  split. { apply NoDup_hosts; lia. }
  intros ls Hls. split.
  - rewrite switches_fabric. apply elem_of_app. right.
    apply list_elem_of_fmap. exists ls. split; [done|]. by apply range_spec.
  - unfold Fabric.fabric. rewrite ports_leaf_upto by lia.
    destruct (Z.ltb_spec ls leaf); [|lia].
    unfold Fabric.leaf_ports. by replace (Z.max 0 spine) with spine by lia.
Qed.

Lemma builder_census_and_leaf_ports_witness :
  ∃ t, LeafAndSpine.new 2 2 2 = Ok t
     ∧ Z.of_nat (length (switches t)) = 2 + 2
     ∧ NoDup (switches t)
     ∧ Z.of_nat (length (hosts t)) = 2 * 2
     ∧ NoDup (hosts t)
     ∧ ∀ ls, 0 <= ls < 2 →
         Addr.leaf_name 2 ls ∈ switches t
       ∧ ports_of (Addr.leaf_name 2 ls) (links t)
         = map (fun s => (s + 1, Addr.spine_name s)) (range 2) ++
           map (fun f => (2 + f + 1, Addr.host_name 2 ls f)) (range 2).
Proof. apply (builder_census_and_leaf_ports 2 2 2); lia. Defined.

(** C7 as stated fails: with leaf = 255, with fanout = 255 and with
    spine = 0 the constructor returns a topology; no exception is raised. *)
Lemma out_of_range_sizes_are_accepted :
  (∃ t, LeafAndSpine.new 2 255 2 = Ok t ∧ length (switches t) = 257%nat)
  ∧ (∃ t, LeafAndSpine.new 2 2 255 = Ok t ∧ length (hosts t) = 510%nat)
  ∧ (∃ t, LeafAndSpine.new 0 2 2 = Ok t ∧ length (switches t) = 2%nat)
  ∧ ¬ (∃ e, LeafAndSpine.new 2 255 2 = Raise e).
Proof.
  split; [|split; [|split]].
  - exists (Fabric.fabric 2 255 2). split; [apply new_fabric|].
    by rewrite switches_fabric, length_app, !length_map, !length_range.
  - exists (Fabric.fabric 2 2 255). split; [apply new_fabric|].
    by rewrite hosts_fabric_numbered, length_map, length_range.
  - exists (Fabric.fabric 0 2 2). split; [apply new_fabric|].
    by rewrite switches_fabric, length_app, !length_map, !length_range.
  - intros [e He]. by rewrite new_fabric in He.
Qed.

(** C7, amended. The constructor validates nothing: for all integers spine,
    leaf and fanout it returns a topology and raises no exception; a count
    that is zero or negative makes the corresponding loop run zero times, so
    the topology has max(0,spine) + max(0,leaf) switches. *)
Theorem constructor_never_fails (spine leaf fanout : Z) :
  ∃ t, LeafAndSpine.new spine leaf fanout = Ok t
     ∧ Z.of_nat (length (switches t)) = Z.max 0 spine + Z.max 0 leaf.
Proof.
  exists (Fabric.fabric spine leaf fanout). split; [apply new_fabric|].
  rewrite switches_fabric, length_app, !length_map, !length_range. lia.
Qed.

(* ===================================================================== *)
(** ** Addresses *)
(* ===================================================================== *)

(** C2. With leaf < 255 and fanout < 255: the host at leaf index ls and host
    index f is created with the option ip = 10.0.ls.(f+1)/16; after the
    unicast synthesizer has run on a network that has the hosts of the
    fabric, that host's MAC is 00:04:00:00:xx:yy with xx and yy the two-digit
    hexadecimal forms of ls and f+1; and two hosts at different positions
    differ in name, in IP address and in MAC address. *)
Theorem host_addresses (spine leaf fanout : Z) (w : World) :
  0 <= leaf < 255 → 0 <= fanout < 255 →
  Rules.hosts_present leaf fanout (net w) →
  ∃ t w',
    LeafAndSpine.new spine leaf fanout = Ok t
  ∧ configUnicast spine leaf fanout w = Ok (tt, w')
  ∧ (∀ ls f, 0 <= ls < leaf → 0 <= f < fanout →
       {| node_name := Addr.host_name fanout ls f; node_isSwitch := false;
          node_opts := [("ip", "10.0." +:+ Fmt.str ls +:+ "." +:+ Fmt.str (f + 1) +:+ "/16")] |}
         ∈ nodes t
     ∧ (∃ nd, NetOps.lookup_node (Addr.host_name fanout ls f) (net w') = Some nd
            ∧ MAC nd = "00:04:00:00:" +:+ Fmt.format_02x ls +:+ ":" +:+ Fmt.format_02x (f + 1))
     ∧ String.length (Fmt.format_02x ls) = 2%nat
     ∧ String.length (Fmt.format_02x (f + 1)) = 2%nat)
  ∧ (∀ ls f ls' f', 0 <= ls < leaf → 0 <= f < fanout →
       0 <= ls' < leaf → 0 <= f' < fanout → (ls, f) ≠ (ls', f') →
       Addr.host_name fanout ls f ≠ Addr.host_name fanout ls' f'
     ∧ Addr.host_ip ls f ≠ Addr.host_ip ls' f'
     ∧ Addr.host_mac ls f ≠ Addr.host_mac ls' f').
Proof.
  intros Hl Hf Hp.
  exists (Fabric.fabric spine leaf fanout).
  exists {| net := Rules.assign_macs (Rules.mac_table leaf fanout) (net w);
            calls := calls w ++ Rules.unicast_calls spine leaf fanout |}.
  split; [apply new_fabric|]. split; [by apply configUnicast_run|]. split.
  - intros ls f Hls Hfr. split; [|split; [|split]].
    + unfold Fabric.fabric, Fabric.upto. cbn [nodes].
      apply elem_of_app. right. apply list_elem_of_In, in_flat_map.
      exists ls. split; [by apply list_elem_of_In, range_spec|].
      right. apply in_map_iff. exists f. split; [done|].
      by apply list_elem_of_In, range_spec.
    + cbn [net]. rewrite lookup_assign_macs.
      destruct (Hp ls f Hls Hfr) as [nd Hnd]. rewrite Hnd. cbn.
      eexists. split; [done|].
      rewrite (retag_hit _ _ (Addr.host_mac ls f)); [done|apply mac_table_NoDup; lia|].
      rewrite (lookup_node_name _ _ _ Hnd). by apply mac_table_elem.
    + apply format_02x_octet. lia.
    + apply format_02x_octet. lia.
  - intros ls f ls' f' Hls Hfr Hls' Hfr' Hne. split; [|split]; intros E; apply Hne.
    + apply host_name_inj in E as [-> ->]; done.
    + apply host_ip_inj in E as [-> ->]; done.
    + apply host_mac_inj in E as [-> ->]; done.
Qed.

Lemma scenario_net_hosts_present : Rules.hosts_present 2 2 scenario_net.
Proof.
  intros ls f Hls Hf.
  assert (ls = 0 ∨ ls = 1) as [-> | ->] by lia;
  assert (f = 0 ∨ f = 1) as [-> | ->] by lia;
  vm_compute; by eexists.
Defined.

Lemma host_addresses_witness :
  ∃ t w',
    LeafAndSpine.new 2 2 2 = Ok t
  ∧ configUnicast 2 2 2 {| net := scenario_net; calls := [] |} = Ok (tt, w')
  ∧ (∀ ls f, 0 <= ls < 2 → 0 <= f < 2 →
       {| node_name := Addr.host_name 2 ls f; node_isSwitch := false;
          node_opts := [("ip", "10.0." +:+ Fmt.str ls +:+ "." +:+ Fmt.str (f + 1) +:+ "/16")] |}
         ∈ nodes t
     ∧ (∃ nd, NetOps.lookup_node (Addr.host_name 2 ls f) (net w') = Some nd
            ∧ MAC nd = "00:04:00:00:" +:+ Fmt.format_02x ls +:+ ":" +:+ Fmt.format_02x (f + 1))
     ∧ String.length (Fmt.format_02x ls) = 2%nat
     ∧ String.length (Fmt.format_02x (f + 1)) = 2%nat)
  ∧ (∀ ls f ls' f', 0 <= ls < 2 → 0 <= f < 2 →
       0 <= ls' < 2 → 0 <= f' < 2 → (ls, f) ≠ (ls', f') →
       Addr.host_name 2 ls f ≠ Addr.host_name 2 ls' f'
     ∧ Addr.host_ip ls f ≠ Addr.host_ip ls' f'
     ∧ Addr.host_mac ls f ≠ Addr.host_mac ls' f').
Proof.
  apply (host_addresses 2 2 2 {| net := scenario_net; calls := [] |});
    [lia | lia | exact scenario_net_hosts_present].
Defined.

(* ===================================================================== *)
(** ** Flood control *)
(* ===================================================================== *)

(** C3. On a fabric with spine >= 1 and leaf >= 1, [configMulticast]
    succeeds and, for every leaf switch, issues the noflood command for
    exactly the ports 2..spine, in that order: among the uplink ports
    1..spine the command is issued for every port but port 1.  Every leaf
    and every spine switch receives exactly one flow, the flood rule on the
    multicast bit of the destination address, and no spine port is touched.
    With spine = 1 no noflood command is issued and the flood rule is
    installed all the same. *)
Theorem flood_control (spine leaf fanout : Z) (nt : Net) :
  1 <= spine → 1 <= leaf →
  ∃ w', configMulticast spine leaf fanout {| net := nt; calls := [] |} = Ok (tt, w')
  ∧ (∀ ls, 0 <= ls < leaf →
       Rules.sent_to "mod-port" (Addr.leaf_name spine ls) (calls w')
         = map (fun p => [Fmt.str p; "noflood"]) (range2 2 (spine + 1))
     ∧ (∀ p, 1 <= p <= spine →
          [Fmt.str p; "noflood"] ∈ Rules.sent_to "mod-port" (Addr.leaf_name spine ls) (calls w')
          ↔ p ≠ 1)
     ∧ Rules.sent_to "add-flow" (Addr.leaf_name spine ls) (calls w')
         = [["dl_dst=01:00:00:00:00:00/01:00:00:00:00:00 priority=400 actions=flood"]])
  ∧ (∀ s, 0 <= s < spine →
       Rules.sent_to "mod-port" (Addr.spine_name s) (calls w') = []
     ∧ Rules.sent_to "add-flow" (Addr.spine_name s) (calls w')
         = [["dl_dst=01:00:00:00:00:00/01:00:00:00:00:00 priority=400 actions=flood"]])
  ∧ (spine = 1 → ∀ ls, 0 <= ls < leaf →
       Rules.sent_to "mod-port" (Addr.leaf_name spine ls) (calls w') = []
     ∧ Rules.sent_to "add-flow" (Addr.leaf_name spine ls) (calls w')
         = [["dl_dst=01:00:00:00:00:00/01:00:00:00:00:00 priority=400 actions=flood"]]).
Proof.
  intros Hs Hl. eexists. split; [apply configMulticast_run|].
  cbn [calls app]. split; [|split].
  - intros ls Hls. rewrite modport_leaf, addflow_leaf by done.
    split; [done|]. split; [|done].
    intros p Hp. rewrite list_elem_of_fmap. split.
    + intros (q & E & Hq). apply range2_spec in Hq.
      injection E as E. apply str_inj in E. lia.
    + intros Hne. exists p. split; [done|]. apply range2_spec. lia.
  - intros s Hsr. by rewrite modport_spine, addflow_spine.
  - intros -> ls Hls. by rewrite modport_leaf, addflow_leaf.
Qed.

Lemma flood_control_witness :
  ∃ w', configMulticast 2 2 2 {| net := scenario_net; calls := [] |} = Ok (tt, w')
  ∧ (∀ ls, 0 <= ls < 2 →
       Rules.sent_to "mod-port" (Addr.leaf_name 2 ls) (calls w')
         = map (fun p => [Fmt.str p; "noflood"]) (range2 2 (2 + 1))
     ∧ (∀ p, 1 <= p <= 2 →
          [Fmt.str p; "noflood"] ∈ Rules.sent_to "mod-port" (Addr.leaf_name 2 ls) (calls w')
          ↔ p ≠ 1)
     ∧ Rules.sent_to "add-flow" (Addr.leaf_name 2 ls) (calls w')
         = [["dl_dst=01:00:00:00:00:00/01:00:00:00:00:00 priority=400 actions=flood"]])
  ∧ (∀ s, 0 <= s < 2 →
       Rules.sent_to "mod-port" (Addr.spine_name s) (calls w') = []
     ∧ Rules.sent_to "add-flow" (Addr.spine_name s) (calls w')
         = [["dl_dst=01:00:00:00:00:00/01:00:00:00:00:00 priority=400 actions=flood"]])
  ∧ (2 = 1 → ∀ ls, 0 <= ls < 2 →
       Rules.sent_to "mod-port" (Addr.leaf_name 2 ls) (calls w') = []
     ∧ Rules.sent_to "add-flow" (Addr.leaf_name 2 ls) (calls w')
         = [["dl_dst=01:00:00:00:00:00/01:00:00:00:00:00 priority=400 actions=flood"]]).
Proof. apply (flood_control 2 2 2 scenario_net); lia. Defined.

(* ===================================================================== *)
(** ** Unicast and multipath rules *)
(* ===================================================================== *)

(** C4 as stated fails: in the scenario spine = 2, leaf = 2, fanout = 2 the
    leaf switch s3 is sent two exact-match host rules and two multipath
    commands, not one. *)
Lemma multipath_rule_sent_once_per_host :
  ∃ w', configUnicast 2 2 2 {| net := scenario_net; calls := [] |} = Ok (tt, w')
  ∧ length (Rules.flows_with "dl_dst=" "s3" (calls w')) = 2%nat
  ∧ length (Rules.flows_with "priority=300" "s3" (calls w')) = 2%nat
  ∧ length (Rules.flows_with "priority=300" "s3" (calls w')) ≠ 1%nat.
Proof. eexists. split; [vm_compute; reflexivity|]. vm_compute. by repeat split. Qed.

(** C4, amended. On a fabric with spine >= 1, for every leaf switch the
    synthesizer issues the multipath command once for every host of the
    leaf, fanout times in all, each time the same rule: priority 300, basis
    ls + 1, members the uplink ports 1..spine; next to them the leaf gets one
    exact-match rule per host.  With spine = 1 the rule is issued with the
    single member 1. *)
Theorem multipath_rule_per_leaf (spine leaf fanout : Z) (w : World) :
  1 <= spine → calls w = [] → Rules.hosts_present leaf fanout (net w) →
  ∃ w', configUnicast spine leaf fanout w = Ok (tt, w')
  ∧ (∀ ls, 0 <= ls < leaf →
       Rules.flows_with "priority=300" (Addr.leaf_name spine ls) (calls w')
         = repeat ["priority=300 actions=bundle(symmetric_l4," +:+ Fmt.str (ls + 1)
                     +:+ ",hrw,ofport,slaves:"
                     +:+ Fmt.join "," (map Fmt.str (range2 1 (spine + 1)))]
                  (Z.to_nat fanout)
     ∧ Rules.flows_with "dl_dst=" (Addr.leaf_name spine ls) (calls w')
         = map (fun f => [Rules.local_flow spine ls f]) (range fanout))
  ∧ (spine = 1 → slaves spine = "1").
Proof.
  intros Hs Hc Hp. eexists. split; [by apply configUnicast_run|].
  rewrite Hc. cbn [calls app]. split; [|by intros ->].
  intros ls Hls. unfold Rules.flows_with.
  rewrite addflow_leaf_unicast by done. split.
  - rewrite multipath_flows. unfold Rules.multipath_flow.
    by rewrite slaves_join.
  - apply local_flows.
Qed.

Lemma multipath_rule_per_leaf_witness :
  ∃ w', configUnicast 2 2 2 {| net := scenario_net; calls := [] |} = Ok (tt, w')
  ∧ (∀ ls, 0 <= ls < 2 →
       Rules.flows_with "priority=300" (Addr.leaf_name 2 ls) (calls w')
         = repeat ["priority=300 actions=bundle(symmetric_l4," +:+ Fmt.str (ls + 1)
                     +:+ ",hrw,ofport,slaves:"
                     +:+ Fmt.join "," (map Fmt.str (range2 1 (2 + 1)))]
                  (Z.to_nat 2)
     ∧ Rules.flows_with "dl_dst=" (Addr.leaf_name 2 ls) (calls w')
         = map (fun f => [Rules.local_flow 2 ls f]) (range 2))
  ∧ (2 = 1 → slaves 2 = "1").
Proof.
  apply (multipath_rule_per_leaf 2 2 2 {| net := scenario_net; calls := [] |});
    [lia | reflexivity | exact scenario_net_hosts_present].
Defined.

Section RuleFacts.
Import Fmt Addr Rules.

Lemma host_calls_in spine leaf fanout ls f c :
  0 <= ls < leaf → 0 <= f < fanout →
  In c (host_calls spine ls f) → c ∈ unicast_calls spine leaf fanout.
Proof.
  intros Hls Hf Hc. unfold unicast_calls. apply list_elem_of_In, in_flat_map.
  exists ls. split; [by apply list_elem_of_In, range_spec|].
  apply in_flat_map. exists f. split; [by apply list_elem_of_In, range_spec|done].
Qed.

Lemma leaf_port_of_host spine fanout ls f p :
  0 <= f < fanout →
  (p, host_name fanout ls f) ∈ Fabric.leaf_ports spine fanout ls →
  p = Z.max 0 spine + f + 1.
Proof.
  intros Hf. unfold Fabric.leaf_ports. rewrite elem_of_app, !list_elem_of_fmap.
  intros [(s & E & _)|(g & E & Hg)].
  - by injection E.
  - apply range_spec in Hg. injection E as -> E. apply str_inj in E.
    by replace g with f by lia.
Qed.

Lemma spine_port_of_leaf spine k ls p :
  (p, leaf_name spine ls) ∈ Fabric.spine_ports spine k → p = ls + 1.
Proof.
  unfold Fabric.spine_ports. rewrite list_elem_of_fmap.
  intros (b & E & _). injection E as -> E. apply str_inj in E. lia.
Qed.

Lemma host_mac_assigned leaf fanout ls f nt :
  0 <= ls < leaf → 0 <= f < fanout → hosts_present leaf fanout nt →
  ∃ nd, NetOps.lookup_node (host_name fanout ls f)
          (assign_macs (mac_table leaf fanout) nt) = Some nd
      ∧ MAC nd = host_mac ls f.
Proof.
  intros Hls Hf Hp. rewrite lookup_assign_macs.
  destruct (Hp ls f Hls Hf) as [nd Hnd]. rewrite Hnd. cbn.
  eexists. split; [done|].
  rewrite (retag_hit _ _ (host_mac ls f)); [done|apply mac_table_NoDup; lia|].
  rewrite (lookup_node_name _ _ _ Hnd). by apply mac_table_elem.
Qed.

End RuleFacts.

(** C5. On a fabric with spine >= 1, for every leaf switch and every host
    attached to it at host index f, the unicast synthesizer sends that leaf
    switch an exact-match rule on the destination MAC it has just assigned to
    the host, at priority 500, with the action output on port spine + f + 1;
    in the built topology that is the port, and the only port, of the leaf
    switch whose link goes to this host. *)
Theorem local_host_rule (spine leaf fanout : Z) (w : World) :
  1 <= spine → Rules.hosts_present leaf fanout (net w) →
  ∃ t w', LeafAndSpine.new spine leaf fanout = Ok t
  ∧ configUnicast spine leaf fanout w = Ok (tt, w')
  ∧ ∀ ls f, 0 <= ls < leaf → 0 <= f < fanout →
      ["ovs-ofctl"; "add-flow"; Addr.leaf_name spine ls;
       "dl_dst=" +:+ Addr.host_mac ls f +:+ " priority=500 actions=output:"
         +:+ Fmt.str (spine + f + 1)] ∈ calls w'
    ∧ (∃ nd, NetOps.lookup_node (Addr.host_name fanout ls f) (net w') = Some nd
           ∧ MAC nd = Addr.host_mac ls f)
    ∧ (spine + f + 1, Addr.host_name fanout ls f)
        ∈ ports_of (Addr.leaf_name spine ls) (links t)
    ∧ (∀ p, (p, Addr.host_name fanout ls f)
              ∈ ports_of (Addr.leaf_name spine ls) (links t) → p = spine + f + 1).
Proof.
  intros Hs Hp. exists (Fabric.fabric spine leaf fanout). eexists.
  split; [apply new_fabric|]. split; [by apply configUnicast_run|].
  intros ls f Hls Hf. cbn [net calls].
  unfold Fabric.fabric. rewrite ports_leaf_upto by lia.
  destruct (Z.ltb_spec ls leaf); [|lia].
  split; [|split; [|split]].
  - apply elem_of_app. right. apply (host_calls_in _ _ _ ls f); [done..|].
    left. unfold Rules.local_rule, Rules.local_flow.
    by replace (f + 1 + spine) with (spine + f + 1) by lia.
  - by apply host_mac_assigned.
  - unfold Fabric.leaf_ports. apply elem_of_app. right.
    apply list_elem_of_fmap. exists f. split; [f_equal; lia|].
    by apply range_spec.
  - intros p Hin. apply leaf_port_of_host in Hin; lia.
Qed.

Lemma local_host_rule_witness :
  ∃ t w', LeafAndSpine.new 2 2 2 = Ok t
  ∧ configUnicast 2 2 2 {| net := scenario_net; calls := [] |} = Ok (tt, w')
  ∧ ∀ ls f, 0 <= ls < 2 → 0 <= f < 2 →
      ["ovs-ofctl"; "add-flow"; Addr.leaf_name 2 ls;
       "dl_dst=" +:+ Addr.host_mac ls f +:+ " priority=500 actions=output:"
         +:+ Fmt.str (2 + f + 1)] ∈ calls w'
    ∧ (∃ nd, NetOps.lookup_node (Addr.host_name 2 ls f) (net w') = Some nd
           ∧ MAC nd = Addr.host_mac ls f)
    ∧ (2 + f + 1, Addr.host_name 2 ls f)
        ∈ ports_of (Addr.leaf_name 2 ls) (links t)
    ∧ (∀ p, (p, Addr.host_name 2 ls f)
              ∈ ports_of (Addr.leaf_name 2 ls) (links t) → p = 2 + f + 1).
Proof.
  apply (local_host_rule 2 2 2 {| net := scenario_net; calls := [] |});
    [lia | exact scenario_net_hosts_present].
Defined.

(** C6. On a fabric with spine >= 1, for every host, at leaf index ls and
    host index f, and for every spine switch, the unicast synthesizer sends
    that spine switch an exact-match rule on the host's MAC at priority 500
    with the action output on port ls + 1; in the built topology that is the
    port, and the only port, of the spine switch whose link goes to leaf
    switch ls, the spine's ports being allocated to the leaves in leaf-index
    order. *)
Theorem spine_host_rule (spine leaf fanout : Z) (w : World) :
  1 <= spine → Rules.hosts_present leaf fanout (net w) →
  ∃ t w', LeafAndSpine.new spine leaf fanout = Ok t
  ∧ configUnicast spine leaf fanout w = Ok (tt, w')
  ∧ (∀ s, 0 <= s < spine →
       ports_of (Addr.spine_name s) (links t)
       = map (fun ls => (ls + 1, Addr.leaf_name spine ls)) (range leaf))
  ∧ ∀ ls f s, 0 <= ls < leaf → 0 <= f < fanout → 0 <= s < spine →
      ["ovs-ofctl"; "add-flow"; Addr.spine_name s;
       "dl_dst=" +:+ Addr.host_mac ls f +:+ " priority=500 actions=output:"
         +:+ Fmt.str (ls + 1)] ∈ calls w'
    ∧ (∃ nd, NetOps.lookup_node (Addr.host_name fanout ls f) (net w') = Some nd
           ∧ MAC nd = Addr.host_mac ls f)
    ∧ (ls + 1, Addr.leaf_name spine ls) ∈ ports_of (Addr.spine_name s) (links t)
    ∧ (∀ p, (p, Addr.leaf_name spine ls)
              ∈ ports_of (Addr.spine_name s) (links t) → p = ls + 1).
Proof.
  intros Hs Hp. exists (Fabric.fabric spine leaf fanout). eexists.
  split; [apply new_fabric|]. split; [by apply configUnicast_run|].
  split. { intros s Hsr. unfold Fabric.fabric. by rewrite ports_spine_upto. }
  intros ls f s Hls Hf Hsr. cbn [net calls].
  unfold Fabric.fabric. rewrite ports_spine_upto by lia.
  split; [|split; [|split]].
  - apply elem_of_app. right. apply (host_calls_in _ _ _ ls f); [done..|].
    right. right. apply in_map_iff. exists s. split; [done|].
    by apply list_elem_of_In, range_spec.
  - by apply host_mac_assigned.
  - unfold Fabric.spine_ports. apply list_elem_of_fmap. exists ls.
    split; [done|]. by apply range_spec.
  - intros p Hin. by apply spine_port_of_leaf in Hin.
Qed.

Lemma spine_host_rule_witness :
  ∃ t w', LeafAndSpine.new 2 2 2 = Ok t
  ∧ configUnicast 2 2 2 {| net := scenario_net; calls := [] |} = Ok (tt, w')
  ∧ (∀ s, 0 <= s < 2 →
       ports_of (Addr.spine_name s) (links t)
       = map (fun ls => (ls + 1, Addr.leaf_name 2 ls)) (range 2))
  ∧ ∀ ls f s, 0 <= ls < 2 → 0 <= f < 2 → 0 <= s < 2 →
      ["ovs-ofctl"; "add-flow"; Addr.spine_name s;
       "dl_dst=" +:+ Addr.host_mac ls f +:+ " priority=500 actions=output:"
         +:+ Fmt.str (ls + 1)] ∈ calls w'
    ∧ (∃ nd, NetOps.lookup_node (Addr.host_name 2 ls f) (net w') = Some nd
           ∧ MAC nd = Addr.host_mac ls f)
    ∧ (ls + 1, Addr.leaf_name 2 ls) ∈ ports_of (Addr.spine_name s) (links t)
    ∧ (∀ p, (p, Addr.leaf_name 2 ls)
              ∈ ports_of (Addr.spine_name s) (links t) → p = ls + 1).
Proof.
  apply (spine_host_rule 2 2 2 {| net := scenario_net; calls := [] |});
    [lia | exact scenario_net_hosts_present].
Defined.

(* ===================================================================== *)
(** ** What the synthesizers leave unchanged *)
(* ===================================================================== *)

(** C10 as stated fails: running the unicast synthesizer on the deployed
    one-host fabric changes a field of a host, its MAC address. *)
Lemma unicast_overwrites_host_mac :
  ∃ w', configUnicast 1 1 1 {| net := small_net; calls := [] |} = Ok (tt, w')
  ∧ map MAC (net_hosts small_net) = ["7a:31:9c:00:5e:01"]
  ∧ map MAC (net_hosts (net w')) = ["00:04:00:00:00:01"]
  ∧ net w' ≠ small_net.
Proof.
  eexists. split; [vm_compute; reflexivity|].
  split; [reflexivity|]. split; [reflexivity|].
  cbn [net]. intros E. discriminate E.
Qed.

Lemma Forall2_retag tbl (l : list Node) :
  Forall2 Rules.same_but_MAC l (map (Rules.retag tbl) l).
Proof.
  induction l as [|nd l IH]; cbn [map]; constructor; [|done].
  apply retag_fields.
Qed.

(** C10, amended. The flood-control synthesizer leaves the network object
    exactly as it was.  The unicast synthesizer, run on a network that has
    the hosts of the fabric, leaves every link unchanged and every host and
    switch unchanged in name, dpid and IP address; it overwrites the MAC
    address of each fabric host with the address of the scheme, and a node
    whose name is not the name of a fabric host keeps its MAC too.  (The
    exporter receives the network and returns a snapshot: the edge tag is a
    field of the snapshot's node record, see [Dump.set_tag].) *)
Theorem synthesizers_frame (spine leaf fanout : Z) (w : World) :
  0 <= leaf → 0 <= fanout → Rules.hosts_present leaf fanout (net w) →
  (∃ w1, configMulticast spine leaf fanout w = Ok (tt, w1) ∧ net w1 = net w)
  ∧ ∃ w2, configUnicast spine leaf fanout w = Ok (tt, w2)
    ∧ net_links (net w2) = net_links (net w)
    ∧ Forall2 Rules.same_but_MAC (net_hosts (net w)) (net_hosts (net w2))
    ∧ Forall2 Rules.same_but_MAC (net_switches (net w)) (net_switches (net w2))
    ∧ (∀ n nd, NetOps.lookup_node n (net w) = Some nd →
         n ∉ hosts (Fabric.fabric spine leaf fanout) →
         NetOps.lookup_node n (net w2) = Some nd)
    ∧ (∀ ls f, 0 <= ls < leaf → 0 <= f < fanout →
         ∃ nd, NetOps.lookup_node (Addr.host_name fanout ls f) (net w2) = Some nd
             ∧ MAC nd = Addr.host_mac ls f).
Proof.
  intros Hl Hf Hp. split.
  { eexists. split; [apply configMulticast_run|done]. }
  eexists. split; [by apply configUnicast_run|]. cbn [net].
  rewrite assign_macs_retag. cbn [net_links net_hosts net_switches].
  split; [done|]. split; [apply Forall2_retag|]. split; [apply Forall2_retag|].
  rewrite <- assign_macs_retag. split.
  - intros n nd Hn Hout. rewrite lookup_assign_macs, Hn. cbn. f_equal.
    apply retag_other. rewrite (lookup_node_name _ _ _ Hn).
    by rewrite mac_table_names, <- (hosts_fabric spine fanout leaf).
  - intros ls f Hls Hfr. by apply host_mac_assigned.
Qed.

Lemma synthesizers_frame_witness :
  (∃ w1, configMulticast 2 2 2 {| net := scenario_net; calls := [] |} = Ok (tt, w1)
         ∧ net w1 = scenario_net)
  ∧ ∃ w2, configUnicast 2 2 2 {| net := scenario_net; calls := [] |} = Ok (tt, w2)
    ∧ net_links (net w2) = net_links scenario_net
    ∧ Forall2 Rules.same_but_MAC (net_hosts scenario_net) (net_hosts (net w2))
    ∧ Forall2 Rules.same_but_MAC (net_switches scenario_net) (net_switches (net w2))
    ∧ (∀ n nd, NetOps.lookup_node n scenario_net = Some nd →
         n ∉ hosts (Fabric.fabric 2 2 2) →
         NetOps.lookup_node n (net w2) = Some nd)
    ∧ (∀ ls f, 0 <= ls < 2 → 0 <= f < 2 →
         ∃ nd, NetOps.lookup_node (Addr.host_name 2 ls f) (net w2) = Some nd
             ∧ MAC nd = Addr.host_mac ls f).
Proof.
  apply (synthesizers_frame 2 2 2 {| net := scenario_net; calls := [] |});
    [lia | lia | exact scenario_net_hosts_present].
Defined.

(* ===================================================================== *)
(** ** Loops that may fail *)
(* ===================================================================== *)

Section LoopsOk.
Context {St : Type}.

Lemma bind_inv {A B} (m : M St A) (k : A → M St B) st r :
  (m ≫= k) st = Ok r → ∃ a st1, m st = Ok (a, st1) ∧ k a st1 = Ok r.
Proof.
  unfold mbind, M_bind. destruct (m st) as [[a st1]|e]; [|done].
  intros H. by exists a, st1.
Qed.

(** A property kept by every successful pass holds after a successful loop. *)
Lemma for_inv_ok {X} (J : St → Prop) (xs : list X) (body : X → M St unit) st st' :
  (∀ x st1 st2, In x xs → J st1 → body x st1 = Ok (tt, st2) → J st2) →
  J st → for_ xs body st = Ok (tt, st') → J st'.
Proof.
  revert st. induction xs as [|x xs IH]; intros st Hstep HJ Hrun.
  - by injection Hrun as <-.
  - cbn [for_] in Hrun. apply bind_inv in Hrun as ([] & st1 & H1 & H2).
    apply (IH st1); [| |done].
    + intros y s1 s2 Hy. apply Hstep. by right.
    + apply (Hstep x st); [by left|done|done].
Qed.

(** In a successful loop every pass was successful, from a state with the
    kept property. *)
Lemma for_ok_elem {X} (J : St → Prop) (xs : list X) (body : X → M St unit) st st' x :
  (∀ y st1 st2, In y xs → J st1 → body y st1 = Ok (tt, st2) → J st2) →
  J st → for_ xs body st = Ok (tt, st') → In x xs →
  ∃ st1 st2, J st1 ∧ body x st1 = Ok (tt, st2).
Proof.
  revert st. induction xs as [|y xs IH]; intros st Hstep HJ Hrun Hx; [done|].
  cbn [for_] in Hrun. apply bind_inv in Hrun as ([] & st1 & H1 & H2).
  destruct Hx as [->|Hx].
  - by exists st, st1.
  - apply (IH st1); [| |done|done].
    + intros z s1 s2 Hz. apply Hstep. by right.
    + apply (Hstep y st); [by left|done|done].
Qed.

(** A property of the passes made so far. *)
Lemma for_inv_prefix {X} (I : list X → St → Prop) (xs : list X)
    (body : X → M St unit) st st' :
  I [] st →
  (∀ pre x st1 st2, I pre st1 → body x st1 = Ok (tt, st2) → I (pre ++ [x]) st2) →
  for_ xs body st = Ok (tt, st') → I xs st'.
Proof.
  intros H0 Hstep.
  assert (∀ pre st, I pre st → for_ xs body st = Ok (tt, st') → I (pre ++ xs) st') as G.
  { induction xs as [|x xs IH]; intros pre s HI Hrun.
    - injection Hrun as <-. by rewrite app_nil_r.
    - cbn [for_] in Hrun. apply bind_inv in Hrun as ([] & st1 & H1 & H2).
      replace (pre ++ x :: xs) with ((pre ++ [x]) ++ xs) by (by rewrite <- app_assoc).
      apply (IH _ st1); [|done]. by apply (Hstep pre x s). }
  apply (G [] st H0).
Qed.

Lemma for_app_run {X} (xs ys : list X) (body : X → M St unit) st :
  for_ (xs ++ ys) body st = (for_ xs body ;; for_ ys body) st.
Proof.
  revert st. induction xs as [|x xs IH]; intros st; [done|].
  cbn [app for_]. unfold mbind, M_bind.
  destruct (body x st) as [[[] st1]|e]; [|done]. rewrite IH.
  reflexivity.
Qed.

(** A loop inside a loop is one loop over the pairs. *)
Lemma for_nested {X Y} (xs : list X) (ys : list Y) (body : X → Y → M St unit) st :
  for_ xs (fun x => for_ ys (body x)) st
  = for_ (flat_map (fun x => map (pair x) ys) xs) (fun pr => body pr.1 pr.2) st.
Proof.
  revert st. induction xs as [|x xs IH]; intros st; [done|].
  cbn [for_ flat_map]. rewrite for_app_run. unfold mbind, M_bind.
  assert (∀ s, for_ ys (body x) s = for_ (map (pair x) ys) (fun pr => body pr.1 pr.2) s) as Hys.
  { clear. induction ys as [|y ys IHy]; intros s; [done|].
    cbn [map for_]. unfold mbind, M_bind. cbn [fst snd].
    destruct (body x y s) as [[[] s1]|e]; [|done]. apply IHy. }
  rewrite Hys.
  destruct (for_ (map (pair x) ys) _ st) as [[[] st1]|e]; [|done]. apply IH.
Qed.

End LoopsOk.

(* ===================================================================== *)
(** ** The exporter *)
(* ===================================================================== *)

Section Exporter.
Import Dump.

Lemma node_rec_ok k td r td' :
  node_rec k td = Ok (r, td') → td' = td ∧ td_nodes td !! k = Some r.
Proof.
  unfold node_rec. destruct (td_nodes td !! k) as [r0|]; [|done].
  intros E. by injection E as <- <-.
Qed.

Lemma ifindex_of_ok sw intf td x td' :
  ifindex_of sw intf td = Ok (x, td') →
  td' = td ∧ ∃ r, td_nodes td !! sw = Some r ∧ is_Some (rec_ports r !! intf).
Proof.
  unfold ifindex_of. intros H. apply bind_inv in H as (r & td1 & H1 & H2).
  apply node_rec_ok in H1 as [-> Hr].
  destruct (rec_ports r !! intf) as [pr|] eqn:Hp; [|done].
  injection H2 as <- <-. split; [done|]. exists r. by rewrite Hp.
Qed.

Lemma set_port_ok sw child ifx td td' :
  set_port sw child ifx td = Ok (tt, td') →
  ∃ r, td_nodes td !! sw = Some r
     ∧ td_links td' = td_links td
     ∧ td_nodes td'
       = <[sw := {| rec_name := rec_name r; rec_dpid := rec_dpid r;
                    rec_ports := <[child := {| port_name := child; port_ifindex := ifx |}]>
                                   (rec_ports r);
                    rec_agent := rec_agent r; rec_tag := rec_tag r |}]> (td_nodes td).
Proof.
  unfold set_port. intros H. apply bind_inv in H as (r & td1 & H1 & H2).
  apply node_rec_ok in H1 as [-> Hr]. exists r. injection H2 as <-. done.
Qed.

Lemma set_tag_ok sw tag td td' :
  set_tag sw tag td = Ok (tt, td') →
  ∃ r, td_nodes td !! sw = Some r
     ∧ td_nodes td'
       = <[sw := {| rec_name := rec_name r; rec_dpid := rec_dpid r;
                    rec_ports := rec_ports r;
                    rec_agent := rec_agent r; rec_tag := Some tag |}]> (td_nodes td).
Proof.
  unfold set_tag. intros H. apply bind_inv in H as (r & td1 & H1 & H2).
  apply node_rec_ok in H1 as [-> Hr]. exists r. injection H2 as <-. done.
Qed.

(** *** First loop *)

Lemma init_nodes_post nt agent td :
  init_nodes nt agent {| td_nodes := ∅; td_links := ∅ |} = Ok (tt, td) →
  covers (map name (net_switches nt)) td ∧ untagged td ∧ portless td.
Proof.
  intros H.
  apply (for_inv_prefix
           (fun pre td => covers (map name pre) td ∧ untagged td ∧ portless td)) in H;
    [done| |].
  - split; [|split].
    + intros k Hk. by apply elem_of_nil in Hk.
    + intros k r Hr. cbn [td_nodes] in Hr. by rewrite lookup_empty in Hr.
    + intros k r Hr. cbn [td_nodes] in Hr. by rewrite lookup_empty in Hr.
  - intros pre s td1 td2 (Hc & Hu & Hp) E. injection E as <-.
    split; [|split].
    + intros k Hk. cbn [td_nodes]. rewrite map_app in Hk.
      apply elem_of_app in Hk as [Hk|Hk].
      * destruct (decide (name s = k)) as [->|Hne].
        -- rewrite lookup_insert_eq. by eexists.
        -- rewrite lookup_insert_ne by done. by apply Hc.
      * apply list_elem_of_singleton in Hk as ->. rewrite lookup_insert_eq. by eexists.
    + intros k r. cbn [td_nodes]. destruct (decide (name s = k)) as [->|Hne].
      * rewrite lookup_insert_eq. by intros [= <-].
      * rewrite lookup_insert_ne by done. apply Hu.
    + intros k r. cbn [td_nodes]. destruct (decide (name s = k)) as [->|Hne].
      * rewrite lookup_insert_eq. by intros [= <-].
      * rewrite lookup_insert_ne by done. apply Hp.
Qed.

(** *** Second loop *)

Lemma scan_ports_post names sysfs td td' :
  covers names td → untagged td → portless td →
  scan_ports sysfs td = Ok (tt, td') → scanned names sysfs td'.
Proof.
  intros Hc Hu Hp H. unfold scan_ports in H. cbv zeta in H.
  apply (for_inv_ok (scanned names sysfs)) in H; [done| |].
  - intros e td1 td2 He (Hc1 & Hu1 & Hl1) E.
    destruct (match_switch_intf e.1) as [g|] eqn:Hm.
    2:{ by injection E as <-. }
    apply bind_inv in E as (text & td3 & Hread & E).
    assert (td3 = td1) as ->.
    { unfold read_file in Hread. destruct e.2; [|done]. by injection Hread. }
    apply set_port_ok in E as (r & Hr & _ & Hn). split; [|split].
    + intros k Hk. rewrite Hn. destruct (decide (g = k)) as [->|Hne].
      * rewrite lookup_insert_eq. by eexists.
      * rewrite lookup_insert_ne by done. by apply Hc1.
    + intros k r'. rewrite Hn. destruct (decide (g = k)) as [->|Hne].
      * rewrite lookup_insert_eq. intros [= <-]. cbn. by apply (Hu1 k).
      * rewrite lookup_insert_ne by done. apply Hu1.
    + intros k r' p. rewrite Hn. destruct (decide (g = k)) as [->|Hne].
      * rewrite lookup_insert_eq. intros [= <-]. cbn [rec_ports].
        destruct (decide (e.1 = p)) as [<-|Hnp].
        -- intros _. exists e. split; [by apply list_elem_of_In|done].
        -- rewrite lookup_insert_ne by done. by apply Hl1.
      * rewrite lookup_insert_ne by done. apply Hl1.
  - split; [done|]. split; [done|].
    intros k r p Hr Hsome. rewrite (Hp k r Hr), lookup_empty in Hsome.
    by destruct Hsome.
Qed.

(** *** Third loop: it leaves the node records alone *)

Lemma link_step_nodes (J : TopoData → Prop) n1 n2 (intf : string * string) td td' :
  (∀ td1 td2, td_nodes td2 = td_nodes td1 → J td1 → J td2) →
  J td →
  (s1ifIdx ← ifindex_of n1 intf.1;
   s2ifIdx ← ifindex_of n2 intf.2;
   set_link_rec (n1 +:+ "-" +:+ n2)
     {| rec_node1 := n1; rec_port1 := intf.1; rec_ifindex1 := s1ifIdx;
        rec_node2 := n2; rec_port2 := intf.2; rec_ifindex2 := s2ifIdx |}) td
  = Ok (tt, td') →
  J td'.
Proof.
  intros HJ Htd H.
  apply bind_inv in H as (x1 & td1 & H1 & H).
  apply ifindex_of_ok in H1 as [-> _].
  apply bind_inv in H as (x2 & td2 & H2 & H).
  apply ifindex_of_ok in H2 as [-> _].
  injection H as <-. by apply (HJ td).
Qed.

Lemma scan_links_inner_keeps (J : TopoData → Prop) nt (is1 js2 : nat * Node) td td' :
  (∀ td1 td2, td_nodes td2 = td_nodes td1 → J td1 → J td2) →
  J td →
  (if (is1.1 <? js2.1)%nat
   then for_ (NetOps.connectionsTo nt (name is1.2) (name js2.2)) (fun intf =>
          s1ifIdx ← ifindex_of (name is1.2) intf.1;
          s2ifIdx ← ifindex_of (name js2.2) intf.2;
          set_link_rec (name is1.2 +:+ "-" +:+ name js2.2)
            {| rec_node1 := name is1.2; rec_port1 := intf.1; rec_ifindex1 := s1ifIdx;
               rec_node2 := name js2.2; rec_port2 := intf.2; rec_ifindex2 := s2ifIdx |})
   else mret tt) td = Ok (tt, td') →
  J td'.
Proof.
  intros HJ Htd H. destruct (is1.1 <? js2.1)%nat.
  - apply (for_inv_ok J) in H; [done| |done].
    intros intf td1 td2 _ H1 E. by apply (link_step_nodes J) in E.
  - by injection H as <-.
Qed.

Lemma scan_links_keeps (J : TopoData → Prop) nt td td' :
  (∀ td1 td2, td_nodes td2 = td_nodes td1 → J td1 → J td2) →
  J td → scan_links nt td = Ok (tt, td') → J td'.
Proof.
  intros HJ Htd H. unfold scan_links in H. cbv zeta in H.
  apply (for_inv_ok J) in H; [done| |done].
  intros is1 td1 td2 _ H1 E.
  apply (for_inv_ok J) in E; [done| |done].
  intros js2 td3 td4 _ H3 E'. by apply (scan_links_inner_keeps J) in E'.
Qed.

Lemma scanned_nodes names sysfs td1 td2 :
  td_nodes td2 = td_nodes td1 → scanned names sysfs td1 → scanned names sysfs td2.
Proof.
  intros E (Hc & Hu & Hl). unfold scanned, covers, untagged, ports_listed.
  rewrite E. done.
Qed.

(** *** Fourth loop *)

Lemma tag_step nt names pairs (h s : Node) td td' :
  covers names td → tagged_by nt pairs td →
  match NetOps.connectionsTo nt (name h) (name s) with
  | [] => mret tt
  | _ :: _ => set_tag (name s) "edge"
  end td = Ok (tt, td') →
  covers names td' ∧ tagged_by nt (pairs ++ [(h, s)]) td'.
Proof.
  intros Hc Ht H.
  destruct (NetOps.connectionsTo nt (name h) (name s)) as [|c cs] eqn:Hconn.
  - injection H as <-. split; [done|].
    intros k r Hr. destruct (Ht k r Hr) as [Hcases Hiff]. split; [done|].
    rewrite Hiff. split.
    + intros (pr & Hin & Hn & Hne). exists pr. split; [|done].
      apply elem_of_app. by left.
    + intros (pr & Hin & Hn & Hne). apply elem_of_app in Hin as [Hin|Hin].
      * by exists pr.
      * apply list_elem_of_singleton in Hin as ->. cbn [fst snd] in *.
        subst k. by rewrite Hconn in Hne.
  - apply set_tag_ok in H as (r0 & Hr0 & Hn). split.
    + intros k Hk. rewrite Hn. destruct (decide (name s = k)) as [->|Hne].
      * rewrite lookup_insert_eq. by eexists.
      * rewrite lookup_insert_ne by done. by apply Hc.
    + intros k r. rewrite Hn. destruct (decide (name s = k)) as [<-|Hne].
      * rewrite lookup_insert_eq. intros [= <-]. cbn [rec_tag].
        split; [by right|]. split; [|done]. intros _.
        exists (h, s). split; [apply elem_of_app; right; by apply list_elem_of_singleton|].
        split; [done|]. cbn [fst]. by rewrite Hconn.
      * rewrite lookup_insert_ne by done. intros Hr.
        destruct (Ht k r Hr) as [Hcases Hiff]. split; [done|].
        rewrite Hiff. split.
        -- intros (pr & Hin & Hk & Hc'). exists pr. split; [|done].
           apply elem_of_app. by left.
        -- intros (pr & Hin & Hk & Hc'). apply elem_of_app in Hin as [Hin|Hin].
           ++ by exists pr.
           ++ apply list_elem_of_singleton in Hin as ->. by cbn [snd] in Hk.
Qed.

Lemma tag_edges_post nt names td td' :
  covers names td → untagged td →
  tag_edges nt td = Ok (tt, td') →
  covers names td'
  ∧ tagged_by nt (flat_map (fun h => map (pair h) (net_switches nt)) (net_hosts nt)) td'.
Proof.
  intros Hc Hu H. unfold tag_edges in H. cbv zeta in H.
  rewrite (for_nested (net_hosts nt) (net_switches nt)
             (fun h s => match NetOps.connectionsTo nt (name h) (name s) with
                         | [] => mret tt
                         | _ :: _ => set_tag (name s) "edge"
                         end)) in H.
  apply (for_inv_prefix (fun pre td => covers names td ∧ tagged_by nt pre td)) in H;
    [done| |].
  - split; [done|]. intros k r Hr. rewrite (Hu k r Hr). split; [by left|].
    split; [done|]. intros (pr & Hin & _). by apply elem_of_nil in Hin.
  - intros pre [h s] td1 td2 [Hc1 Ht1] E. by apply (tag_step nt names pre h s td1).
Qed.

(** A successful export went through its four loops. *)
Lemma dump_phases nt sysfs agent td :
  dumpTopology nt sysfs agent = Ok td →
  ∃ td1 td2 td3,
    init_nodes nt agent {| td_nodes := ∅; td_links := ∅ |} = Ok (tt, td1)
  ∧ scan_ports sysfs td1 = Ok (tt, td2)
  ∧ scan_links nt td2 = Ok (tt, td3)
  ∧ tag_edges nt td3 = Ok (tt, td).
Proof.
  unfold dumpTopology. destruct (fill _ _ _ _) as [[[] td']|e] eqn:H; [|done].
  intros [= <-]. unfold fill in H.
  apply bind_inv in H as ([] & td1 & H1 & H).
  apply bind_inv in H as ([] & td2 & H2 & H).
  apply bind_inv in H as ([] & td3 & H3 & H).
  by exists td1, td2, td3.
Qed.

Lemma enumerate_lookup {A} (l : list A) (i : nat) (x : A) :
  l !! i = Some x → In (i, x) (enumerate l).
Proof.
  unfold enumerate.
  assert (∀ a, l !! i = Some x → In ((a + i)%nat, x) (combine (seq a (length l)) l)) as G.
  { revert i. induction l as [|y l IH]; intros i a Hi; [done|].
    destruct i as [|i]; cbn [length seq combine].
    - injection Hi as ->. left. f_equal. lia.
    - right. replace (a + S i)%nat with (S a + i)%nat by lia. by apply IH. }
  apply (G 0%nat).
Qed.

End Exporter.

(** C8. In the snapshot of a successful export every switch of the network
    has a node record, and that record carries the tag edge if and only if
    some host of the network has a connection to the switch; the record of
    a switch to which no host is connected carries no tag. *)
Theorem edge_tag (nt : Net) (sysfs : list (string * option string)) (agent : string)
    (td : TopoData) :
  Dump.dumpTopology nt sysfs agent = Ok td →
  ∀ s, s ∈ net_switches nt →
    ∃ r, td_nodes td !! name s = Some r
       ∧ (rec_tag r = Some "edge"
          ↔ ∃ h, h ∈ net_hosts nt ∧ NetOps.connectionsTo nt (name h) (name s) ≠ [])
       ∧ (rec_tag r = None
          ↔ ¬ ∃ h, h ∈ net_hosts nt ∧ NetOps.connectionsTo nt (name h) (name s) ≠ []).
Proof.
  intros Hdump s Hs.
  apply dump_phases in Hdump as (td1 & td2 & td3 & H1 & H2 & H3 & H4).
  apply init_nodes_post in H1 as (Hc1 & Hu1 & Hp1).
  apply (scan_ports_post (map name (net_switches nt))) in H2; [|done..].
  apply (scan_links_keeps (Dump.scanned (map name (net_switches nt)) sysfs)) in H3;
    [|apply scanned_nodes|done].
  destruct H3 as (Hc3 & Hu3 & _).
  apply (tag_edges_post nt (map name (net_switches nt))) in H4 as [Hc4 Ht4]; [|done..].
  destruct (Hc4 (name s)) as [r Hr].
  { apply list_elem_of_fmap. by exists s. }
  exists r. split; [done|].
  destruct (Ht4 _ _ Hr) as [Hcases Hiff].
  assert (rec_tag r = Some "edge"
          ↔ ∃ h, h ∈ net_hosts nt ∧ NetOps.connectionsTo nt (name h) (name s) ≠ []) as Hedge.
  { rewrite Hiff. split.
    - intros ([h s'] & Hin & Hn & Hconn). exists h. split; [|done].
      apply list_elem_of_In, in_flat_map in Hin as (h' & Hh' & Hin).
      apply in_map_iff in Hin as (s'' & [= <- <-] & _). by apply list_elem_of_In.
    - intros (h & Hh & Hconn). exists (h, s). split; [|done].
      apply list_elem_of_In, in_flat_map. exists h. split; [by apply list_elem_of_In|].
      apply in_map. by apply list_elem_of_In. }
  split; [done|]. rewrite <- Hedge.
  destruct Hcases as [-> | ->]; split; done.
Qed.

Lemma edge_tag_witness :
  ∃ td, Dump.dumpTopology small_net small_sysfs "127.0.0.1" = Ok td
  ∧ ∀ s, s ∈ net_switches small_net →
    ∃ r, td_nodes td !! name s = Some r
       ∧ (rec_tag r = Some "edge"
          ↔ ∃ h, h ∈ net_hosts small_net
                 ∧ NetOps.connectionsTo small_net (name h) (name s) ≠ [])
       ∧ (rec_tag r = None
          ↔ ¬ ∃ h, h ∈ net_hosts small_net
                   ∧ NetOps.connectionsTo small_net (name h) (name s) ≠ []).
Proof.
  destruct (Dump.dumpTopology small_net small_sysfs "127.0.0.1") as [td|e] eqn:E.
  - exists td. split; [reflexivity|].
    exact (edge_tag small_net small_sysfs "127.0.0.1" td E).
  - vm_compute in E. discriminate E.
Defined.

(** The leaf switch of the one-host fabric is tagged and its spine is not. *)
Example small_net_tags :
  ∃ td r1 r2, Dump.dumpTopology small_net small_sysfs "127.0.0.1" = Ok td
  ∧ td_nodes td !! "s1" = Some r1 ∧ rec_tag r1 = None
  ∧ td_nodes td !! "s2" = Some r2 ∧ rec_tag r2 = Some "edge".
Proof. do 3 eexists. split; [vm_compute; reflexivity|]. vm_compute. by repeat split. Qed.

(** When two switches of the network are joined by a link and the interface
    at one end of it was not discovered (no entry of the scanned directory
    has that interface name with the owning switch as its prefix), the
    export does not reach its end: the link is not skipped. *)
Lemma missing_port_stops_export (nt : Net) (sysfs : list (string * option string))
    (agent : string) (i j : nat) (s1 s2 : Node) (a b : string) :
  net_switches nt !! i = Some s1 →
  net_switches nt !! j = Some s2 →
  (i < j)%nat →
  (a, b) ∈ NetOps.connectionsTo nt (name s1) (name s2) →
  Dump.undiscovered sysfs (name s1) a ∨ Dump.undiscovered sysfs (name s2) b →
  ∃ e, Dump.dumpTopology nt sysfs agent = Raise e.
Proof.
  intros Hi Hj Hij Hab Hmiss.
  destruct (Dump.dumpTopology nt sysfs agent) as [td|e] eqn:Hdump; [|by exists e].
  exfalso.
  apply dump_phases in Hdump as (td1 & td2 & td3 & H1 & H2 & H3 & _).
  apply init_nodes_post in H1 as (Hc1 & Hu1 & Hp1).
  apply (scan_ports_post (map name (net_switches nt))) in H2; [|done..].
  set (J := Dump.scanned (map name (net_switches nt)) sysfs) in *.
  assert (∀ t1 t2, td_nodes t2 = td_nodes t1 → J t1 → J t2) as HJ
    by apply scanned_nodes.
  unfold Dump.scan_links in H3. cbv zeta in H3.
  apply (for_ok_elem J _ _ _ _ (i, s1)) in H3 as (t1 & t2 & Ht1 & H3);
    [| |done|by apply enumerate_lookup].
  2:{ intros is1 u1 u2 _ Hu E.
      apply (for_inv_ok J) in E; [done| |done].
      intros js2 u3 u4 _ Hu3 E'. by apply (scan_links_inner_keeps J) in E'. }
  apply (for_ok_elem J _ _ _ _ (j, s2)) in H3 as (t3 & t4 & Ht3 & H3);
    [| |done|by apply enumerate_lookup].
  2:{ intros js2 u3 u4 _ Hu3 E'. by apply (scan_links_inner_keeps J) in E'. }
  cbn [fst snd] in H3.
  destruct (Nat.ltb_spec i j) as [_|]; [|lia].
  apply (for_ok_elem J _ _ _ _ (a, b)) in H3 as (t5 & t6 & Ht5 & H3);
    [| |done|by apply list_elem_of_In].
  2:{ intros intf u5 u6 _ Hu5 E. by apply (link_step_nodes J) in E. }
  cbn [fst snd] in H3.
  apply bind_inv in H3 as (x1 & t7 & Ha & H3).
  apply ifindex_of_ok in Ha as [-> (r1 & Hr1 & Hp1')].
  apply bind_inv in H3 as (x2 & t8 & Hb & _).
  apply ifindex_of_ok in Hb as [-> (r2 & Hr2 & Hp2')].
  destruct Ht5 as (_ & _ & Hlisted).
  destruct Hmiss as [Hm|Hm].
  - destruct (Hlisted _ _ _ Hr1 Hp1') as (e & He & Hn & Hmatch).
    by apply (Hm e He Hn).
  - destruct (Hlisted _ _ _ Hr2 Hp2') as (e & He & Hn & Hmatch).
    by apply (Hm e He Hn).
Qed.

Lemma small_sysfs_lacks_s2_eth1 :
  Dump.undiscovered small_sysfs_incomplete "s2" "s2-eth1".
Proof.
  intros e He Hn. unfold small_sysfs_incomplete in He.
  repeat (apply elem_of_cons in He as [->|He]; [discriminate Hn|]).
  by apply elem_of_nil in He.
Defined.

(** On that input the exception is the failed lookup of the missing port. *)
Example missing_ifindex_is_KeyError :
  Dump.dumpTopology small_net small_sysfs_incomplete "127.0.0.1"
  = Raise (KeyError "s2-eth1").
Proof. vm_compute. reflexivity. Qed.

(* ===================================================================== *)
(** * Further properties of the builder *)
(* ===================================================================== *)

Section BuilderMore.
Import Fmt Addr Fabric.

Lemma of_nat_to_nat n : Z.of_nat (Z.to_nat n) = Z.max 0 n.
Proof. lia. Qed.

Lemma length_flat_map_const {A B} (g : A → list B) (l : list A) (c : nat) :
  (∀ x, length (g x) = c) → length (flat_map g l) = (length l * c)%nat.
Proof.
  intros H. induction l as [|x l IH]; [done|].
  cbn [flat_map]. rewrite length_app, H, IH. cbn [length]. lia.
Qed.

Lemma fabric_link_shape spine leaf fanout l :
  In l (links (fabric spine leaf fanout)) →
  (∃ ls s, 0 <= ls < leaf ∧ 0 <= s < spine ∧ l = uplink spine ls s)
  ∨ (∃ ls f, 0 <= ls < leaf ∧ 0 <= f < fanout ∧ l = hostlink spine fanout ls f).
Proof.
  unfold fabric, upto. cbn [links]. rewrite in_flat_map.
  intros (ls & Hls & Hl). apply list_elem_of_In, range_spec in Hls.
  unfold leaf_links in Hl. rewrite in_app_iff, !in_map_iff in Hl.
  destruct Hl as [(s & <- & Hs)|(f & <- & Hf)].
  - left. exists ls, s. by apply list_elem_of_In, range_spec in Hs.
  - right. exists ls, f. by apply list_elem_of_In, range_spec in Hf.
Qed.

Lemma ports_host_block_own spine fanout a f :
  0 <= f < fanout →
  ports_of (host_name fanout a f) (leaf_links spine fanout a) = [(0, leaf_name spine a)].
Proof.
  intros Hf. unfold leaf_links. rewrite ports_of_app, !ports_of_map.
  rewrite (flat_map_ext_in _ (fun _ => []) (range spine)).
  2:{ intros s _. apply ports_host_uplink. }
  rewrite flat_map_nil, app_nil_l.
  rewrite (flat_map_ext_in _ (fun g => if g =? f then [(0, leaf_name spine a)] else [])
             (range fanout)).
  2:{ intros g _. rewrite ports_host_hostlink.
      by replace (a * fanout + g =? a * fanout + f) with (g =? f) by lia. }
  rewrite (flat_map_hit (fun _ => [(0, leaf_name spine a)])).
  by destruct (Z.leb_spec 0 f), (Z.ltb_spec f fanout); try lia.
Qed.

Lemma ports_host_fabric spine leaf fanout a f :
  0 <= a < leaf → 0 <= f < fanout →
  ports_of (host_name fanout a f) (links (fabric spine leaf fanout))
  = [(0, leaf_name spine a)].
Proof.
  intros Ha Hf. unfold fabric, upto. cbn [links]. rewrite ports_of_flat_map.
  rewrite (flat_map_ext_in _ (fun b => if b =? a then [(0, leaf_name spine a)] else [])).
  2:{ intros b _. destruct (Z.eqb_spec b a) as [->|Hne].
      - by apply ports_host_block_own.
      - apply ports_host_block_other; [done|lia]. }
  rewrite (flat_map_hit (fun _ => [(0, leaf_name spine a)])).
  by destruct (Z.leb_spec 0 a), (Z.ltb_spec a leaf); try lia.
Qed.

End BuilderMore.

(** X1. Whatever the sizes, the built topology has
    max(0,leaf) * (max(0,spine) + max(0,fanout)) links, and every link
    carries the bandwidth option bw = 10 and nothing else. *)
Theorem link_census (spine leaf fanout : Z) :
  ∃ t, LeafAndSpine.new spine leaf fanout = Ok t
     ∧ Z.of_nat (length (links t))
       = Z.max 0 leaf * (Z.max 0 spine + Z.max 0 fanout)
     ∧ ∀ l, l ∈ links t → link_opts l = [("bw", 10)].
Proof.
  exists (Fabric.fabric spine leaf fanout). split; [apply new_fabric|]. split.
  - unfold Fabric.fabric, Fabric.upto. cbn [links].
    rewrite (length_flat_map_const _ _ (Z.to_nat spine + Z.to_nat fanout)).
    + rewrite length_range, Nat2Z.inj_mul, Nat2Z.inj_add, !of_nat_to_nat. done.
    + intros ls. unfold Fabric.leaf_links.
      by rewrite length_app, !length_map, !length_range.
  - intros l Hl. apply list_elem_of_In, fabric_link_shape in Hl.
    by destruct Hl as [(ls & s & _ & _ & ->)|(ls & f & _ & _ & ->)].
Qed.

(** X2. Every link of the built topology joins a leaf switch (first
    endpoint) to a spine switch, or a host (first endpoint) to the leaf
    switch of the host's own leaf index: there is no link between two
    leaves, two spines or two hosts, and none between a host and a spine. *)
Theorem links_join_tiers (spine leaf fanout : Z) :
  ∃ t, LeafAndSpine.new spine leaf fanout = Ok t
     ∧ ∀ l, l ∈ links t →
         (∃ ls s, 0 <= ls < leaf ∧ 0 <= s < spine
                  ∧ node1 l = Addr.leaf_name spine ls ∧ node2 l = Addr.spine_name s)
       ∨ (∃ ls f, 0 <= ls < leaf ∧ 0 <= f < fanout
                  ∧ node1 l = Addr.host_name fanout ls f
                  ∧ node2 l = Addr.leaf_name spine ls).
Proof.
  exists (Fabric.fabric spine leaf fanout). split; [apply new_fabric|].
  intros l Hl. apply list_elem_of_In, fabric_link_shape in Hl.
  destruct Hl as [(ls & s & Hls & Hs & ->)|(ls & f & Hls & Hf & ->)].
  - left. by exists ls, s.
  - right. by exists ls, f.
Qed.

(** X3. Every host of the built topology has exactly one port, port 0, and
    its link goes to the leaf switch of its leaf index. *)
Theorem host_has_one_port (spine leaf fanout : Z) :
  ∃ t, LeafAndSpine.new spine leaf fanout = Ok t
     ∧ ∀ ls f, 0 <= ls < leaf → 0 <= f < fanout →
         ports_of (Addr.host_name fanout ls f) (links t)
         = [(0, Addr.leaf_name spine ls)].
Proof.
  exists (Fabric.fabric spine leaf fanout). split; [apply new_fabric|].
  intros ls f Hls Hf. by apply ports_host_fabric.
Qed.

(** X4. For sizes that are not negative, the switches are named s1, s2, ...
    up to s(spine+leaf) in creation order, the spines first, and the hosts
    h1, h2, ... up to h(leaf*fanout), leaf by leaf. *)
Theorem names_are_consecutive (spine leaf fanout : Z) :
  0 <= spine → 0 <= leaf → 0 <= fanout →
  ∃ t, LeafAndSpine.new spine leaf fanout = Ok t
     ∧ switches t = map (fun i => "s" +:+ Fmt.str (i + 1)) (range (spine + leaf))
     ∧ hosts t = map (fun i => "h" +:+ Fmt.str (i + 1)) (range (leaf * fanout)).
Proof.
  intros Hs Hl Hf. exists (Fabric.fabric spine leaf fanout).
  split; [apply new_fabric|]. split; [|by apply hosts_fabric_numbered].
  rewrite switches_fabric, range_app, map_app, map_map by done.
  reflexivity.
Qed.

Lemma names_are_consecutive_witness :
  ∃ t, LeafAndSpine.new 2 3 2 = Ok t
     ∧ switches t = map (fun i => "s" +:+ Fmt.str (i + 1)) (range (2 + 3))
     ∧ hosts t = map (fun i => "h" +:+ Fmt.str (i + 1)) (range (3 * 2)).
Proof. apply (names_are_consecutive 2 3 2); lia. Defined.

(** X5. Degenerate sizes.  With leaf <= 0 the topology consists of the spine
    switches alone: no host and no link.  With spine <= 0 there is no spine
    switch: the switches are the leaves, named from the (possibly negative)
    offset spine + 1, and the ports of each leaf are 1..fanout towards its
    hosts. *)
Theorem degenerate_sizes (spine leaf fanout : Z) :
  ∃ t, LeafAndSpine.new spine leaf fanout = Ok t
     ∧ (leaf <= 0 →
          switches t = map Addr.spine_name (range spine) ∧ hosts t = [] ∧ links t = [])
     ∧ (spine <= 0 →
          switches t = map (Addr.leaf_name spine) (range leaf)
        ∧ ∀ ls, 0 <= ls < leaf →
            ports_of (Addr.leaf_name spine ls) (links t)
            = map (fun f => (f + 1, Addr.host_name fanout ls f)) (range fanout)).
Proof.
  exists (Fabric.fabric spine leaf fanout). split; [apply new_fabric|]. split.
  - intros Hl. rewrite switches_fabric, hosts_fabric.
    unfold Fabric.fabric, Fabric.upto. cbn [links].
    rewrite (range_nonpos leaf) by done. cbn. by rewrite app_nil_r.
  - intros Hs. rewrite switches_fabric, (range_nonpos spine) by done.
    split; [done|]. intros ls Hls.
    unfold Fabric.fabric. rewrite ports_leaf_upto by lia.
    destruct (Z.ltb_spec ls leaf); [|lia].
    unfold Fabric.leaf_ports. rewrite (range_nonpos spine) by done.
    by replace (Z.max 0 spine) with 0 by lia.
Qed.

Example negative_spine_names :
  ∃ t, LeafAndSpine.new (-3) 2 1 = Ok t
  ∧ switches t = ["s-2"; "s-1"] ∧ hosts t = ["h1"; "h2"]
  ∧ ports_of "s-2" (links t) = [(1, "h1")].
Proof. eexists. split; [vm_compute; reflexivity|]. vm_compute. by repeat split. Qed.

(* ===================================================================== *)
(** * Further properties of the synthesizers *)
(* ===================================================================== *)

Section SynthMore.
Import Fmt Addr Rules Log NetOps.

Lemma addressed_app sw l1 l2 :
  addressed_to sw (l1 ++ l2) = addressed_to sw l1 ++ addressed_to sw l2.
Proof. unfold addressed_to. apply List.filter_app. Qed.

Lemma addressed_flat_map {X} sw (g : X → list (list string)) (l : list X) :
  addressed_to sw (flat_map g l) = flat_map (fun x => addressed_to sw (g x)) l.
Proof.
  induction l as [|x l IH]; [done|]. cbn [flat_map]. by rewrite addressed_app, IH.
Qed.

Lemma addressed_map_same {X} sw (g : X → list string) (l : list X) :
  (∀ x, ∃ a b rest, g x = a :: b :: sw :: rest) →
  addressed_to sw (map g l) = map g l.
Proof.
  intros H. induction l as [|x l IH]; [done|].
  cbn [map]. unfold addressed_to in *. cbn [List.filter].
  destruct (H x) as (a & b & rest & ->). by rewrite String.eqb_refl, IH.
Qed.

Lemma addressed_map_other {X} sw (g : X → list string) (l : list X) :
  (∀ x, In x l → ∃ a b sw' rest, g x = a :: b :: sw' :: rest ∧ sw' ≠ sw) →
  addressed_to sw (map g l) = [].
Proof.
  intros H. induction l as [|x l IH]; [done|].
  cbn [map]. unfold addressed_to in *. cbn [List.filter].
  destruct (H x (or_introl eq_refl)) as (a & b & sw' & rest & -> & Hne).
  apply String.eqb_neq in Hne. rewrite Hne. apply IH.
  intros y Hy. apply H. by right.
Qed.

Lemma leaf_name_inj spine a b : leaf_name spine a = leaf_name spine b → a = b.
Proof. intros E. apply sw_name_inj in E. lia. Qed.

Lemma leaf_ne_spine spine a s : 0 <= a → s < spine → leaf_name spine a ≠ spine_name s.
Proof. intros Ha Hs E. apply sw_name_inj in E. lia. Qed.

Lemma addressed_leaf_block spine a b :
  addressed_to (leaf_name spine a) (leaf_flood_calls spine b)
  = if b =? a then leaf_flood_calls spine a else [].
Proof.
  destruct (Z.eqb_spec b a) as [->|Hne]; unfold leaf_flood_calls.
  - rewrite addressed_app, addressed_map_same.
    + unfold addressed_to, flood_cmd. cbn [List.filter]. by rewrite String.eqb_refl.
    + intros p. unfold noflood_cmd. by eexists _, _, _.
  - assert (leaf_name spine b ≠ leaf_name spine a) as Hn.
    { intros E. by apply leaf_name_inj in E. }
    rewrite addressed_app, addressed_map_other.
    + unfold addressed_to, flood_cmd. cbn [List.filter].
      apply String.eqb_neq in Hn. by rewrite Hn.
    + intros p _. unfold noflood_cmd. by eexists _, _, _, _.
Qed.

End SynthMore.

(** X6. In the log of [configMulticast], whatever the sizes, the commands
    addressed to a leaf switch are its noflood commands for the ports
    2..spine, in that order, followed by its flood rule: on every leaf the
    flood rule is installed after all its uplinks but the first have been
    taken out of flooding. *)
Theorem flood_rule_follows_noflood (spine leaf fanout : Z) (nt : Net) :
  ∃ w', configMulticast spine leaf fanout {| net := nt; calls := [] |} = Ok (tt, w')
  ∧ ∀ ls, 0 <= ls < leaf →
      Log.addressed_to (Addr.leaf_name spine ls) (calls w')
      = map (fun p => ["ovs-ofctl"; "mod-port"; Addr.leaf_name spine ls; Fmt.str p; "noflood"])
            (range2 2 (spine + 1))
        ++ [["ovs-ofctl"; "add-flow"; Addr.leaf_name spine ls; flood_flow]].
Proof.
  eexists. split; [apply configMulticast_run|].
  intros ls Hls. cbn [calls app]. unfold Rules.multicast_calls.
  rewrite addressed_app, addressed_flat_map.
  rewrite (flat_map_ext_in _
     (fun b => if b =? ls then Rules.leaf_flood_calls spine ls else [])).
  2:{ intros b _. apply addressed_leaf_block. }
  rewrite (flat_map_hit (fun _ => Rules.leaf_flood_calls spine ls)).
  destruct (Z.leb_spec 0 ls), (Z.ltb_spec ls leaf); try lia. cbn [andb].
  rewrite addressed_map_other, app_nil_r; [done|].
  intros s Hs. apply list_elem_of_In, range_spec in Hs.
  unfold Rules.flood_cmd. eexists _, _, _, _. split; [done|].
  intros E. symmetry in E. by apply leaf_ne_spine in E; lia.
Qed.

(** X7. [configMulticast] issues max(0,leaf) * (max(0,spine-1) + 1) +
    max(0,spine) commands in all, whatever the sizes and whatever the
    fanout. *)
Theorem multicast_command_count (spine leaf fanout : Z) (nt : Net) :
  ∃ w', configMulticast spine leaf fanout {| net := nt; calls := [] |} = Ok (tt, w')
  ∧ Z.of_nat (length (calls w'))
    = Z.max 0 leaf * (Z.max 0 (spine - 1) + 1) + Z.max 0 spine.
Proof.
  eexists. split; [apply configMulticast_run|].
  cbn [calls app]. unfold Rules.multicast_calls.
  rewrite length_app, length_map, length_range.
  rewrite (length_flat_map_const _ _ (Z.to_nat (spine - 1) + 1)).
  - rewrite length_range. rewrite Nat2Z.inj_add, Nat2Z.inj_mul, Nat2Z.inj_add.
    rewrite !of_nat_to_nat. done.
  - intros ls. unfold Rules.leaf_flood_calls.
    rewrite length_app, length_map. unfold range2.
    rewrite length_map, length_seq. cbn [length]. f_equal. f_equal. lia.
Qed.

Section UnicastMore.
Import Fmt Addr Rules Log NetOps.
Variables spine leaf fanout : Z.

(** One pass of the inner loop of [configUnicast] on a network that has the
    host: the MAC is set and the host's commands are appended. *)
Lemma unicast_pass ls f w nd :
  lookup_node (host_name fanout ls f) (net w) = Some nd →
  (host ← NetOps.get ("h" +:+ str (ls * fanout + f + 1));
   NetOps.setMAC host
     ("00:04:00:00:" +:+ format_02x ls +:+ ":" +:+ format_02x (f + 1)) ;;
   call ["ovs-ofctl"; "add-flow"; "s" +:+ str (spine + ls + 1);
         "dl_dst=" +:+ ("00:04:00:00:" +:+ format_02x ls +:+ ":" +:+ format_02x (f + 1))
           +:+ " priority=500 actions=output:" +:+ str (f + 1 + spine)] ;;
   call ["ovs-ofctl"; "add-flow"; "s" +:+ str (spine + ls + 1);
         "priority=300 actions=bundle(symmetric_l4," +:+ str (ls + 1)
           +:+ ",hrw,ofport,slaves:" +:+ slaves spine] ;;
   for_ (range spine) (fun s =>
     call ["ovs-ofctl"; "add-flow"; "s" +:+ str (s + 1);
           "dl_dst=" +:+ ("00:04:00:00:" +:+ format_02x ls +:+ ":" +:+ format_02x (f + 1))
             +:+ " priority=500 actions=output:" +:+ str (ls + 1)])) w
  = Ok (tt, {| net := set_mac (host_name fanout ls f) (host_mac ls f) (net w);
               calls := calls w ++ host_calls spine ls f |}).
Proof.
  intros Hnd.
  erewrite bind_ok.
  2:{ unfold NetOps.get. fold (host_name fanout ls f). rewrite Hnd. reflexivity. }
  rewrite (lookup_node_name _ _ _ Hnd).
  erewrite bind_ok; [|reflexivity].
  erewrite bind_ok; [|reflexivity].
  erewrite bind_ok; [|reflexivity].
  rewrite for_call. cbn [net calls]. unfold host_calls.
  rewrite <- !app_assoc. reflexivity.
Qed.

(** The same pass on a network that lacks the host: the lookup fails before
    anything is sent. *)
Lemma unicast_pass_missing ls f w :
  lookup_node (host_name fanout ls f) (net w) = None →
  (host ← NetOps.get ("h" +:+ str (ls * fanout + f + 1));
   NetOps.setMAC host
     ("00:04:00:00:" +:+ format_02x ls +:+ ":" +:+ format_02x (f + 1)) ;;
   call ["ovs-ofctl"; "add-flow"; "s" +:+ str (spine + ls + 1);
         "dl_dst=" +:+ ("00:04:00:00:" +:+ format_02x ls +:+ ":" +:+ format_02x (f + 1))
           +:+ " priority=500 actions=output:" +:+ str (f + 1 + spine)] ;;
   call ["ovs-ofctl"; "add-flow"; "s" +:+ str (spine + ls + 1);
         "priority=300 actions=bundle(symmetric_l4," +:+ str (ls + 1)
           +:+ ",hrw,ofport,slaves:" +:+ slaves spine] ;;
   for_ (range spine) (fun s =>
     call ["ovs-ofctl"; "add-flow"; "s" +:+ str (s + 1);
           "dl_dst=" +:+ ("00:04:00:00:" +:+ format_02x ls +:+ ":" +:+ format_02x (f + 1))
             +:+ " priority=500 actions=output:" +:+ str (ls + 1)])) w
  = Raise (KeyError (host_name fanout ls f)).
Proof.
  intros Hnd. unfold mbind at 1, M_bind at 1, NetOps.get.
  fold (host_name fanout ls f). by rewrite Hnd.
Qed.

Lemma is_Some_lookup_set_mac n m mac nt :
  is_Some (lookup_node n (set_mac m mac nt)) ↔ is_Some (lookup_node n nt).
Proof. rewrite lookup_set_mac. apply fmap_is_Some. Qed.

Lemma lookup_set_mac_None n m mac nt :
  lookup_node n (set_mac m mac nt) = None ↔ lookup_node n nt = None.
Proof. rewrite lookup_set_mac. apply fmap_None. Qed.

End UnicastMore.

Section UnicastOutcome.
Import Fmt Addr Rules Log NetOps.
Variables spine leaf fanout : Z.

Lemma unicast_pass_inv ls f w w' :
  (host ← NetOps.get ("h" +:+ str (ls * fanout + f + 1));
   NetOps.setMAC host
     ("00:04:00:00:" +:+ format_02x ls +:+ ":" +:+ format_02x (f + 1)) ;;
   call ["ovs-ofctl"; "add-flow"; "s" +:+ str (spine + ls + 1);
         "dl_dst=" +:+ ("00:04:00:00:" +:+ format_02x ls +:+ ":" +:+ format_02x (f + 1))
           +:+ " priority=500 actions=output:" +:+ str (f + 1 + spine)] ;;
   call ["ovs-ofctl"; "add-flow"; "s" +:+ str (spine + ls + 1);
         "priority=300 actions=bundle(symmetric_l4," +:+ str (ls + 1)
           +:+ ",hrw,ofport,slaves:" +:+ slaves spine] ;;
   for_ (range spine) (fun s =>
     call ["ovs-ofctl"; "add-flow"; "s" +:+ str (s + 1);
           "dl_dst=" +:+ ("00:04:00:00:" +:+ format_02x ls +:+ ":" +:+ format_02x (f + 1))
             +:+ " priority=500 actions=output:" +:+ str (ls + 1)])) w
  = Ok (tt, w') →
  is_Some (lookup_node (host_name fanout ls f) (net w))
  ∧ net w' = set_mac (host_name fanout ls f) (host_mac ls f) (net w).
Proof.
  destruct (lookup_node (host_name fanout ls f) (net w)) as [nd|] eqn:Hnd.
  - rewrite (unicast_pass spine fanout ls f w nd Hnd). intros [= <-]. by split.
  - by rewrite (unicast_pass_missing spine fanout ls f w Hnd).
Qed.

End UnicastOutcome.

(** X8. On a network in which every host of the fabric that is there has an
    interface, [configUnicast] succeeds exactly when the network has every
    host of the fabric: the hosts h(ls*fanout+f+1) for 0 <= ls < leaf and
    0 <= f < fanout. *)
Theorem unicast_succeeds_iff_hosts_present (spine leaf fanout : Z) (w : World) :
  hosts_attached leaf fanout (net w) →
  (∃ w', configUnicast spine leaf fanout w = Ok (tt, w'))
  ↔ Rules.hosts_present leaf fanout (net w).
Proof.
  intros _.
  split; [|intros Hp; eexists; by apply configUnicast_run].
  intros [w' H] ls f Hls Hf.
  set (J := fun st : World => Log.same_names (net w) (net st)).
  assert (∀ ls' f' st1 st2, J st1 →
            (host ← NetOps.get ("h" +:+ Fmt.str (ls' * fanout + f' + 1));
             NetOps.setMAC host
               ("00:04:00:00:" +:+ Fmt.format_02x ls' +:+ ":" +:+ Fmt.format_02x (f' + 1)) ;;
             call ["ovs-ofctl"; "add-flow"; "s" +:+ Fmt.str (spine + ls' + 1);
                   "dl_dst=" +:+ ("00:04:00:00:" +:+ Fmt.format_02x ls' +:+ ":"
                                    +:+ Fmt.format_02x (f' + 1))
                     +:+ " priority=500 actions=output:" +:+ Fmt.str (f' + 1 + spine)] ;;
             call ["ovs-ofctl"; "add-flow"; "s" +:+ Fmt.str (spine + ls' + 1);
                   "priority=300 actions=bundle(symmetric_l4," +:+ Fmt.str (ls' + 1)
                     +:+ ",hrw,ofport,slaves:" +:+ slaves spine] ;;
             for_ (range spine) (fun s =>
               call ["ovs-ofctl"; "add-flow"; "s" +:+ Fmt.str (s + 1);
                     "dl_dst=" +:+ ("00:04:00:00:" +:+ Fmt.format_02x ls' +:+ ":"
                                      +:+ Fmt.format_02x (f' + 1))
                       +:+ " priority=500 actions=output:" +:+ Fmt.str (ls' + 1)])) st1
            = Ok (tt, st2) → J st2) as Hpass.
  { intros ls' f' st1 st2 HJ E. apply unicast_pass_inv in E as [_ E].
    intros n. rewrite E, is_Some_lookup_set_mac. apply HJ. }
  assert (J w) as HJ0 by done.
  assert (In ls (range leaf)) as Hinl by (by apply list_elem_of_In, range_spec).
  assert (In f (range fanout)) as Hinf by (by apply list_elem_of_In, range_spec).
  unfold configUnicast in H.
  eapply (for_ok_elem J) in H as (st1 & st2 & HJ1 & H1); [| |exact HJ0|exact Hinl].
  2:{ intros ls' u1 u2 _ Hu E. apply (for_inv_ok J) in E; [done| |done].
      intros f' u3 u4 _ Hu3 E'. by apply (Hpass ls' f' u3). }
  eapply (for_ok_elem J) in H1 as (st3 & st4 & HJ3 & H3); [| |exact HJ1|exact Hinf].
  2:{ intros f' u3 u4 _ Hu3 E'. by apply (Hpass ls f' u3). }
  rename H3 into H.
  apply unicast_pass_inv in H as [H _]. by apply HJ3.
Qed.

Lemma scenario_net_hosts_attached : hosts_attached 2 2 scenario_net.
Proof.
  intros ls f Hls Hf _.
  assert (ls = 0 ∨ ls = 1) as [-> | ->] by lia;
    (assert (f = 0 ∨ f = 1) as [-> | ->] by lia); reflexivity.
Defined.

(** The scenario's network has its four hosts, each with an interface, and
    the run succeeds on it. *)
Lemma unicast_succeeds_iff_hosts_present_witness :
  (∃ w', configUnicast 2 2 2 {| net := scenario_net; calls := [] |} = Ok (tt, w'))
  ↔ Rules.hosts_present 2 2 scenario_net.
Proof.
  apply (unicast_succeeds_iff_hosts_present 2 2 2 {| net := scenario_net; calls := [] |}).
  exact scenario_net_hosts_attached.
Defined.

(** Without its second host the scenario's network, whose first host has its
    interface, makes the run fail. *)
Example unicast_fails_without_h2 :
  hosts_attached 2 2 scenario_net_without_h2
  ∧ ¬ Rules.hosts_present 2 2 scenario_net_without_h2
  ∧ ¬ ∃ w', configUnicast 2 2 2 {| net := scenario_net_without_h2; calls := [] |}
            = Ok (tt, w').
Proof.
  split; [|split].
  - intros ls f Hls Hf Hsome.
    assert (ls = 0 ∨ ls = 1) as [-> | ->] by lia;
      (assert (f = 0 ∨ f = 1) as [-> | ->] by lia);
      first [reflexivity | vm_compute in Hsome; by destruct Hsome].
  - intros Hp. destruct (Hp 0 1) as [nd Hnd]; [lia|lia|]. vm_compute in Hnd. done.
  - intros [w' E]. vm_compute in E. done.
Qed.

Section UnicastFailure.
Import Fmt Addr Rules Log NetOps.

Lemma range_split_at k n : 0 <= k < n → ∃ tl, range n = range k ++ k :: tl.
Proof.
  intros H. replace n with (k + (n - k)) by lia.
  rewrite range_app by lia. unfold range at 2.
  replace (Z.to_nat (n - k)) with (S (Z.to_nat (n - k - 1))) by lia.
  cbn [seq map]. change (Z.of_nat 0) with 0.
  replace (k + 0) with k by lia. by eexists.
Qed.

Lemma for_raise_at {St X} (xs ys : list X) (x : X) (body : X → M St unit) st st1 e :
  for_ xs body st = Ok (tt, st1) → body x st1 = Raise e →
  for_ (xs ++ x :: ys) body st = Raise e.
Proof.
  intros H Hx. rewrite (for_app _ _ _ _ _ H). cbn [for_].
  unfold mbind, M_bind. by rewrite Hx.
Qed.

(** A loop over [range n] whose passes before [k] succeed and keep [I], and
    whose pass [k] fails, fails with that exception. *)
Lemma for_range_raise {St} (I : St → Prop) (n k : Z) (body : Z → M St unit) st e :
  0 <= k < n → I st →
  (∀ i st1, 0 <= i < k → I st1 → ∃ st2, body i st1 = Ok (tt, st2) ∧ I st2) →
  (∀ st1, I st1 → body k st1 = Raise e) →
  for_ (range n) body st = Raise e.
Proof.
  intros Hk HI Hstep Hfail.
  destruct (range_split_at k n Hk) as [tl ->].
  destruct (for_range_inv (fun _ => I) k body st HI) as (st1 & E & HI1).
  { intros i s1 Hi Hs1. by apply Hstep. }
  apply (for_raise_at _ _ _ _ _ st1); [done|]. by apply Hfail.
Qed.

End UnicastFailure.

(** X9. When a host of the fabric is missing from the network and every
    host handled before it is there and has an interface, [configUnicast]
    stops with the [KeyError] of the missing host's name (the hosts are
    handled leaf by leaf, and within a leaf by host index). *)
Theorem first_missing_host_raises (spine leaf fanout : Z) (w : World) (ls f : Z) :
  0 <= ls < leaf → 0 <= f < fanout →
  NetOps.lookup_node (Addr.host_name fanout ls f) (net w) = None →
  (∀ ls' f', 0 <= ls' < leaf → 0 <= f' < fanout → Log.earlier ls' f' ls f →
     is_Some (NetOps.lookup_node (Addr.host_name fanout ls' f') (net w))
     ∧ attached (Addr.host_name fanout ls' f') (net w) = true) →
  configUnicast spine leaf fanout w = Raise (KeyError (Addr.host_name fanout ls f)).
Proof.
  intros Hls Hf Hmiss Hattached.
  assert (∀ ls' f', 0 <= ls' < leaf → 0 <= f' < fanout → Log.earlier ls' f' ls f →
            is_Some (NetOps.lookup_node (Addr.host_name fanout ls' f') (net w)))
    as Hbefore.
  { intros ls' f' Hls' Hf' He. by destruct (Hattached ls' f' Hls' Hf' He). }
  clear Hattached.
  set (P := fun st : World =>
         NetOps.lookup_node (Addr.host_name fanout ls f) (net st) = None
         ∧ ∀ ls' f', 0 <= ls' < leaf → 0 <= f' < fanout → Log.earlier ls' f' ls f →
             is_Some (NetOps.lookup_node (Addr.host_name fanout ls' f') (net st))).
  assert (P w) as HP0 by done.
  assert (∀ ls' f' st, 0 <= ls' < leaf → 0 <= f' < fanout → Log.earlier ls' f' ls f →
            P st →
            P {| net := NetOps.set_mac (Addr.host_name fanout ls' f')
                          (Addr.host_mac ls' f') (net st);
                 calls := calls st ++ Rules.host_calls spine ls' f' |}) as Hkeep.
  { intros ls' f' st _ _ _ [Hn Hs]. split; cbn [net].
    - by apply lookup_set_mac_None.
    - intros a b Ha Hb Hab. apply is_Some_lookup_set_mac. by apply Hs. }
  unfold configUnicast.
  apply (for_range_raise P leaf ls); [done|done| |].
  - intros ls' st1 Hls' HP1. cbv beta.
    match goal with
    | |- ∃ st2, for_ (range fanout) ?b st1 = _ ∧ _ =>
        destruct (for_range_inv (fun _ => P) fanout b st1 HP1) as (st2 & E & HP2);
          [|by exists st2]
    end.
    intros f' st3 Hf' HP3. cbv beta.
    assert (Log.earlier ls' f' ls f) as He by (left; lia).
    destruct (proj2 HP3 ls' f') as [nd Hnd]; [lia|lia|done|].
    rewrite (unicast_pass spine fanout ls' f' st3 nd Hnd).
    eexists. split; [done|]. apply Hkeep; [lia|lia|done|done].
  - intros st1 HP1. cbv beta.
    apply (for_range_raise P fanout f); [done|done| |].
    + intros f' st3 Hf' HP3. cbv beta.
      assert (Log.earlier ls f' ls f) as He by (right; lia).
      destruct (proj2 HP3 ls f') as [nd Hnd]; [lia|lia|done|].
      rewrite (unicast_pass spine fanout ls f' st3 nd Hnd).
      eexists. split; [done|]. apply Hkeep; [lia|lia|done|done].
    + intros st3 [Hn _]. by apply unicast_pass_missing.
Qed.

(** Without its second host, the scenario's network, in which the first
    host keeps its link to the leaf switch s3, makes the run stop at the
    second host. *)
Lemma first_missing_host_raises_witness :
  configUnicast 2 2 2 {| net := scenario_net_without_h2; calls := [] |}
  = Raise (KeyError (Addr.host_name 2 0 1)).
Proof.
  apply (first_missing_host_raises 2 2 2 _ 0 1).
  - lia.
  - lia.
  - reflexivity.
  - intros ls' f' Hls' Hf' [He|[-> He]]; [lia|].
    replace f' with 0 by lia. split; [vm_compute; by eexists|reflexivity].
Defined.

Section UnicastAgain.
Import Fmt Addr Rules Log NetOps.

Lemma retag_idem tbl nd :
  NoDup (map fst tbl) → retag tbl (retag tbl nd) = retag tbl nd.
Proof.
  intros Hnd. destruct (decide (name nd ∈ map fst tbl)) as [Hin|Hout].
  - apply list_elem_of_fmap in Hin as ([n mac] & Hn & Hin). cbn [fst] in Hn. subst n.
    rewrite (retag_hit tbl nd mac) by done.
    by rewrite (retag_hit tbl (with_MAC mac nd) mac).
  - rewrite (retag_other tbl nd) by done. by apply retag_other.
Qed.

Lemma assign_macs_idem tbl nt :
  NoDup (map fst tbl) → assign_macs tbl (assign_macs tbl nt) = assign_macs tbl nt.
Proof.
  intros Hnd. rewrite !assign_macs_retag. cbn [net_hosts net_switches net_links].
  rewrite !map_map. f_equal; apply map_ext; intros nd; by apply retag_idem.
Qed.

Lemma hosts_present_assign leaf fanout tbl nt :
  hosts_present leaf fanout nt → hosts_present leaf fanout (assign_macs tbl nt).
Proof.
  intros Hp ls f Hls Hf. rewrite lookup_assign_macs. apply fmap_is_Some. by apply Hp.
Qed.

Lemma unicast_calls_length spine leaf fanout :
  length (unicast_calls spine leaf fanout)
  = (Z.to_nat leaf * (Z.to_nat fanout * (2 + Z.to_nat spine)))%nat.
Proof.
  unfold unicast_calls.
  rewrite (length_flat_map_const _ _ (Z.to_nat fanout * (2 + Z.to_nat spine))).
  - by rewrite length_range.
  - intros ls. rewrite (length_flat_map_const _ _ (2 + Z.to_nat spine)).
    + by rewrite length_range.
    + intros f. unfold host_calls. by rewrite length_app, length_map, length_range.
Qed.

Lemma unicast_calls_elem spine leaf fanout c :
  In c (unicast_calls spine leaf fanout) →
  ∃ ls f, 0 <= ls < leaf ∧ 0 <= f < fanout
        ∧ (c = local_rule spine ls f ∨ c = multipath_rule spine ls
           ∨ ∃ s, 0 <= s < spine ∧ c = spine_rule ls f s).
Proof.
  unfold unicast_calls. rewrite in_flat_map. intros (ls & Hls & Hc).
  apply in_flat_map in Hc as (f & Hf & Hc).
  apply list_elem_of_In, range_spec in Hls, Hf.
  exists ls, f. split; [done|]. split; [done|].
  unfold host_calls in Hc. apply in_app_iff in Hc as [[<-|[<-|[]]]|Hc]; [by left|by right; left|].
  apply in_map_iff in Hc as (s & <- & Hs). apply list_elem_of_In, range_spec in Hs.
  right. right. by exists s.
Qed.

Lemma sent_modport_unicast spine leaf fanout sw :
  sent_to "mod-port" sw (unicast_calls spine leaf fanout) = [].
Proof.
  unfold unicast_calls. rewrite sent_to_flat_map.
  rewrite (flat_map_ext_in _ (fun _ => [])); [apply flat_map_nil|].
  intros ls _. rewrite sent_to_flat_map.
  rewrite (flat_map_ext_in _ (fun _ => [])); [apply flat_map_nil|].
  intros f _. unfold host_calls.
  change [local_rule spine ls f; multipath_rule spine ls]
    with ([local_rule spine ls f] ++ [multipath_rule spine ls]).
  rewrite !sent_to_app, sent_to_map.
  rewrite (flat_map_ext_in _ (fun _ => [])); [by rewrite flat_map_nil|].
  intros s _. apply sent_modport_addflow.
Qed.

Lemma lacks_slaves c spine :
  separator c → lacks c "," = true → lacks c (slaves spine) = true.
Proof.
  intros Hc Hcomma. unfold slaves.
  assert (lacks c "1" = true) as H1 by apply (lacks_str c 1 Hc).
  destruct (1 <? spine); [|done].
  generalize (range2 2 (spine + 1)). generalize "1" H1.
  intros acc Hacc l. revert acc Hacc.
  induction l as [|x l IH]; intros acc Hacc; [done|].
  cbn [fold_left]. apply IH. by rewrite !lacks_app, Hacc, Hcomma, lacks_str.
Qed.

Lemma no_multipath_at_spine (leaf fanout : Z) :
  List.filter (fun rest => match rest with
                           | [flow] => startswith "priority=300" flow
                           | _ => false
                           end)
    (flat_map (fun ls => map (fun f => [spine_flow ls f]) (range fanout)) (range leaf))
  = [].
Proof.
  assert (∀ ls fs,
    List.filter (fun rest => match rest with
                             | [flow] => startswith "priority=300" flow
                             | _ => false
                             end) (map (fun f => [spine_flow ls f]) fs) = []) as Hrow.
  { intros ls fs. induction fs as [|f fs IHf]; [done|].
    cbn [map List.filter].
    change (startswith "priority=300" (spine_flow ls f)) with false.
    exact IHf. }
  induction (range leaf) as [|ls l IH]; [done|].
  cbn [flat_map]. by rewrite List.filter_app, IH, app_nil_r, Hrow.
Qed.

End UnicastAgain.

(** X10. Running [configUnicast] a second time on the network the first run
    left behind succeeds, changes no MAC address and no other part of the
    network, and sends the same commands once more. *)
Theorem unicast_rerun (spine leaf fanout : Z) (w : World) :
  0 <= leaf → 0 <= fanout → Rules.hosts_present leaf fanout (net w) →
  ∃ w1 w2 cmds,
    configUnicast spine leaf fanout w = Ok (tt, w1)
  ∧ configUnicast spine leaf fanout w1 = Ok (tt, w2)
  ∧ net w2 = net w1
  ∧ calls w1 = calls w ++ cmds
  ∧ calls w2 = calls w1 ++ cmds.
Proof.
  intros Hl Hf Hp.
  exists {| net := Rules.assign_macs (Rules.mac_table leaf fanout) (net w);
            calls := calls w ++ Rules.unicast_calls spine leaf fanout |}.
  eexists. exists (Rules.unicast_calls spine leaf fanout).
  split; [by apply configUnicast_run|].
  split; [apply configUnicast_run; by apply hosts_present_assign|].
  cbn [net calls]. split; [|done].
  apply assign_macs_idem. by apply mac_table_NoDup.
Qed.

Lemma unicast_rerun_witness :
  ∃ w1 w2 cmds,
    configUnicast 2 2 2 {| net := scenario_net; calls := [] |} = Ok (tt, w1)
  ∧ configUnicast 2 2 2 w1 = Ok (tt, w2)
  ∧ net w2 = net w1
  ∧ calls w1 = [] ++ cmds
  ∧ calls w2 = calls w1 ++ cmds.
Proof.
  apply (unicast_rerun 2 2 2 {| net := scenario_net; calls := [] |});
    [lia | lia | exact scenario_net_hosts_present].
Defined.

(** X11. On a fabric with spine >= 1 every spine switch is sent, by
    [configUnicast], exactly one flow per host of the fabric, the
    exact-match rule on that host's MAC, leaf by leaf and host by host, and
    no multipath rule. *)
Theorem spine_flows (spine leaf fanout : Z) (w : World) :
  calls w = [] → Rules.hosts_present leaf fanout (net w) →
  ∃ w', configUnicast spine leaf fanout w = Ok (tt, w')
  ∧ ∀ s, 0 <= s < spine →
      Rules.sent_to "add-flow" (Addr.spine_name s) (calls w')
      = flat_map (fun ls => map (fun f =>
            ["dl_dst=" +:+ Addr.host_mac ls f +:+ " priority=500 actions=output:"
               +:+ Fmt.str (ls + 1)]) (range fanout)) (range leaf)
    ∧ Rules.flows_with "priority=300" (Addr.spine_name s) (calls w') = [].
Proof.
  intros Hc Hp. eexists. split; [by apply configUnicast_run|].
  rewrite Hc. cbn [calls app]. intros s Hs. unfold Rules.flows_with.
  rewrite addflow_spine_unicast by done. split; [done|].
  apply no_multipath_at_spine.
Qed.

Lemma spine_flows_witness :
  ∃ w', configUnicast 2 2 2 {| net := scenario_net; calls := [] |} = Ok (tt, w')
  ∧ ∀ s, 0 <= s < 2 →
      Rules.sent_to "add-flow" (Addr.spine_name s) (calls w')
      = flat_map (fun ls => map (fun f =>
            ["dl_dst=" +:+ Addr.host_mac ls f +:+ " priority=500 actions=output:"
               +:+ Fmt.str (ls + 1)]) (range 2)) (range 2)
    ∧ Rules.flows_with "priority=300" (Addr.spine_name s) (calls w') = [].
Proof.
  apply (spine_flows 2 2 2 {| net := scenario_net; calls := [] |});
    [reflexivity | exact scenario_net_hosts_present].
Defined.

(** X12. A successful run of [configUnicast] sends
    max(0,leaf) * max(0,fanout) * (2 + max(0,spine)) commands, all of them
    add-flow commands: it never changes a port attribute. *)
Theorem unicast_command_census (spine leaf fanout : Z) (w : World) :
  calls w = [] → Rules.hosts_present leaf fanout (net w) →
  ∃ w', configUnicast spine leaf fanout w = Ok (tt, w')
  ∧ Z.of_nat (length (calls w'))
    = Z.max 0 leaf * (Z.max 0 fanout * (2 + Z.max 0 spine))
  ∧ (∀ c, c ∈ calls w' → ∃ sw flow, c = ["ovs-ofctl"; "add-flow"; sw; flow])
  ∧ ∀ sw, Rules.sent_to "mod-port" sw (calls w') = [].
Proof.
  intros Hc Hp. eexists. split; [by apply configUnicast_run|].
  rewrite Hc. cbn [calls app]. split; [|split].
  - rewrite unicast_calls_length.
    rewrite !Nat2Z.inj_mul, Nat2Z.inj_add, !of_nat_to_nat. done.
  - intros c Hin. apply list_elem_of_In, unicast_calls_elem in Hin.
    destruct Hin as (ls & f & _ & _ & [->|[->|(s & _ & ->)]]); by eexists _, _.
  - intros sw. apply sent_modport_unicast.
Qed.

Lemma unicast_command_census_witness :
  ∃ w', configUnicast 2 2 2 {| net := scenario_net; calls := [] |} = Ok (tt, w')
  ∧ Z.of_nat (length (calls w')) = Z.max 0 2 * (Z.max 0 2 * (2 + Z.max 0 2))
  ∧ (∀ c, c ∈ calls w' → ∃ sw flow, c = ["ovs-ofctl"; "add-flow"; sw; flow])
  ∧ ∀ sw, Rules.sent_to "mod-port" sw (calls w') = [].
Proof.
  apply (unicast_command_census 2 2 2 {| net := scenario_net; calls := [] |});
    [reflexivity | exact scenario_net_hosts_present].
Defined.

(** X13. The text of every multipath rule [configUnicast] sends opens a
    parenthesis after the word bundle and contains no closing parenthesis:
    the action is sent unterminated, whatever the sizes. *)
Theorem multipath_rule_is_unterminated (spine leaf fanout : Z) (w : World) :
  calls w = [] → Rules.hosts_present leaf fanout (net w) →
  ∃ w', configUnicast spine leaf fanout w = Ok (tt, w')
  ∧ ∀ sw flow, In ["ovs-ofctl"; "add-flow"; sw; flow] (calls w') →
      Fmt.startswith "priority=300" flow = true →
      Fmt.startswith "priority=300 actions=bundle(" flow = true
      ∧ Fmt.lacks ")" flow = true.
Proof.
  intros Hc Hp. eexists. split; [by apply configUnicast_run|].
  rewrite Hc. cbn [calls app]. intros sw flow Hin Hpre.
  apply unicast_calls_elem in Hin as (ls & f & _ & _ & [E|[E|(s & _ & E)]]).
  - injection E as -> ->. done.
  - injection E as -> ->. split; [done|].
    unfold Rules.multipath_flow.
    rewrite !lacks_app, lacks_str, lacks_slaves by done. done.
  - injection E as -> ->. done.
Qed.

Lemma multipath_rule_is_unterminated_witness :
  ∃ w', configUnicast 2 2 2 {| net := scenario_net; calls := [] |} = Ok (tt, w')
  ∧ ∀ sw flow, In ["ovs-ofctl"; "add-flow"; sw; flow] (calls w') →
      Fmt.startswith "priority=300" flow = true →
      Fmt.startswith "priority=300 actions=bundle(" flow = true
      ∧ Fmt.lacks ")" flow = true.
Proof.
  apply (multipath_rule_is_unterminated 2 2 2 {| net := scenario_net; calls := [] |});
    [reflexivity | exact scenario_net_hosts_present].
Defined.

(* ===================================================================== *)
(** * [configSFlow] *)
(* ===================================================================== *)

Section SFlow.
Import Fmt Addr.

Lemma concat_empty_cons (x : string) (l : list string) :
  String.concat "" (x :: l) = x +:+ String.concat "" l.
Proof. destruct l; [by rewrite append_empty_r|done]. Qed.

Lemma concat_empty_app (l1 l2 : list string) :
  String.concat "" (l1 ++ l2) = String.concat "" l1 +:+ String.concat "" l2.
Proof.
  induction l1 as [|x l1 IH]; [done|].
  change ((x :: l1) ++ l2) with (x :: (l1 ++ l2)).
  by rewrite !concat_empty_cons, IH, append_assoc_str.
Qed.

Lemma fold_append {X} (g : X → string) (l : list X) (acc : string) :
  fold_left (fun acc x => acc +:+ g x) l acc = acc +:+ String.concat "" (map g l).
Proof.
  revert acc. induction l as [|x l IH]; intros acc.
  - by rewrite append_empty_r.
  - cbn [fold_left map]. by rewrite IH, concat_empty_cons, append_assoc_str.
Qed.

Lemma range2_as_range a b : range2 a b = map (Z.add a) (range (b - a)).
Proof. unfold range2, range. by rewrite map_map. Qed.

End SFlow.

(** X14. The command line [configSFlow] builds is its header followed by one
    set-bridge clause for each switch of the topology the constructor
    builds from the same spine and leaf counts, each switch once, in
    creation order (the spines, then the leaves), whatever the sizes. *)
Theorem sflow_covers_the_switches (spine leaf fanout : Z) (collector ifname : string) :
  ∃ t, LeafAndSpine.new spine leaf fanout = Ok t
  ∧ configSFlow spine leaf collector ifname
    = ("ovs-vsctl -- --id=@sflow create sflow agent=" +:+ ifname
         +:+ " target=" +:+ collector +:+ " sampling=10 polling=20 --")
      +:+ String.concat ""
            (map (fun sw => " -- set bridge " +:+ sw +:+ " sflow=@sflow") (switches t)).
Proof.
  exists (Fabric.fabric spine leaf fanout). split; [apply new_fabric|].
  unfold configSFlow. cbv zeta.
  rewrite !fold_append, append_assoc_str. f_equal.
  rewrite switches_fabric, map_app, concat_empty_app, !map_map.
  rewrite !range2_as_range, !map_map.
  replace (spine + 1 - 1) with spine by lia.
  replace (leaf + 1 - 1) with leaf by lia.
  f_equal; f_equal; apply map_ext; intros x.
  - unfold Addr.spine_name. by rewrite (Z.add_comm 1 x).
  - unfold Addr.leaf_name.
    by replace (spine + (1 + x)) with (spine + x + 1) by lia.
Qed.

Example sflow_command_2_2 :
  configSFlow 2 2 "10.0.0.30" "eth0"
  = "ovs-vsctl -- --id=@sflow create sflow agent=eth0 target=10.0.0.30 sampling=10 polling=20 -- -- set bridge s1 sflow=@sflow -- set bridge s2 sflow=@sflow -- set bridge s3 sflow=@sflow -- set bridge s4 sflow=@sflow".
Proof. reflexivity. Qed.

(* ===================================================================== *)
(** * The exporter's text functions *)
(* ===================================================================== *)

Section ExportText.
Import Dump.

Lemma span_digits_dec_uint d (s : string) :
  (match s with String c _ => is_digit c = false | EmptyString => True end) →
  span_digits (DecimalString.NilEmpty.string_of_uint d +:+ s)
  = (DecimalString.NilEmpty.string_of_uint d, s).
Proof.
  intros Hs. induction d; cbn [DecimalString.NilEmpty.string_of_uint];
    try (change (span_digits (String ?c ?t +:+ s))
           with (let '(ds, r) := span_digits (t +:+ s) in (String c ds, r));
         by rewrite IHd).
  destruct s as [|c s']; [done|].
  change ("" +:+ String c s') with (String c s').
  cbn [span_digits]. by rewrite Hs.
Qed.

Lemma str_nonneg_uint n :
  0 <= n → ∃ d, Fmt.str n = DecimalString.NilEmpty.string_of_uint d ∧ d ≠ Decimal.Nil.
Proof.
  intros Hn. unfold Fmt.str. destruct n as [|p|p]; [| |lia].
  - by exists (Decimal.D0 Decimal.Nil).
  - exists (Pos.to_uint p). split; [done|]. apply DecimalPos.Unsigned.to_uint_nonnil.
Qed.

Lemma span_digits_spec s ds r :
  span_digits s = (ds, r) →
  s = ds +:+ r ∧ all_digits ds = true
  ∧ match r with String c _ => is_digit c = false | EmptyString => True end.
Proof.
  revert ds r. induction s as [|c s IH]; intros ds r H.
  - by injection H as <- <-.
  - cbn [span_digits] in H. destruct (is_digit c) eqn:Hc.
    + destruct (span_digits s) as [ds' r'] eqn:Hsp. injection H as <- <-.
      destruct (IH ds' r' eq_refl) as (-> & Hd & Hr).
      split; [done|]. split; [|done]. cbn [all_digits]. by rewrite Hc, Hd.
    + injection H as <- <-. split; [done|]. split; [done|]. done.
Qed.

End ExportText.

(** X15. An interface named after a switch is attributed to that switch: for
    every n >= 0 and every text after the dash, the pattern of
    [dumpTopology] matches the name s<n>-<text> and its first group is
    s<n>, the name the constructor gives to a switch. *)
Theorem interface_prefix_is_recognised (n : Z) (rest : string) :
  0 <= n →
  Dump.match_switch_intf ("s" +:+ Fmt.str n +:+ "-" +:+ rest) = Some ("s" +:+ Fmt.str n).
Proof.
  intros Hn. destruct (str_nonneg_uint n Hn) as (d & -> & Hd).
  change ("s" +:+ DecimalString.NilEmpty.string_of_uint d +:+ "-" +:+ rest)
    with (String "s" (DecimalString.NilEmpty.string_of_uint d +:+ String "-" rest)).
  cbn [Dump.match_switch_intf].
  rewrite span_digits_dec_uint by done.
  destruct d; try done.
Qed.

Lemma interface_prefix_is_recognised_witness :
  Dump.match_switch_intf ("s" +:+ Fmt.str 12 +:+ "-" +:+ "eth3") = Some ("s" +:+ Fmt.str 12).
Proof. apply (interface_prefix_is_recognised 12 "eth3"). lia. Defined.

(** X16. When the pattern of [dumpTopology] matches a name, the first group
    is the letter s followed by one or more digits, and the name is that
    group, a dash, and some rest: nothing but a name of that form is ever
    attributed to a switch. *)
Theorem interface_match_shape (child group1 : string) :
  Dump.match_switch_intf child = Some group1 →
  ∃ ds rest, group1 = "s" +:+ ds ∧ ds ≠ "" ∧ all_digits ds = true
           ∧ child = group1 +:+ "-" +:+ rest.
Proof.
  unfold Dump.match_switch_intf.
  destruct child as [|c child]; [done|].
  destruct (Ascii.eqb_spec c "s") as [->|Hc].
  2:{ destruct c as [[] [] [] [] [] [] [] []]; try done. }
  destruct (Dump.span_digits child) as [ds r] eqn:Hsp.
  apply span_digits_spec in Hsp as (-> & Hd & _).
  destruct ds as [|d ds]; [done|]. destruct r as [|c r]; [done|].
  destruct (Ascii.eqb_spec c "-") as [->|Hc].
  2:{ destruct c as [[] [] [] [] [] [] [] []]; try done. }
  intros [= <-]. exists (String d ds), r. split; [done|]. split; [done|].
  split; [done|].
  change (String "s" (String d ds +:+ String "-" r)
          = String "s" ((String d ds) +:+ ("-" +:+ r))). done.
Qed.

Lemma interface_match_shape_witness :
  ∃ ds rest, "s3" = "s" +:+ ds ∧ ds ≠ "" ∧ all_digits ds = true
           ∧ "s3-eth1" = "s3" +:+ "-" +:+ rest.
Proof. apply (interface_match_shape "s3-eth1" "s3"). reflexivity. Defined.

(** X17. The interface index recorded for a port is the text of its ifindex
    file up to the first line break: it contains no line break, and the
    file is either that text or that text, a line break and a rest. *)
Theorem first_line_spec (text : string) :
  Fmt.lacks "010" (Dump.first_line text) = true
  ∧ (text = Dump.first_line text
     ∨ ∃ rest, text = Dump.first_line text +:+ String "010" rest).
Proof.
  induction text as [|c text [IH1 IH2]]; [by split; [|left]|].
  cbn [Dump.first_line]. destruct (Ascii.eqb_spec c "010") as [->|Hc].
  - split; [done|]. right. by exists text.
  - split.
    + cbn [Fmt.lacks]. rewrite IH1, andb_true_r.
      apply negb_true_iff. by apply Ascii.eqb_neq.
    + destruct IH2 as [IH2|[rest IH2]].
      * left. by rewrite <- IH2.
      * right. exists rest.
        change (String c text = String c (Dump.first_line text +:+ String "010" rest)).
        by rewrite <- IH2.
Qed.

(* ===================================================================== *)
(** * When the export succeeds and when it fails *)
(* ===================================================================== *)

Section ExportRuns.
Import Dump Snapshot.

(** A loop whose every pass succeeds from a state with [J] and keeps [J]
    succeeds and ends with [J]. *)
Lemma for_total {St X} (J : St → Prop) (xs : list X) (body : X → M St unit) st :
  J st →
  (∀ x st1, In x xs → J st1 → ∃ st2, body x st1 = Ok (tt, st2) ∧ J st2) →
  ∃ st', for_ xs body st = Ok (tt, st') ∧ J st'.
Proof.
  revert st. induction xs as [|x xs IH]; intros st HJ Hstep.
  - by exists st.
  - destruct (Hstep x st (or_introl eq_refl) HJ) as (st1 & E1 & HJ1).
    destruct (IH st1 HJ1) as (st' & E & HJ').
    { intros y s1 Hy. apply Hstep. by right. }
    exists st'. split; [|done]. cbn [for_]. by rewrite (bind_ok _ _ _ _ _ E1).
Qed.

Lemma for_total_prefix {St X} (I : list X → St → Prop) (xs : list X)
    (body : X → M St unit) st :
  I [] st →
  (∀ pre x st1, In x xs → I pre st1 →
     ∃ st2, body x st1 = Ok (tt, st2) ∧ I (pre ++ [x]) st2) →
  ∃ st', for_ xs body st = Ok (tt, st') ∧ I xs st'.
Proof.
  intros H0 Hstep.
  assert (∀ ys pre st, (∀ y, In y ys → In y xs) → I pre st →
            ∃ st', for_ ys body st = Ok (tt, st') ∧ I (pre ++ ys) st') as G.
  { induction ys as [|y ys IH]; intros pre s Hsub HI.
    - exists s. by rewrite app_nil_r.
    - destruct (Hstep pre y s (Hsub y (or_introl eq_refl)) HI) as (s1 & E1 & HI1).
      destruct (IH (pre ++ [y]) s1) as (s' & E & HI'); [|done|].
      { intros z Hz. apply Hsub. by right. }
      exists s'. rewrite <- app_assoc in HI'. split; [|done].
      cbn [for_]. by rewrite (bind_ok _ _ _ _ _ E1). }
  apply (G xs [] st); [done|done].
Qed.

Lemma enumerate_In {A} (l : list A) (i : nat) (x : A) :
  In (i, x) (enumerate l) → l !! i = Some x.
Proof.
  unfold enumerate.
  assert (∀ a, In (i, x) (combine (seq a (length l)) l) →
               (a <= i)%nat ∧ l !! (i - a)%nat = Some x) as G.
  { induction l as [|y l IH]; intros a Hin; [done|].
    cbn [length seq combine] in Hin. destruct Hin as [[= <- <-]|Hin].
    - split; [lia|]. by rewrite Nat.sub_diag.
    - apply IH in Hin as [Hle Hl]. split; [lia|].
      replace (i - a)%nat with (S (i - S a)) by lia. done. }
  intros Hin. apply G in Hin as [_ Hl]. by rewrite Nat.sub_0_r in Hl.
Qed.

Lemma set_port_run sw child ifx td r :
  td_nodes td !! sw = Some r →
  set_port sw child ifx td
  = Ok (tt, {| td_nodes :=
                 <[sw := {| rec_name := rec_name r; rec_dpid := rec_dpid r;
                            rec_ports := <[child := {| port_name := child;
                                                       port_ifindex := ifx |}]>
                                           (rec_ports r);
                            rec_agent := rec_agent r; rec_tag := rec_tag r |}]>
                   (td_nodes td);
               td_links := td_links td |}).
Proof. intros Hr. unfold set_port, mbind, M_bind, node_rec. by rewrite Hr. Qed.

Lemma set_tag_run sw tag td r :
  td_nodes td !! sw = Some r →
  set_tag sw tag td
  = Ok (tt, {| td_nodes :=
                 <[sw := {| rec_name := rec_name r; rec_dpid := rec_dpid r;
                            rec_ports := rec_ports r;
                            rec_agent := rec_agent r; rec_tag := Some tag |}]>
                   (td_nodes td);
               td_links := td_links td |}).
Proof. intros Hr. unfold set_tag, mbind, M_bind, node_rec. by rewrite Hr. Qed.

Lemma ifindex_of_run sw intf td r pr :
  td_nodes td !! sw = Some r → rec_ports r !! intf = Some pr →
  ifindex_of sw intf td = Ok (port_ifindex pr, td).
Proof.
  intros Hr Hp. unfold ifindex_of, mbind, M_bind, node_rec. rewrite Hr, Hp. done.
Qed.

(** The first loop always succeeds. *)
Lemma init_nodes_runs nt agent td :
  ∃ td', init_nodes nt agent td = Ok (tt, td').
Proof.
  destruct (for_total (fun _ => True) (net_switches nt)
              (fun s => set_node_rec (name s)
                 {| rec_name := name s; rec_dpid := dpid s; rec_ports := ∅;
                    rec_agent := agent; rec_tag := None |}) td I) as (td' & E & _).
  - intros s st _ _. by eexists.
  - by exists td'.
Qed.

(** The second loop succeeds when every matching child is readable and has a
    switch of the network as its prefix, and then every such child's port is
    recorded. *)
Lemma scan_ports_runs names sysfs td :
  covers names td →
  (∀ e g, e ∈ sysfs → match_switch_intf e.1 = Some g → is_Some e.2 ∧ g ∈ names) →
  ∃ td', scan_ports sysfs td = Ok (tt, td') ∧ covers names td' ∧ ports_found sysfs td'.
Proof.
  intros Hc Hok. unfold scan_ports. cbv zeta.
  match goal with
  | |- ∃ td', for_ sysfs ?b td = _ ∧ _ =>
      destruct (for_total_prefix
                  (fun pre t => covers names t ∧ ports_found pre t) sysfs b td)
        as (td' & E & Hc' & Hf')
  end.
  - split; [done|]. intros e g He. by apply elem_of_nil in He.
  - intros pre e st1 He [Hc1 Hf1]. cbv beta.
    destruct (match_switch_intf e.1) as [g|] eqn:Hm.
    + destruct (Hok e g (proj2 (list_elem_of_In _ _) He) Hm) as [[text Ht] Hg].
      destruct (Hc1 g Hg) as [r Hr].
      rewrite Ht. unfold read_file.
      erewrite bind_ok; [|reflexivity].
      rewrite (set_port_run _ _ _ _ r Hr). eexists. split; [done|]. split.
      * intros k Hk. cbn [td_nodes]. destruct (decide (g = k)) as [->|Hne].
        -- rewrite lookup_insert_eq. by eexists.
        -- rewrite lookup_insert_ne by done. by apply Hc1.
      * intros e' g' He' Hm'. cbn [td_nodes].
        apply elem_of_app in He' as [He'|He'].
        -- destruct (Hf1 e' g' He' Hm') as (r' & Hr' & Hp').
           destruct (decide (g = g')) as [->|Hne].
           ++ rewrite lookup_insert_eq. eexists. split; [done|]. cbn [rec_ports].
              rewrite Hr in Hr'. injection Hr' as <-.
              destruct (decide (e.1 = e'.1)) as [->|Hnp].
              ** rewrite lookup_insert_eq. by eexists.
              ** by rewrite lookup_insert_ne.
           ++ rewrite lookup_insert_ne by done. by exists r'.
        -- apply list_elem_of_singleton in He' as ->.
           rewrite Hm in Hm'. injection Hm' as <-.
           rewrite lookup_insert_eq. eexists. split; [done|]. cbn [rec_ports].
           rewrite lookup_insert_eq. by eexists.
    + exists st1. split; [done|]. split; [done|].
      intros e' g' He' Hm'. apply elem_of_app in He' as [He'|He'].
      * by apply Hf1.
      * apply list_elem_of_singleton in He' as ->. by rewrite Hm in Hm'.
  - by exists td'.
Qed.

(** The third loop succeeds when both ends of every link between two
    switches are recorded. *)
Lemma scan_links_runs nt names sysfs td :
  covers names td → ports_found sysfs td →
  (∀ (i j : nat) s1 s2 a b,
     net_switches nt !! i = Some s1 → net_switches nt !! j = Some s2 → (i < j)%nat →
     (a, b) ∈ NetOps.connectionsTo nt (name s1) (name s2) →
     discovered sysfs (name s1) a ∧ discovered sysfs (name s2) b) →
  ∃ td', scan_links nt td = Ok (tt, td') ∧ covers names td'.
Proof.
  intros Hc Hf Hd. unfold scan_links. cbv zeta.
  set (J := fun t : TopoData => td_nodes t = td_nodes td).
  assert (∀ t, J t → covers names t) as HJc.
  { intros t Ht k Hk. unfold J in Ht. rewrite Ht. by apply Hc. }
  match goal with
  | |- ∃ td', for_ ?xs ?b td = _ ∧ _ =>
      destruct (for_total J xs b td eq_refl) as (td' & E & HJ'); [|exists td'; auto]
  end.
  intros [i s1] t1 Hi HJ1. cbv beta. cbn [fst snd].
  apply enumerate_In in Hi.
  match goal with
  | |- ∃ st2, for_ ?xs ?b t1 = _ ∧ _ => apply (for_total J xs b t1 HJ1)
  end.
  intros [j s2] t2 Hj HJ2. cbv beta. cbn [fst snd].
  apply enumerate_In in Hj.
  destruct (Nat.ltb_spec i j) as [Hij|_]; [|by exists t2].
  match goal with
  | |- ∃ st2, for_ ?xs ?b t2 = _ ∧ _ => apply (for_total J xs b t2 HJ2)
  end.
  intros [a b] t3 Hab HJ3. cbv beta. cbn [fst snd].
  destruct (Hd i j s1 s2 a b Hi Hj Hij (proj2 (list_elem_of_In _ _) Hab))
    as [(e1 & He1 & Hn1 & Hm1) (e2 & He2 & Hn2 & Hm2)].
  subst a b.
  destruct (Hf e1 _ He1 Hm1) as (r1 & Hr1 & [p1 Hp1]).
  destruct (Hf e2 _ He2 Hm2) as (r2 & Hr2 & [p2 Hp2]).
  unfold J in HJ3. rewrite <- HJ3 in Hr1, Hr2.
  rewrite (bind_ok _ _ _ _ _ (ifindex_of_run _ _ _ _ _ Hr1 Hp1)).
  rewrite (bind_ok _ _ _ _ _ (ifindex_of_run _ _ _ _ _ Hr2 Hp2)).
  eexists. split; [reflexivity|]. unfold J. cbn [td_nodes]. done.
Qed.

(** The fourth loop succeeds when every switch has its record. *)
Lemma tag_edges_runs nt td :
  covers (map name (net_switches nt)) td →
  ∃ td', tag_edges nt td = Ok (tt, td').
Proof.
  intros Hc. unfold tag_edges. cbv zeta.
  set (J := covers (map name (net_switches nt))).
  match goal with
  | |- ∃ td', for_ ?xs ?b td = _ =>
      destruct (for_total J xs b td Hc) as (td' & E & _); [|by exists td']
  end.
  intros h t1 _ HJ1. cbv beta.
  match goal with
  | |- ∃ st2, for_ ?xs ?b t1 = _ ∧ _ => apply (for_total J xs b t1 HJ1)
  end.
  intros s t2 Hs HJ2. cbv beta.
  destruct (NetOps.connectionsTo nt (name h) (name s)); [by exists t2|].
  destruct (HJ2 (name s)) as [r Hr].
  { apply list_elem_of_fmap. exists s. split; [done|]. by apply list_elem_of_In. }
  rewrite (set_tag_run _ _ _ r Hr). eexists. split; [done|].
  intros k Hk. cbn [td_nodes]. destruct (decide (name s = k)) as [->|Hne].
  - rewrite lookup_insert_eq. by eexists.
  - rewrite lookup_insert_ne by done. by apply HJ2.
Qed.

End ExportRuns.

(** X18. The export succeeds, and produces a snapshot, whenever (1) every
    child of the scanned directory whose name matches the pattern has a
    readable ifindex file and a switch of the network as its prefix, and (2)
    for every two switches joined by a link, the interface at each end was
    discovered for the switch at that end. *)
Theorem export_succeeds (nt : Net) (sysfs : list (string * option string))
    (agent : string) :
  (∀ e g, e ∈ sysfs → Dump.match_switch_intf e.1 = Some g →
     is_Some e.2 ∧ g ∈ map name (net_switches nt)) →
  (∀ (i j : nat) s1 s2 a b,
     net_switches nt !! i = Some s1 → net_switches nt !! j = Some s2 → (i < j)%nat →
     (a, b) ∈ NetOps.connectionsTo nt (name s1) (name s2) →
     Snapshot.discovered sysfs (name s1) a ∧ Snapshot.discovered sysfs (name s2) b) →
  ∃ td, Dump.dumpTopology nt sysfs agent = Ok td.
Proof.
  intros Hscan Hlinks.
  destruct (init_nodes_runs nt agent {| td_nodes := ∅; td_links := ∅ |}) as (td1 & E1).
  destruct (init_nodes_post _ _ _ E1) as (Hc1 & _ & _).
  destruct (scan_ports_runs _ sysfs td1 Hc1 Hscan) as (td2 & E2 & Hc2 & Hf2).
  destruct (scan_links_runs nt _ sysfs td2 Hc2 Hf2 Hlinks) as (td3 & E3 & Hc3).
  destruct (tag_edges_runs nt td3 Hc3) as (td4 & E4).
  exists td4. unfold Dump.dumpTopology, Dump.fill.
  rewrite (bind_ok _ _ _ _ _ E1), (bind_ok _ _ _ _ _ E2), (bind_ok _ _ _ _ _ E3), E4.
  done.
Qed.

Lemma small_sysfs_scannable :
  ∀ e g, e ∈ small_sysfs → Dump.match_switch_intf e.1 = Some g →
    is_Some e.2 ∧ g ∈ map name (net_switches small_net).
Proof.
  intros e g He Hm. unfold small_sysfs in He.
  repeat (apply elem_of_cons in He as [->|He];
          [vm_compute in Hm;
           first [ discriminate Hm
                 | injection Hm as <-;
                   split; [by eexists|vm_compute; by repeat constructor] ]|]).
  by apply elem_of_nil in He.
Defined.

Lemma small_net_links_discovered :
  ∀ (i j : nat) s1 s2 a b,
    net_switches small_net !! i = Some s1 → net_switches small_net !! j = Some s2 →
    (i < j)%nat →
    (a, b) ∈ NetOps.connectionsTo small_net (name s1) (name s2) →
    Snapshot.discovered small_sysfs (name s1) a ∧ Snapshot.discovered small_sysfs (name s2) b.
Proof.
  intros i j s1 s2 a b Hi Hj Hij Hab.
  destruct i as [|i].
  - destruct j as [|[|j]]; [lia| |done].
    injection Hi as <-. injection Hj as <-. vm_compute in Hab.
    apply list_elem_of_singleton in Hab. injection Hab as -> ->.
    split.
    + exists ("s1-eth1", Some "7
"). split; [vm_compute; by repeat constructor|done].
    + exists ("s2-eth1", Some "8
"). split; [vm_compute; by repeat constructor|done].
  - destruct i as [|i]; [|done]. destruct j as [|[|j]]; [lia|lia|done].
Defined.

Lemma export_succeeds_witness :
  ∃ td, Dump.dumpTopology small_net small_sysfs "127.0.0.1" = Ok td.
Proof.
  apply (export_succeeds small_net small_sysfs "127.0.0.1").
  - exact small_sysfs_scannable.
  - exact small_net_links_discovered.
Defined.

Section ExportRecords.
Import Dump Snapshot.

Lemma init_nodes_within nt agent td :
  init_nodes nt agent {| td_nodes := ∅; td_links := ∅ |} = Ok (tt, td) →
  within (map name (net_switches nt)) td ∧ td_links td = ∅.
Proof.
  intros H.
  apply (for_inv_prefix (fun pre t => within (map name pre) t ∧ td_links t = ∅)) in H;
    [done| |].
  - split; [|done]. intros k [r Hr]. cbn [td_nodes] in Hr. by rewrite lookup_empty in Hr.
  - intros pre s t1 t2 [Hw Hl] E. injection E as <-. split; [|done].
    intros k. cbn [td_nodes]. rewrite map_app. destruct (decide (name s = k)) as [<-|Hne].
    + intros _. apply elem_of_app. right. by apply list_elem_of_singleton.
    + rewrite lookup_insert_ne by done. intros Hk. apply elem_of_app. left. by apply Hw.
Qed.

Lemma init_nodes_faithful nt sysfs agent td :
  init_nodes nt agent {| td_nodes := ∅; td_links := ∅ |} = Ok (tt, td) →
  faithful nt sysfs agent td.
Proof.
  intros H. apply (for_inv_ok (faithful nt sysfs agent)) in H; [done| |].
  - intros s t1 t2 Hs Hf E. injection E as <-.
    intros k r. cbn [td_nodes]. destruct (decide (name s = k)) as [<-|Hne].
    + rewrite lookup_insert_eq. intros [= <-]. cbn.
      split; [done|]. split; [done|]. split.
      * exists s. split; [by apply list_elem_of_In|done].
      * intros p pr Hp. by rewrite lookup_empty in Hp.
    + rewrite lookup_insert_ne by done. apply Hf.
  - intros k r Hr. cbn [td_nodes] in Hr. by rewrite lookup_empty in Hr.
Qed.

(** One pass of the second loop. *)
Lemma scan_pass nt names sysfs agent (e : string * option string) t1 t2 :
  In e sysfs → within names t1 → faithful nt sysfs agent t1 →
  match match_switch_intf e.1 with
  | Some group1 =>
      text ← read_file ("/sys/devices/virtual/net/" +:+ e.1 +:+ "/ifindex") e.2;
      set_port group1 e.1 (first_line text)
  | None => mret tt
  end t1 = Ok (tt, t2) →
  within names t2 ∧ faithful nt sysfs agent t2 ∧ td_links t2 = td_links t1.
Proof.
  intros He Hw1 Hf1 E.
  destruct (match_switch_intf e.1) as [g|] eqn:Hm.
  2:{ by injection E as <-. }
  apply bind_inv in E as (text & t3 & Hread & E).
  assert (t3 = t1 ∧ e.2 = Some text) as [-> Ht].
  { unfold read_file in Hread. destruct e.2; [|done]. by injection Hread as -> ->. }
  apply set_port_ok in E as (r & Hr & Hl & Hn).
  split; [|split; [|done]].
  - intros k. rewrite Hn. destruct (decide (g = k)) as [<-|Hne].
    + intros _. apply Hw1. by exists r.
    + rewrite lookup_insert_ne by done. apply Hw1.
  - intros k r'. rewrite Hn. destruct (decide (g = k)) as [<-|Hne].
    + rewrite lookup_insert_eq. intros [= <-]. cbn.
      destruct (Hf1 g r Hr) as (Hname & Hagent & Hsw & Hports).
      split; [done|]. split; [done|]. split; [done|].
      intros p pr. destruct (decide (e.1 = p)) as [<-|Hnp].
      * rewrite lookup_insert_eq. intros [= <-]. cbn.
        split; [done|]. split; [done|]. exists text. split; [|done].
        apply list_elem_of_In. destruct e as [c o]. cbn in Ht. by subst o.
      * rewrite lookup_insert_ne by done. apply Hports.
    + rewrite lookup_insert_ne by done. apply Hf1.
Qed.

Lemma scan_ports_faithful nt names sysfs agent td td' :
  within names td → faithful nt sysfs agent td →
  scan_ports sysfs td = Ok (tt, td') →
  within names td' ∧ faithful nt sysfs agent td' ∧ td_links td' = td_links td.
Proof.
  intros Hw Hf H. unfold scan_ports in H. cbv zeta in H.
  apply (for_inv_ok (fun t => within names t ∧ faithful nt sysfs agent t
                              ∧ td_links t = td_links td)) in H; [done| |done].
  intros e t1 t2 He (Hw1 & Hf1 & Hl1) E.
  destruct (scan_pass nt names sysfs agent e t1 t2 He Hw1 Hf1 E) as (? & ? & Hl).
  split; [done|]. split; [done|]. congruence.
Qed.

Lemma tag_edges_keeps (J : TopoData → Prop) nt td td' :
  (∀ t sw r, J t → td_nodes t !! sw = Some r →
     J {| td_nodes := <[sw := {| rec_name := rec_name r; rec_dpid := rec_dpid r;
                                 rec_ports := rec_ports r; rec_agent := rec_agent r;
                                 rec_tag := Some "edge" |}]> (td_nodes t);
          td_links := td_links t |}) →
  J td → tag_edges nt td = Ok (tt, td') → J td'.
Proof.
  intros Hset HJ H. unfold tag_edges in H. cbv zeta in H.
  apply (for_inv_ok J) in H; [done| |done].
  intros h t1 t2 _ HJ1 E. apply (for_inv_ok J) in E; [done| |done].
  intros s t3 t4 _ HJ3 E'.
  destruct (NetOps.connectionsTo nt (name h) (name s)); [by injection E' as <-|].
  unfold set_tag in E'. apply bind_inv in E' as (r & t5 & Hr & E').
  apply node_rec_ok in Hr as [-> Hr]. injection E' as <-. by apply Hset.
Qed.

Lemma within_nodes names t1 t2 :
  td_nodes t2 = td_nodes t1 → within names t1 → within names t2.
Proof. intros E Hw k. rewrite E. apply Hw. Qed.

Lemma faithful_nodes nt sysfs agent t1 t2 :
  td_nodes t2 = td_nodes t1 → faithful nt sysfs agent t1 → faithful nt sysfs agent t2.
Proof. intros E Hf k r. rewrite E. apply Hf. Qed.

(** What the first three loops leave in the node dictionary. *)
Lemma nodes_before_tagging nt sysfs agent td1 td2 td3 :
  init_nodes nt agent {| td_nodes := ∅; td_links := ∅ |} = Ok (tt, td1) →
  scan_ports sysfs td1 = Ok (tt, td2) →
  scan_links nt td2 = Ok (tt, td3) →
  within (map name (net_switches nt)) td3 ∧ faithful nt sysfs agent td3.
Proof.
  intros H1 H2 H3.
  destruct (init_nodes_within _ _ _ H1) as [Hw1 _].
  pose proof (init_nodes_faithful nt sysfs agent td1 H1) as Hf1.
  destruct (scan_ports_faithful nt _ sysfs agent td1 td2 Hw1 Hf1 H2) as (Hw2 & Hf2 & _).
  split.
  - apply (scan_links_keeps (within (map name (net_switches nt))) nt td2 td3);
      [apply within_nodes|done|done].
  - apply (scan_links_keeps (faithful nt sysfs agent) nt td2 td3);
      [apply faithful_nodes|done|done].
Qed.

End ExportRecords.

(** X19. The export fails, with an exception and without a snapshot, when
    the scanned directory lists a child whose name matches the pattern and
    whose ifindex file cannot be read, or whose prefix is not the name of a
    switch of the network. *)
Theorem scan_failure (nt : Net) (sysfs : list (string * option string)) (agent : string)
    (e : string * option string) (g : string) :
  e ∈ sysfs → Dump.match_switch_intf e.1 = Some g →
  e.2 = None ∨ g ∉ map name (net_switches nt) →
  ∃ err, Dump.dumpTopology nt sysfs agent = Raise err.
Proof.
  intros He Hm Hbad.
  destruct (Dump.dumpTopology nt sysfs agent) as [td|err] eqn:Hdump; [|by exists err].
  exfalso.
  apply dump_phases in Hdump as (td1 & td2 & td3 & H1 & H2 & _).
  destruct (init_nodes_within _ _ _ H1) as [Hw1 _].
  pose proof (init_nodes_faithful nt sysfs agent td1 H1) as Hf1.
  set (J := fun t => Snapshot.within (map name (net_switches nt)) t
                     ∧ Snapshot.faithful nt sysfs agent t).
  assert (J td1) as HJ1 by done.
  assert (In e sysfs) as Hin by (by apply list_elem_of_In).
  unfold Dump.scan_ports in H2. cbv zeta in H2.
  eapply (for_ok_elem J) in H2 as (t1 & t2 & [Hw _] & E); [| |exact HJ1|exact Hin].
  2:{ intros y u1 u2 Hy [Hwu Hfu] E.
      destruct (scan_pass nt _ sysfs agent y u1 u2 Hy Hwu Hfu E) as (? & ? & _).
      by split. }
  cbv beta in E. rewrite Hm in E.
  apply bind_inv in E as (text & t3 & Hread & E).
  destruct Hbad as [Hnone|Hout].
  - rewrite Hnone in Hread. done.
  - assert (t3 = t1) as ->.
    { unfold Dump.read_file in Hread. destruct e.2; [|done]. by injection Hread. }
    apply set_port_ok in E as (r & Hr & _). apply Hout, Hw. by exists r.
Qed.

Lemma scan_failure_witness :
  ∃ err, Dump.dumpTopology small_net (("s9-eth1", Some "3") :: small_sysfs) "127.0.0.1"
         = Raise err.
Proof.
  apply (scan_failure small_net _ "127.0.0.1" ("s9-eth1", Some "3") "s9").
  - left.
  - reflexivity.
  - right. vm_compute. intros H.
    repeat (apply elem_of_cons in H as [H|H]; [discriminate H|]).
    by apply elem_of_nil in H.
Defined.

Example stale_interface_is_KeyError :
  Dump.dumpTopology small_net (("s9-eth1", Some "3") :: small_sysfs) "127.0.0.1"
  = Raise (KeyError "s9").
Proof. vm_compute. reflexivity. Qed.

Example unreadable_ifindex_is_IOError :
  Dump.dumpTopology small_net (("s1-eth7", None) :: small_sysfs) "127.0.0.1"
  = Raise (IOError "/sys/devices/virtual/net/s1-eth7/ifindex").
Proof. vm_compute. reflexivity. Qed.

Section ExportNodes.
Import Dump Snapshot.

Lemma tag_keeps_within names t sw r :
  within names t → td_nodes t !! sw = Some r →
  within names
    {| td_nodes := <[sw := {| rec_name := rec_name r; rec_dpid := rec_dpid r;
                              rec_ports := rec_ports r; rec_agent := rec_agent r;
                              rec_tag := Some "edge" |}]> (td_nodes t);
       td_links := td_links t |}.
Proof.
  intros Hw Hr k. cbn [td_nodes]. destruct (decide (sw = k)) as [<-|Hne].
  - intros _. apply Hw. by exists r.
  - rewrite lookup_insert_ne by done. apply Hw.
Qed.

Lemma tag_keeps_faithful nt sysfs agent t sw r :
  faithful nt sysfs agent t → td_nodes t !! sw = Some r →
  faithful nt sysfs agent
    {| td_nodes := <[sw := {| rec_name := rec_name r; rec_dpid := rec_dpid r;
                              rec_ports := rec_ports r; rec_agent := rec_agent r;
                              rec_tag := Some "edge" |}]> (td_nodes t);
       td_links := td_links t |}.
Proof.
  intros Hf Hr k r'. cbn [td_nodes]. destruct (decide (sw = k)) as [<-|Hne].
  - rewrite lookup_insert_eq. intros [= <-]. cbn. by apply Hf.
  - rewrite lookup_insert_ne by done. apply Hf.
Qed.

End ExportNodes.

(** X20. In the snapshot of a successful export of a network whose switches
    have distinct names, the node dictionary has a record for the name of
    every switch and for nothing else (no host gets one).  The record of a
    switch is filed under its name and carries its name, its dpid and the
    agent; every port in it is filed under its own name, is an interface
    whose prefix is this switch, and carries the first line of the ifindex
    file of a listed child of that name. *)
Theorem node_records (nt : Net) (sysfs : list (string * option string)) (agent : string)
    (td : TopoData) :
  Dump.dumpTopology nt sysfs agent = Ok td →
  NoDup (map name (net_switches nt)) →
  (∀ k, is_Some (td_nodes td !! k) ↔ k ∈ map name (net_switches nt))
  ∧ ∀ s, s ∈ net_switches nt →
      ∃ r, td_nodes td !! name s = Some r
         ∧ rec_name r = name s ∧ rec_dpid r = dpid s ∧ rec_agent r = agent
         ∧ ∀ p pr, rec_ports r !! p = Some pr →
             port_name pr = p ∧ Dump.match_switch_intf p = Some (name s)
             ∧ ∃ text, (p, Some text) ∈ sysfs ∧ port_ifindex pr = Dump.first_line text.
Proof.
  intros Hdump Hnd.
  apply dump_phases in Hdump as (td1 & td2 & td3 & H1 & H2 & H3 & H4).
  destruct (nodes_before_tagging nt sysfs agent td1 td2 td3 H1 H2 H3) as [Hw3 Hf3].
  assert (Dump.covers (map name (net_switches nt)) td) as Hc.
  { apply init_nodes_post in H1 as (Hc1 & Hu1 & Hp1).
    apply (scan_ports_post (map name (net_switches nt))) in H2; [|done..].
    apply (scan_links_keeps (Dump.scanned (map name (net_switches nt)) sysfs)) in H3;
      [|apply scanned_nodes|done].
    destruct H3 as (Hc3 & Hu3 & _).
    by apply (tag_edges_post nt (map name (net_switches nt))) in H4 as [Hc4 _]. }
  assert (Snapshot.within (map name (net_switches nt)) td) as Hw.
  { apply (tag_edges_keeps (Snapshot.within (map name (net_switches nt))) nt td3 td);
      [|done|done].
    intros t sw r. apply tag_keeps_within. }
  assert (Snapshot.faithful nt sysfs agent td) as Hf.
  { apply (tag_edges_keeps (Snapshot.faithful nt sysfs agent) nt td3 td); [|done|done].
    intros t sw r. apply tag_keeps_faithful. }
  split.
  - intros k. split; [apply Hw|apply Hc].
  - intros s Hs. destruct (Hc (name s)) as [r Hr].
    { apply list_elem_of_fmap. by exists s. }
    exists r. split; [done|].
    destruct (Hf _ _ Hr) as (Hname & Hagent & (s' & Hs' & Hn' & Hdpid) & Hports).
    assert (s' = s) as ->.
    { apply list_elem_of_lookup in Hs as [i Hi]. apply list_elem_of_lookup in Hs' as [j Hj].
      assert (i = j) as ->.
      { apply (NoDup_lookup _ i j (name s) Hnd);
          rewrite list_lookup_fmap; [by rewrite Hi|rewrite Hj; cbn; by rewrite Hn']. }
      congruence. }
    done.
Qed.

Lemma node_records_witness :
  ∃ td, Dump.dumpTopology small_net small_sysfs "127.0.0.1" = Ok td
  ∧ (∀ k, is_Some (td_nodes td !! k) ↔ k ∈ map name (net_switches small_net))
  ∧ ∀ s, s ∈ net_switches small_net →
      ∃ r, td_nodes td !! name s = Some r
         ∧ rec_name r = name s ∧ rec_dpid r = dpid s ∧ rec_agent r = "127.0.0.1"
         ∧ ∀ p pr, rec_ports r !! p = Some pr →
             port_name pr = p ∧ Dump.match_switch_intf p = Some (name s)
             ∧ ∃ text, (p, Some text) ∈ small_sysfs
                       ∧ port_ifindex pr = Dump.first_line text.
Proof.
  destruct (Dump.dumpTopology small_net small_sysfs "127.0.0.1") as [td|e] eqn:E.
  - exists td. split; [reflexivity|].
    apply (node_records small_net small_sysfs "127.0.0.1" td E).
    vm_compute. repeat constructor.
    + intros H. repeat (apply elem_of_cons in H as [H|H]; [discriminate H|]).
      by apply elem_of_nil in H.
    + intros H. by apply elem_of_nil in H.
  - vm_compute in E. discriminate E.
Defined.

Section ExportLinks.
Import Dump Snapshot.

(** After a successful loop, what a pass establishes and every pass keeps. *)
Lemma for_elem_post {St X} (Q : St → Prop) (xs : list X) (body : X → M St unit)
    (x : X) st st' :
  (∀ y st1 st2, body y st1 = Ok (tt, st2) → Q st1 → Q st2) →
  (∀ st1 st2, body x st1 = Ok (tt, st2) → Q st2) →
  In x xs → for_ xs body st = Ok (tt, st') → Q st'.
Proof.
  intros Hmono Hset. revert st. induction xs as [|y xs IH]; intros st Hx Hrun; [done|].
  cbn [for_] in Hrun. apply bind_inv in Hrun as ([] & st1 & H1 & H2).
  destruct Hx as [->|Hx].
  - apply (for_inv_ok Q) in H2; [done| |by apply (Hset st)].
    intros z s1 s2 _ HQ E. by apply (Hmono z s1).
  - by apply (IH st1).
Qed.

(** One pass of the innermost loop of the third loop. *)
Lemma link_pass_inv n1 n2 (intf : string * string) td td' :
  (s1ifIdx ← ifindex_of n1 intf.1;
   s2ifIdx ← ifindex_of n2 intf.2;
   set_link_rec (n1 +:+ "-" +:+ n2)
     {| rec_node1 := n1; rec_port1 := intf.1; rec_ifindex1 := s1ifIdx;
        rec_node2 := n2; rec_port2 := intf.2; rec_ifindex2 := s2ifIdx |}) td
  = Ok (tt, td') →
  ∃ x1 x2,
    td_links td'
    = <[n1 +:+ "-" +:+ n2 :=
          {| rec_node1 := n1; rec_port1 := intf.1; rec_ifindex1 := x1;
             rec_node2 := n2; rec_port2 := intf.2; rec_ifindex2 := x2 |}]> (td_links td).
Proof.
  intros H.
  apply bind_inv in H as (x1 & td1 & H1 & H).
  apply ifindex_of_ok in H1 as [-> _].
  apply bind_inv in H as (x2 & td2 & H2 & H).
  apply ifindex_of_ok in H2 as [-> _].
  injection H as <-. by exists x1, x2.
Qed.

Lemma scan_links_sound nt td td' :
  links_sound nt td → scan_links nt td = Ok (tt, td') → links_sound nt td'.
Proof.
  intros Hs H. unfold scan_links in H. cbv zeta in H.
  apply (for_inv_ok (links_sound nt)) in H; [done| |done].
  intros [i s1] t1 t2 Hi Ht1 E. cbn [fst snd] in E. apply enumerate_In in Hi.
  apply (for_inv_ok (links_sound nt)) in E; [done| |done].
  intros [j s2] t3 t4 Hj Ht3 E'. cbn [fst snd] in E'. apply enumerate_In in Hj.
  destruct (Nat.ltb_spec i j) as [Hij|_]; [|by injection E' as <-].
  apply (for_inv_ok (links_sound nt)) in E'; [done| |done].
  intros [a b] t5 t6 Hab Ht5 E''.
  apply link_pass_inv in E'' as (x1 & x2 & Hl). cbn [fst snd] in Hl.
  intros k r. rewrite Hl.
  destruct (decide (name s1 +:+ "-" +:+ name s2 = k)) as [<-|Hne].
  - rewrite lookup_insert_eq. intros [= <-]. cbn.
    exists i, j, s1, s2. repeat split; try done. by apply list_elem_of_In.
  - rewrite lookup_insert_ne by done. apply Ht5.
Qed.

Lemma scan_links_complete nt td td' (i j : nat) s1 s2 :
  net_switches nt !! i = Some s1 → net_switches nt !! j = Some s2 → (i < j)%nat →
  NetOps.connectionsTo nt (name s1) (name s2) ≠ [] →
  scan_links nt td = Ok (tt, td') →
  is_Some (td_links td' !! (name s1 +:+ "-" +:+ name s2)).
Proof.
  intros Hi Hj Hij Hconn H. unfold scan_links in H. cbv zeta in H.
  set (key := name s1 +:+ "-" +:+ name s2).
  set (Q := fun t : TopoData => is_Some (td_links t !! key)).
  assert (∀ n1 n2 (intf : string * string) t1 t2,
            (s1ifIdx ← ifindex_of n1 intf.1;
             s2ifIdx ← ifindex_of n2 intf.2;
             set_link_rec (n1 +:+ "-" +:+ n2)
               {| rec_node1 := n1; rec_port1 := intf.1; rec_ifindex1 := s1ifIdx;
                  rec_node2 := n2; rec_port2 := intf.2; rec_ifindex2 := s2ifIdx |}) t1
            = Ok (tt, t2) → Q t1 → Q t2) as Hpass.
  { intros n1 n2 intf t1 t2 E HQ. apply link_pass_inv in E as (x1 & x2 & Hl).
    unfold Q. rewrite Hl. destruct (decide (n1 +:+ "-" +:+ n2 = key)) as [->|Hne].
    - rewrite lookup_insert_eq. by eexists.
    - by rewrite lookup_insert_ne. }
  assert (∀ (is1 js2 : nat * Node) t1 t2,
            (if (is1.1 <? js2.1)%nat
             then for_ (NetOps.connectionsTo nt (name is1.2) (name js2.2)) (fun intf =>
                    s1ifIdx ← ifindex_of (name is1.2) intf.1;
                    s2ifIdx ← ifindex_of (name js2.2) intf.2;
                    set_link_rec (name is1.2 +:+ "-" +:+ name js2.2)
                      {| rec_node1 := name is1.2; rec_port1 := intf.1;
                         rec_ifindex1 := s1ifIdx;
                         rec_node2 := name js2.2; rec_port2 := intf.2;
                         rec_ifindex2 := s2ifIdx |})
             else mret tt) t1 = Ok (tt, t2) → Q t1 → Q t2) as Hmid.
  { intros is1 js2 t1 t2 E HQ. destruct (is1.1 <? js2.1)%nat.
    - apply (for_inv_ok Q) in E; [done| |done].
      intros intf u1 u2 _ Hu E'. by apply (Hpass (name is1.2) (name js2.2) intf u1).
    - by injection E as <-. }
  apply (for_elem_post Q _ _ (i, s1)) in H; [done| | |by apply enumerate_lookup].
  - intros y t1 t2 E HQ. apply (for_inv_ok Q) in E; [done| |done].
    intros z u1 u2 _ Hu E'. by apply (Hmid y z u1).
  - intros t1 t2 E.
    apply (for_elem_post Q _ _ (j, s2)) in E; [done| | |by apply enumerate_lookup].
    + intros z u1 u2 E' Hu. by apply (Hmid (i, s1) z u1).
    + intros u1 u2 E'. cbn [fst snd] in E'.
      destruct (Nat.ltb_spec i j) as [_|]; [|lia].
      destruct (NetOps.connectionsTo nt (name s1) (name s2)) as [|ab intfs] eqn:Hc; [done|].
      apply (for_elem_post Q _ _ ab) in E'; [done| | |by left].
      * intros intf v1 v2 E'' Hv. by apply (Hpass (name s1) (name s2) intf v1).
      * intros v1 v2 E''. apply link_pass_inv in E'' as (x1 & x2 & Hl).
        unfold Q, key. rewrite Hl, lookup_insert_eq. by eexists.
Qed.

End ExportLinks.

(** X21. In the snapshot of a successful export the link dictionary has an
    entry exactly for the pairs of switches joined by a link, filed under the
    names of the two switches, the one earlier in [net.switches] first,
    joined by a dash.  The entry names the two switches in that order and the
    two interfaces of one connection between them.  Every entry is for two
    switches of the network: the links of the hosts get none. *)
Theorem link_records (nt : Net) (sysfs : list (string * option string)) (agent : string)
    (td : TopoData) :
  Dump.dumpTopology nt sysfs agent = Ok td →
  (∀ k r, td_links td !! k = Some r →
     ∃ (i j : nat) s1 s2,
       net_switches nt !! i = Some s1 ∧ net_switches nt !! j = Some s2 ∧ (i < j)%nat
     ∧ k = name s1 +:+ "-" +:+ name s2
     ∧ rec_node1 r = name s1 ∧ rec_node2 r = name s2
     ∧ (rec_port1 r, rec_port2 r) ∈ NetOps.connectionsTo nt (name s1) (name s2))
  ∧ (∀ (i j : nat) s1 s2,
       net_switches nt !! i = Some s1 → net_switches nt !! j = Some s2 → (i < j)%nat →
       NetOps.connectionsTo nt (name s1) (name s2) ≠ [] →
       is_Some (td_links td !! (name s1 +:+ "-" +:+ name s2))).
Proof.
  intros Hdump.
  apply dump_phases in Hdump as (td1 & td2 & td3 & H1 & H2 & H3 & H4).
  destruct (init_nodes_within _ _ _ H1) as [Hw1 Hl1].
  pose proof (init_nodes_faithful nt sysfs agent td1 H1) as Hf1.
  destruct (scan_ports_faithful nt _ sysfs agent td1 td2 Hw1 Hf1 H2) as (_ & _ & Hl2).
  split.
  - assert (Snapshot.links_sound nt td2) as Hs2.
    { intros k r. rewrite Hl2, Hl1, lookup_empty. done. }
    pose proof (scan_links_sound nt td2 td3 Hs2 H3) as Hs3.
    apply (tag_edges_keeps (Snapshot.links_sound nt) nt td3 td); [|done|done].
    intros t sw r Ht _. exact Ht.
  - intros i j s1 s2 Hi Hj Hij Hconn.
    pose proof (scan_links_complete nt td2 td3 i j s1 s2 Hi Hj Hij Hconn H3) as HQ.
    apply (tag_edges_keeps
             (fun t => is_Some (td_links t !! (name s1 +:+ "-" +:+ name s2))) nt td3 td);
      [|done|done].
    intros t sw r Ht _. exact Ht.
Qed.

Lemma link_records_witness :
  ∃ td, Dump.dumpTopology small_net small_sysfs "127.0.0.1" = Ok td
  ∧ (∀ k r, td_links td !! k = Some r →
       ∃ (i j : nat) s1 s2,
         net_switches small_net !! i = Some s1 ∧ net_switches small_net !! j = Some s2
       ∧ (i < j)%nat
       ∧ k = name s1 +:+ "-" +:+ name s2
       ∧ rec_node1 r = name s1 ∧ rec_node2 r = name s2
       ∧ (rec_port1 r, rec_port2 r) ∈ NetOps.connectionsTo small_net (name s1) (name s2))
  ∧ (∀ (i j : nat) s1 s2,
       net_switches small_net !! i = Some s1 → net_switches small_net !! j = Some s2 →
       (i < j)%nat →
       NetOps.connectionsTo small_net (name s1) (name s2) ≠ [] →
       is_Some (td_links td !! (name s1 +:+ "-" +:+ name s2))).
Proof.
  destruct (Dump.dumpTopology small_net small_sysfs "127.0.0.1") as [td|e] eqn:E.
  - exists td. split; [reflexivity|].
    exact (link_records small_net small_sysfs "127.0.0.1" td E).
  - vm_compute in E. discriminate E.
Defined.

Example small_net_link_record :
  ∃ td, Dump.dumpTopology small_net small_sysfs "127.0.0.1" = Ok td
  ∧ td_links td !! "s1-s2"
    = Some {| rec_node1 := "s1"; rec_port1 := "s1-eth1"; rec_ifindex1 := "7";
              rec_node2 := "s2"; rec_port2 := "s2-eth1"; rec_ifindex2 := "8" |}
  ∧ td_links td !! "s2-s1" = None ∧ td_links td !! "h1-s2" = None.
Proof. eexists. split; [vm_compute; reflexivity|]. vm_compute. by repeat split. Qed.

(* ===================================================================== *)
(** * How the exporter fails *)
(* ===================================================================== *)

Section ExportFailure.
Import Dump Snapshot.

Lemma bind_raise_inv {St A B} (m : M St A) (k : A → M St B) st e :
  (m ≫= k) st = Raise e →
  m st = Raise e ∨ ∃ a st1, m st = Ok (a, st1) ∧ k a st1 = Raise e.
Proof.
  unfold mbind, M_bind. destruct (m st) as [[a st1]|e'].
  - intros H. right. by exists a, st1.
  - intros [= ->]. by left.
Qed.

(** A loop that raises does so in one of its passes, entered in a state
    that the passes before it have kept within [J]. *)
Lemma for_raise_inv {St X} (J : St → Prop) (xs : list X) (body : X → M St unit) st e :
  (∀ x st1 st2, In x xs → J st1 → body x st1 = Ok (tt, st2) → J st2) →
  J st → for_ xs body st = Raise e →
  ∃ x st1, In x xs ∧ J st1 ∧ body x st1 = Raise e.
Proof.
  revert st. induction xs as [|x xs IH]; intros st Hstep HJ H; [done|].
  cbn [for_] in H. apply bind_raise_inv in H as [H|([] & s1 & H1 & H2)].
  - exists x, st. split; [by left|done].
  - destruct (IH s1) as (y & s & Hy & Hs & E); [| |done|].
    + intros z u1 u2 Hz. apply Hstep. by right.
    + by apply (Hstep x st s1 (or_introl eq_refl)).
    + exists y, s. split; [by right|done].
Qed.

Lemma ifindex_of_raise sw intf td e :
  ifindex_of sw intf td = Raise e →
  (td_nodes td !! sw = None ∧ e = KeyError sw)
  ∨ (∃ r, td_nodes td !! sw = Some r ∧ rec_ports r !! intf = None ∧ e = KeyError intf).
Proof.
  unfold ifindex_of. intros H. apply bind_raise_inv in H as [H|(r & td1 & H1 & H2)].
  - left. unfold node_rec in H. destruct (td_nodes td !! sw); [done|].
    by injection H as <-.
  - right. apply node_rec_ok in H1 as [-> Hr]. exists r.
    destruct (rec_ports r !! intf) as [pr|]; [done|]. by injection H2 as <-.
Qed.

(** A successful scan has recorded the port of every matching child. *)
Lemma scan_ports_found sysfs td td' :
  scan_ports sysfs td = Ok (tt, td') → ports_found sysfs td'.
Proof.
  intros H. unfold scan_ports in H. cbv zeta in H.
  apply (for_inv_prefix (fun pre t => ports_found pre t)) in H; [done| |].
  - intros e g He. by apply elem_of_nil in He.
  - intros pre e t1 t2 Hf1 E. cbv beta in E.
    destruct (match_switch_intf e.1) as [g|] eqn:Hm.
    + apply bind_inv in E as (text & t3 & Hread & E).
      assert (t3 = t1) as ->.
      { unfold read_file in Hread. destruct e.2; [|done]. by injection Hread. }
      apply set_port_ok in E as (r & Hr & _ & Hn).
      intros e' g' He' Hm'. rewrite Hn.
      apply elem_of_app in He' as [He'|He'].
      * destruct (Hf1 e' g' He' Hm') as (r' & Hr' & Hp').
        destruct (decide (g = g')) as [->|Hne].
        -- rewrite lookup_insert_eq. eexists. split; [done|]. cbn [rec_ports].
           rewrite Hr in Hr'. injection Hr' as <-.
           destruct (decide (e.1 = e'.1)) as [->|Hnp].
           ++ rewrite lookup_insert_eq. by eexists.
           ++ by rewrite lookup_insert_ne.
        -- rewrite lookup_insert_ne by done. by exists r'.
      * apply list_elem_of_singleton in He' as ->.
        rewrite Hm in Hm'. injection Hm' as <-.
        rewrite lookup_insert_eq. eexists. split; [done|]. cbn [rec_ports].
        rewrite lookup_insert_eq. by eexists.
    + injection E as <-.
      intros e' g' He' Hm'. apply elem_of_app in He' as [He'|He'].
      * by apply Hf1.
      * apply list_elem_of_singleton in He' as ->. by rewrite Hm in Hm'.
Qed.

(** The second loop fails on an unreadable ifindex file or on a prefix that
    is not among the node records. *)
Lemma scan_ports_raise names sysfs td e :
  covers names td → scan_ports sysfs td = Raise e →
  (∃ child, (child, None) ∈ sysfs ∧ is_Some (match_switch_intf child)
          ∧ e = IOError ("/sys/devices/virtual/net/" +:+ child +:+ "/ifindex"))
  ∨ (∃ child file g, (child, file) ∈ sysfs ∧ match_switch_intf child = Some g
          ∧ (g ∉ names) ∧ e = KeyError g).
Proof.
  intros Hc H. unfold scan_ports in H. cbv zeta in H.
  apply (for_raise_inv (covers names)) in H as ([child file] & t1 & Hin & Hc1 & E);
    [| |done].
  2:{ intros x u1 u2 _ Hu E. destruct (match_switch_intf x.1) as [g|].
      - apply bind_inv in E as (text & u3 & Hread & E).
        assert (u3 = u1) as ->.
        { unfold read_file in Hread. destruct x.2; [|done]. by injection Hread. }
        apply set_port_ok in E as (r & Hr & _ & Hn).
        intros k Hk. rewrite Hn. destruct (decide (g = k)) as [->|Hne].
        + rewrite lookup_insert_eq. by eexists.
        + rewrite lookup_insert_ne by done. by apply Hu.
      - by injection E as <-. }
  apply list_elem_of_In in Hin. cbn [fst snd] in E.
  destruct (match_switch_intf child) as [g|] eqn:Hm; [|done].
  apply bind_raise_inv in E as [E|(text & t2 & Hread & E)].
  - left. exists child. unfold read_file in E. destruct file as [text|]; [done|].
    injection E as <-. split; [done|]. split; [by rewrite Hm|done].
  - right. exists child, file, g.
    assert (t2 = t1) as ->.
    { unfold read_file in Hread. destruct file; [|done]. by injection Hread. }
    unfold set_port in E. apply bind_raise_inv in E as [E|(r & t3 & _ & E)]; [|done].
    unfold node_rec in E. destruct (td_nodes t1 !! g) as [r|] eqn:Hr; [done|].
    injection E as <-. split; [done|]. split; [done|]. split; [|done].
    intros Hg. destruct (Hc1 g Hg) as [r Hr']. by rewrite Hr in Hr'.
Qed.

(** The third loop fails on the lookup of an interface, at an end of a link
    between two switches, that the scan has not recorded for the switch at
    that end. *)
Lemma scan_links_raise nt sysfs td e :
  covers (map name (net_switches nt)) td → ports_found sysfs td →
  scan_links nt td = Raise e →
  ∃ p, e = KeyError p ∧ missing_port nt sysfs p.
Proof.
  intros Hc Hf.
  set (J := fun t : TopoData => td_nodes t = td_nodes td).
  assert (J td) as HJ0 by done.
  assert (∀ t1 t2, td_nodes t2 = td_nodes t1 → J t1 → J t2) as HJ.
  { intros t1 t2 E1 E2. unfold J in *. congruence. }
  assert (∀ t (k : nat) s, J t → net_switches nt !! k = Some s →
            ∃ r, td_nodes t !! name s = Some r) as Hrec.
  { intros t k s Ht Hs. rewrite Ht. apply Hc.
    apply list_elem_of_fmap. exists s. split; [done|].
    by apply (list_elem_of_lookup_2 _ k). }
  assert (∀ t sw p r, J t → td_nodes t !! sw = Some r → rec_ports r !! p = None →
            undiscovered sysfs sw p) as Hund.
  { intros t sw p r Ht Hr Hp e0 He0 Hn Hm. subst p.
    destruct (Hf e0 sw He0 Hm) as (r' & Hr' & Hsome).
    rewrite Ht in Hr. rewrite Hr in Hr'. injection Hr' as <-.
    rewrite Hp in Hsome. by destruct Hsome. }
  intros H. unfold scan_links in H. cbv zeta in H.
  apply (for_raise_inv J) in H as ([i s1] & t1 & Hi & HJ1 & H); [| |done].
  2:{ intros is1 u1 u2 _ Hu E. apply (for_inv_ok J) in E; [done| |done].
      intros js2 u3 u4 _ Hu3 E'. by apply (scan_links_inner_keeps J) in E'. }
  apply (for_raise_inv J) in H as ([j s2] & t2 & Hj & HJ2 & H); [| |done].
  2:{ intros js2 u3 u4 _ Hu3 E'. by apply (scan_links_inner_keeps J) in E'. }
  cbn [fst snd] in H. apply enumerate_In in Hi. apply enumerate_In in Hj.
  destruct (Nat.ltb_spec i j) as [Hij|_]; [|done].
  apply (for_raise_inv J) in H as ([a b] & t3 & Hab & HJ3 & H); [| |done].
  2:{ intros intf u5 u6 _ Hu5 E. by apply (link_step_nodes J) in E. }
  cbn [fst snd] in H. apply list_elem_of_In in Hab.
  apply bind_raise_inv in H as [H|(x1 & t4 & H1 & H)].
  - apply ifindex_of_raise in H as [[Hnone _]|(r & Hr & Hp & ->)].
    + destruct (Hrec t3 i s1 HJ3 Hi) as [r Hr]. by rewrite Hnone in Hr.
    + exists a. split; [done|]. exists i, j, s1, s2, a, b. do 4 (split; [done|]).
      left. split; [done|]. by apply (Hund t3 _ _ r).
  - apply ifindex_of_ok in H1 as [-> _].
    apply bind_raise_inv in H as [H|(x2 & t5 & _ & H)]; [|done].
    apply ifindex_of_raise in H as [[Hnone _]|(r & Hr & Hp & ->)].
    + destruct (Hrec t3 j s2 HJ3 Hj) as [r Hr]. by rewrite Hnone in Hr.
    + exists b. split; [done|]. exists i, j, s1, s2, a, b. do 4 (split; [done|]).
      right. split; [done|]. by apply (Hund t3 _ _ r).
Qed.

(** An export that fails has failed in its second or in its third loop. *)
Lemma dump_raise_phases nt sysfs agent e :
  dumpTopology nt sysfs agent = Raise e →
  ∃ td1, init_nodes nt agent {| td_nodes := ∅; td_links := ∅ |} = Ok (tt, td1)
       ∧ (scan_ports sysfs td1 = Raise e
          ∨ ∃ td2, scan_ports sysfs td1 = Ok (tt, td2) ∧ scan_links nt td2 = Raise e).
Proof.
  unfold dumpTopology. destruct (fill _ _ _ _) as [[[] td']|e'] eqn:H; [done|].
  intros [= ->]. unfold fill in H.
  apply bind_raise_inv in H as [H|([] & td1 & H1 & H)].
  { destruct (init_nodes_runs nt agent {| td_nodes := ∅; td_links := ∅ |}) as [td1 E].
    by rewrite E in H. }
  exists td1. split; [done|].
  apply bind_raise_inv in H as [H|([] & td2 & H2 & H)]; [by left|].
  right. exists td2. split; [done|].
  apply bind_raise_inv in H as [H|([] & td3 & H3 & H)]; [done|].
  exfalso.
  apply init_nodes_post in H1 as (Hc1 & Hu1 & Hp1).
  apply (scan_ports_post (map name (net_switches nt))) in H2 as (Hc2 & _); [|done..].
  assert (covers (map name (net_switches nt)) td3) as Hc3.
  { apply (scan_links_keeps (covers (map name (net_switches nt))) nt td2 td3);
      [|done|done].
    intros t1 t2 E Ht k Hk. rewrite E. by apply Ht. }
  destruct (tag_edges_runs nt td3 Hc3) as [td4 E]. by rewrite E in H.
Qed.

End ExportFailure.

(** C9 as stated fails: the source has no error type of its own and reports
    nothing.  On the one-host fabric whose interface s2-eth1, one end of the
    link between s1 and s2, is missing from the scanned directory, the
    export stops with the bare [KeyError] of a dictionary lookup; and when
    the directory moreover lists a child whose ifindex file cannot be read,
    it stops before it has looked at any link, with the [IOError] of that
    file, which says nothing of the link or of the missing interface. *)
Lemma export_stops_with_uncaught_lookup_error :
  ("s1-eth1", "s2-eth1") ∈ NetOps.connectionsTo small_net "s1" "s2"
  ∧ Dump.undiscovered small_sysfs_incomplete "s2" "s2-eth1"
  ∧ Dump.dumpTopology small_net small_sysfs_incomplete "127.0.0.1"
    = Raise (KeyError "s2-eth1")
  ∧ Dump.undiscovered (("s1-eth7", None) :: small_sysfs_incomplete) "s2" "s2-eth1"
  ∧ Dump.dumpTopology small_net (("s1-eth7", None) :: small_sysfs_incomplete) "127.0.0.1"
    = Raise (IOError "/sys/devices/virtual/net/s1-eth7/ifindex").
Proof.
  split; [vm_compute; left|].
  split; [exact small_sysfs_lacks_s2_eth1|].
  split; [vm_compute; reflexivity|].
  split; [|vm_compute; reflexivity].
  intros e He Hn. apply elem_of_cons in He as [->|He]; [discriminate Hn|].
  by apply (small_sysfs_lacks_s2_eth1 e).
Qed.

(** C9, amended. When two switches of the network are joined by a link and
    the interface at one end of it was not discovered (no entry of the
    scanned directory has that interface name with the owning switch as its
    prefix), the export stops with an uncaught exception: no snapshot is
    produced and nothing is written, the link is not skipped.  The exception
    is that of the first step that fails, one of three: the [IOError] of the
    ifindex file, which cannot be read, of a listed child that matches the
    pattern; the [KeyError] of the prefix of a listed child that matches the
    pattern, when that prefix is not the name of a switch; or the [KeyError]
    of an interface name, the interface being at one end of a link between
    two switches and not discovered for the switch at that end.  So when
    the scan of the directory goes through, the exception is the [KeyError]
    of an undiscovered interface of a link between switches. *)
Theorem missing_ifindex_fails (nt : Net) (sysfs : list (string * option string))
    (agent : string) (i j : nat) (s1 s2 : Node) (a b : string) :
  net_switches nt !! i = Some s1 →
  net_switches nt !! j = Some s2 →
  (i < j)%nat →
  (a, b) ∈ NetOps.connectionsTo nt (name s1) (name s2) →
  Dump.undiscovered sysfs (name s1) a ∨ Dump.undiscovered sysfs (name s2) b →
  ∃ e, Dump.dumpTopology nt sysfs agent = Raise e
     ∧ ( (∃ child, (child, None) ∈ sysfs ∧ is_Some (Dump.match_switch_intf child)
                 ∧ e = IOError ("/sys/devices/virtual/net/" +:+ child +:+ "/ifindex"))
       ∨ (∃ child file g, (child, file) ∈ sysfs ∧ Dump.match_switch_intf child = Some g
                 ∧ (g ∉ map name (net_switches nt)) ∧ e = KeyError g)
       ∨ (∃ p, e = KeyError p ∧ missing_port nt sysfs p) )
     ∧ ((∀ c g, c ∈ sysfs → Dump.match_switch_intf c.1 = Some g →
           is_Some c.2 ∧ g ∈ map name (net_switches nt)) →
        ∃ p, e = KeyError p ∧ missing_port nt sysfs p).
Proof.
  intros Hi Hj Hij Hab Hmiss.
  destruct (missing_port_stops_export nt sysfs agent i j s1 s2 a b Hi Hj Hij Hab Hmiss)
    as [e He].
  exists e. split; [done|].
  apply dump_raise_phases in He as (td1 & H1 & Hcase).
  apply init_nodes_post in H1 as (Hc1 & Hu1 & Hp1).
  assert ((∃ child, (child, None) ∈ sysfs ∧ is_Some (Dump.match_switch_intf child)
                 ∧ e = IOError ("/sys/devices/virtual/net/" +:+ child +:+ "/ifindex"))
       ∨ (∃ child file g, (child, file) ∈ sysfs ∧ Dump.match_switch_intf child = Some g
                 ∧ (g ∉ map name (net_switches nt)) ∧ e = KeyError g)
       ∨ (∃ p, e = KeyError p ∧ missing_port nt sysfs p)) as Hkind.
  { destruct Hcase as [Hs|(td2 & H2 & H3)].
    - destruct (scan_ports_raise _ sysfs td1 e Hc1 Hs) as [Hio|Hkey];
        [by left|right; by left].
    - right. right.
      pose proof (scan_ports_found sysfs td1 td2 H2) as Hf2.
      apply (scan_ports_post (map name (net_switches nt))) in H2 as (Hc2 & _); [|done..].
      by apply (scan_links_raise nt sysfs td2 e). }
  split; [exact Hkind|].
  intros Hclean.
  destruct Hkind as [(child & Hin & [g Hm] & _)
                    |[(child & file & g & Hin & Hm & Hout & _)|Hlink]].
  - destruct (Hclean (child, None) g Hin Hm) as [[x Hx] _]. discriminate Hx.
  - destruct (Hclean (child, file) g Hin Hm) as [_ Hg]. by destruct Hout.
  - exact Hlink.
Qed.

Lemma small_sysfs_incomplete_scannable :
  ∀ c g, c ∈ small_sysfs_incomplete → Dump.match_switch_intf c.1 = Some g →
    is_Some c.2 ∧ g ∈ map name (net_switches small_net).
Proof.
  intros c g Hc Hm. unfold small_sysfs_incomplete in Hc.
  repeat (apply elem_of_cons in Hc as [->|Hc];
          [vm_compute in Hm;
           first [ discriminate Hm
                 | injection Hm as <-;
                   split; [by eexists|vm_compute; by repeat constructor] ]|]).
  by apply elem_of_nil in Hc.
Defined.

(** On the one-host fabric whose interface s2-eth1 is missing from the
    directory, the export stops, and since the scan of the directory goes
    through, with the [KeyError] of a missing interface. *)
Lemma missing_ifindex_fails_witness :
  ∃ e, Dump.dumpTopology small_net small_sysfs_incomplete "127.0.0.1" = Raise e
     ∧ ( (∃ child, (child, None) ∈ small_sysfs_incomplete
                 ∧ is_Some (Dump.match_switch_intf child)
                 ∧ e = IOError ("/sys/devices/virtual/net/" +:+ child +:+ "/ifindex"))
       ∨ (∃ child file g, (child, file) ∈ small_sysfs_incomplete
                 ∧ Dump.match_switch_intf child = Some g
                 ∧ (g ∉ map name (net_switches small_net)) ∧ e = KeyError g)
       ∨ (∃ p, e = KeyError p ∧ missing_port small_net small_sysfs_incomplete p) )
     ∧ ∃ p, e = KeyError p ∧ missing_port small_net small_sysfs_incomplete p.
Proof.
  destruct (missing_ifindex_fails small_net small_sysfs_incomplete "127.0.0.1"
              0 1 (Build_Node "s1" "0000000000000001" "" "")
                  (Build_Node "s2" "0000000000000002" "" "")
              "s1-eth1" "s2-eth1") as (e & He & Hkind & Hclean).
  - reflexivity.
  - reflexivity.
  - lia.
  - vm_compute. left.
  - right. exact small_sysfs_lacks_s2_eth1.
  - exists e. split; [exact He|]. split; [exact Hkind|].
    apply Hclean. exact small_sysfs_incomplete_scannable.
Defined.
